(** * lsp-adapter: identifier translation and the URI walker

    A shallow embedding of [uris.go]: the path-prefix helpers, the two
    identifier translators, the structural walker and the cache teardown,
    together with models of the parts of the Go standard library they call
    ([strings], [path], [net/url], [os.RemoveAll]).

    Go strings are byte sequences; they are modelled by [string], whose
    characters ([ascii]) are bytes.  The proxy runs on Linux (see the
    Dockerfile), so [os.PathSeparator] is the slash and [filepath.ToSlash]
    is the identity. *)

From Stdlib Require Import String Ascii List Bool Arith Lia.
Import ListNotations.
Set Warnings "-register-all,-abstract-large-number".
Open Scope list_scope.
Open Scope string_scope.
Open Scope nat_scope.

(** ** Bytes *)

Module byte.

Definition between (lo hi c : ascii) : bool :=
  (nat_of_ascii lo <=? nat_of_ascii c) && (nat_of_ascii c <=? nat_of_ascii hi).

Definition is_lower (c : ascii) : bool := between "a" "z" c.
Definition is_upper (c : ascii) : bool := between "A" "Z" c.
Definition is_digit (c : ascii) : bool := between "0" "9" c.
Definition is_alpha (c : ascii) : bool := is_lower c || is_upper c.

(** One of the bytes of [set]. *)
Fixpoint one_of (set : string) (c : ascii) : bool :=
  match set with
  | EmptyString => false
  | String x set' => Ascii.eqb c x || one_of set' c
  end.

Definition to_lower (c : ascii) : ascii :=
  if is_upper c then ascii_of_nat (nat_of_ascii c + 32) else c.

End byte.

(** ** Package [strings] *)

Module strings.

Fixpoint HasPrefix (s prefix : string) {struct prefix} : bool :=
  match prefix with
  | EmptyString => true
  | String p prefix' =>
      match s with
      | EmptyString => false
      | String c s' => Ascii.eqb c p && HasPrefix s' prefix'
      end
  end.

(** [s[n:]] *)
Fixpoint drop (n : nat) (s : string) : string :=
  match n with
  | 0 => s
  | S n' => match s with EmptyString => EmptyString | String _ s' => drop n' s' end
  end.

(** [s[:n]] *)
Fixpoint take (n : nat) (s : string) : string :=
  match n with
  | 0 => EmptyString
  | S n' => match s with EmptyString => EmptyString | String c s' => String c (take n' s') end
  end.

Definition HasSuffix (s suffix : string) : bool :=
  (String.length suffix <=? String.length s)
  && String.eqb (drop (String.length s - String.length suffix) s) suffix.

Definition TrimPrefix (s prefix : string) : string :=
  if HasPrefix s prefix then drop (String.length prefix) s else s.

(** [strings.IndexByte]; [None] stands for -1. *)
Fixpoint IndexByte (s : string) (c : ascii) : option nat :=
  match s with
  | EmptyString => None
  | String x s' =>
      if Ascii.eqb x c then Some 0
      else match IndexByte s' c with Some i => Some (S i) | None => None end
  end.

(** [strings.LastIndex] for a one-byte separator. *)
Fixpoint LastIndexByte (s : string) (c : ascii) : option nat :=
  match s with
  | EmptyString => None
  | String x s' =>
      match LastIndexByte s' c with
      | Some i => Some (S i)
      | None => if Ascii.eqb x c then Some 0 else None
      end
  end.

(** [strings.Count] for a one-byte separator. *)
Fixpoint CountByte (s : string) (c : ascii) : nat :=
  match s with
  | EmptyString => 0
  | String x s' => (if Ascii.eqb x c then 1 else 0) + CountByte s' c
  end.

Fixpoint map (f : ascii -> ascii) (s : string) : string :=
  match s with
  | EmptyString => EmptyString
  | String c s' => String (f c) (map f s')
  end.

(** [strings.ToLower] on ASCII text (the only use is on a scheme). *)
Definition ToLower (s : string) : string := map byte.to_lower s.

Fixpoint of_list (l : list ascii) : string :=
  match l with
  | [] => EmptyString
  | c :: l' => String c (of_list l')
  end.

End strings.

(** ** Package [path] *)

Module path.

(** The backtracking loop of the [..] case of [Clean]: [x] is the byte at
    index [out.w], [out] the buffer below it, last byte first. *)
Fixpoint backtrack (x : ascii) (out : list ascii) (dotdot : nat) : list ascii :=
  match out with
  | [] => []
  | y :: out' =>
      if (dotdot <? List.length out) && negb (Ascii.eqb x "/")
      then backtrack y out' dotdot
      else out
  end.

Definition at_boundary (s : string) : bool :=
  match s with
  | EmptyString => true
  | String c _ => Ascii.eqb c "/"
  end.

(** The main loop of [path.Clean].  [rest] is [path[r:]], [out] the output
    buffer with its last byte first (so [out.w] is its length), [dotdot] as
    in the Go code.  [inelem] is set while the inner loop that copies a real
    path element is running; that loop ends at the next slash, which the
    outer loop then skips as an empty element. *)
Fixpoint clean_loop (rooted : bool) (rest : string) (out : list ascii)
    (dotdot : nat) (inelem : bool) : list ascii :=
  match rest with
  | EmptyString => out
  | String c r1 =>
      if Ascii.eqb c "/" then clean_loop rooted r1 out dotdot false
      else if inelem then clean_loop rooted r1 (c :: out) dotdot true
      else if Ascii.eqb c "." && at_boundary r1 then
        clean_loop rooted r1 out dotdot false
      else
        match r1 with
        | String c2 r2 =>
            if Ascii.eqb c "." && Ascii.eqb c2 "." && at_boundary r2 then
              if dotdot <? List.length out then
                match out with
                | x :: out' => clean_loop rooted r2 (backtrack x out' dotdot) dotdot false
                | [] => clean_loop rooted r2 out dotdot false
                end
              else if negb rooted then
                let out1 := if 0 <? List.length out then "/"%char :: out else out in
                let out2 := "."%char :: "."%char :: out1 in
                clean_loop rooted r2 out2 (List.length out2) false
              else clean_loop rooted r2 out dotdot false
            else
              let out1 :=
                if (rooted && negb (List.length out =? 1))
                   || (negb rooted && negb (List.length out =? 0))
                then "/"%char :: out else out in
              clean_loop rooted r1 (c :: out1) dotdot true
        | EmptyString =>
            let out1 :=
              if (rooted && negb (List.length out =? 1))
                 || (negb rooted && negb (List.length out =? 0))
              then "/"%char :: out else out in
            clean_loop rooted r1 (c :: out1) dotdot true
        end
  end.

Definition Clean (path : string) : string :=
  match path with
  | EmptyString => "."
  | String c rest =>
      let out :=
        if Ascii.eqb c "/" then clean_loop true rest ["/"%char] 1 false
        else clean_loop false path [] 0 false in
      match out with
      | [] => "."
      | _ => strings.of_list (List.rev out)
      end
  end.

(** [path.Join] of two elements: empty leading elements are dropped, the
    rest is joined with slashes and cleaned. *)
Definition Join (a b : string) : string :=
  if negb (String.eqb a "") then Clean (a ++ "/" ++ b)
  else if negb (String.eqb b "") then Clean b
  else "".

End path.

(** [filepath.ToSlash] where the separator is the slash. *)
Module filepath.
Definition ToSlash (p : string) : string := p.
Definition Join (a b : string) : string := path.Join a b.
End filepath.

(** ** Package [net/url] (Go 1.10, the toolchain of the Dockerfile) *)

Module url.

Inductive encoding : Set :=
| encodePath | encodePathSegment | encodeHost | encodeZone
| encodeUserPassword | encodeQueryComponent | encodeFragment.

Definition is_host_mode (mode : encoding) : bool :=
  match mode with encodeHost | encodeZone => true | _ => false end.

Definition ishex (c : ascii) : bool :=
  byte.is_digit c || byte.between "a" "f" c || byte.between "A" "F" c.

Definition unhex (c : ascii) : nat :=
  if byte.is_digit c then nat_of_ascii c - 48
  else if byte.between "a" "f" c then nat_of_ascii c - 97 + 10
  else if byte.between "A" "F" c then nat_of_ascii c - 65 + 10
  else 0.

(** [unhex(a)<<4 | unhex(b)] *)
Definition unhex2 (a b : ascii) : ascii := ascii_of_nat (16 * unhex a + unhex b).

(** ["0123456789ABCDEF"[n]] *)
Definition hexdigit (n : nat) : ascii :=
  if n <? 10 then ascii_of_nat (48 + n) else ascii_of_nat (55 + n).

(** The double-quote byte. *)
Definition dquote : ascii := ascii_of_nat 34.

Definition shouldEscape (c : ascii) (mode : encoding) : bool :=
  if byte.is_alpha c || byte.is_digit c then false
  else if is_host_mode mode && (byte.one_of "!$&'()*+,;=:[]<>" c || Ascii.eqb c dquote)
  then false
  else if byte.one_of "-_.~" c then false
  else if byte.one_of "$&+,/:;=?@" c then
    match mode with
    | encodePath => Ascii.eqb c "?"
    | encodePathSegment => byte.one_of "/;,?" c
    | encodeUserPassword => byte.one_of "@/?:" c
    | encodeQueryComponent => true
    | encodeFragment => false
    | encodeHost | encodeZone => true
    end
  else true.

Definition is_query (mode : encoding) : bool :=
  match mode with encodeQueryComponent => true | _ => false end.
Definition is_host (mode : encoding) : bool :=
  match mode with encodeHost => true | _ => false end.
Definition is_zone (mode : encoding) : bool :=
  match mode with encodeZone => true | _ => false end.

(** [unescape]: the checking pass and the decoding pass in one traversal;
    [None] is an [EscapeError] or [InvalidHostError]. *)
Fixpoint unescape (s : string) (mode : encoding) : option string :=
  match s with
  | EmptyString => Some EmptyString
  | String c s1 =>
      if Ascii.eqb c "%" then
        match s1 with
        | String h1 (String h2 s3) =>
            if negb (ishex h1 && ishex h2) then None
            else if is_host mode && (unhex h1 <? 8)
                    && negb (Ascii.eqb h1 "2" && Ascii.eqb h2 "5") then None
            else if is_zone mode
                    && negb (Ascii.eqb h1 "2" && Ascii.eqb h2 "5")
                    && negb (Ascii.eqb (unhex2 h1 h2) " ")
                    && shouldEscape (unhex2 h1 h2) encodeHost then None
            else option_map (String (unhex2 h1 h2)) (unescape s3 mode)
        | _ => None
        end
      else if Ascii.eqb c "+" then
        option_map (String (if is_query mode then " "%char else "+"%char))
                   (unescape s1 mode)
      else if is_host_mode mode && (nat_of_ascii c <? 128)
              && shouldEscape c encodeHost then None
      else option_map (String c) (unescape s1 mode)
  end.

Fixpoint escape (s : string) (mode : encoding) : string :=
  match s with
  | EmptyString => EmptyString
  | String c s' =>
      if Ascii.eqb c " " && is_query mode then String "+" (escape s' mode)
      else if shouldEscape c mode then
        String "%" (String (hexdigit (nat_of_ascii c / 16))
                      (String (hexdigit (nat_of_ascii c mod 16)) (escape s' mode)))
      else String c (escape s' mode)
  end.

(** [Userinfo]: a user name and, when set, a password. *)
Record Userinfo : Set := mkUserinfo {
  username : string;
  password : option string
}.

Record URL : Set := mkURL {
  Scheme : string;
  Opaque : string;
  User : option Userinfo;
  Host : string;
  Path : string;
  RawPath : string;
  ForceQuery : bool;
  RawQuery : string;
  Fragment : string
}.

Definition empty : URL := mkURL "" "" None "" "" "" false "" "".

Definition set_Path (u : URL) (p : string) : URL :=
  mkURL (Scheme u) (Opaque u) (User u) (Host u) p (RawPath u)
        (ForceQuery u) (RawQuery u) (Fragment u).

(** [getscheme]: [None] is the error "missing protocol scheme". *)
Fixpoint getscheme_loop (i : nat) (s rawurl : string) : option (string * string) :=
  match s with
  | EmptyString => Some ("", rawurl)
  | String c s' =>
      if byte.is_alpha c then getscheme_loop (S i) s' rawurl
      else if byte.is_digit c || byte.one_of "+-." c then
        if i =? 0 then Some ("", rawurl) else getscheme_loop (S i) s' rawurl
      else if Ascii.eqb c ":" then
        if i =? 0 then None else Some (strings.take i rawurl, s')
      else Some ("", rawurl)
  end.

Definition getscheme (rawurl : string) : option (string * string) :=
  getscheme_loop 0 rawurl rawurl.

(** [split(s, c, cutc)] for a one-byte separator [c]. *)
Definition split (s : string) (c : ascii) (cutc : bool) : string * string :=
  match strings.IndexByte s c with
  | None => (s, "")
  | Some i =>
      if cutc then (strings.take i s, strings.drop (S i) s)
      else (strings.take i s, strings.drop i s)
  end.

Definition validOptionalPort (port : string) : bool :=
  match port with
  | EmptyString => true
  | String c digits =>
      Ascii.eqb c ":"
      && (fix all_digits (s : string) : bool :=
            match s with
            | EmptyString => true
            | String d s' => byte.is_digit d && all_digits s'
            end) digits
  end.

(** [strings.Index(s, "%25")] *)
Fixpoint index_pct25 (s : string) : option nat :=
  if strings.HasPrefix s "%25" then Some 0
  else match s with
       | EmptyString => None
       | String _ s' => match index_pct25 s' with Some i => Some (S i) | None => None end
       end.

Definition parseHost (host : string) : option string :=
  let plain := unescape host encodeHost in
  if strings.HasPrefix host "[" then
    match strings.LastIndexByte host "]" with
    | None => None
    | Some i =>
        if negb (validOptionalPort (strings.drop (S i) host)) then None
        else
          match index_pct25 (strings.take i host) with
          | Some zone =>
              match unescape (strings.take zone host) encodeHost,
                    unescape (strings.drop zone (strings.take i host)) encodeZone,
                    unescape (strings.drop i host) encodeHost with
              | Some host1, Some host2, Some host3 => Some (host1 ++ host2 ++ host3)
              | _, _, _ => None
              end
          | None => plain
          end
    end
  else plain.

(** [validUserinfo] *)
Fixpoint validUserinfo (s : string) : bool :=
  match s with
  | EmptyString => true
  | String c s' =>
      (byte.is_alpha c || byte.is_digit c || byte.one_of "-._:~!$&'()*+,;=%@" c)
      && validUserinfo s'
  end.

Definition parseAuthority (authority : string) : option (option Userinfo * string) :=
  match strings.LastIndexByte authority "@" with
  | None =>
      match parseHost authority with
      | Some host => Some (None, host)
      | None => None
      end
  | Some i =>
      match parseHost (strings.drop (S i) authority) with
      | None => None
      | Some host =>
          let userinfo := strings.take i authority in
          if negb (validUserinfo userinfo) then None
          else
            match strings.IndexByte userinfo ":" with
            | None =>
                match unescape userinfo encodeUserPassword with
                | Some name => Some (Some (mkUserinfo name None), host)
                | None => None
                end
            | Some _ =>
                let (name0, pass0) := split userinfo ":" true in
                match unescape name0 encodeUserPassword,
                      unescape pass0 encodeUserPassword with
                | Some name, Some pass => Some (Some (mkUserinfo name (Some pass)), host)
                | _, _ => None
                end
            end
      end
  end.

(** [parse(rawurl, false)] *)
Definition parse (rawurl : string) : option URL :=
  if String.eqb rawurl "*" then Some (set_Path empty "*")
  else
    match getscheme rawurl with
    | None => None
    | Some (scheme0, rest0) =>
        let scheme := strings.ToLower scheme0 in
        let '(rest1, force, query) :=
          if strings.HasSuffix rest0 "?" && (strings.CountByte rest0 "?" =? 1)
          then (strings.take (String.length rest0 - 1) rest0, true, "")
          else let (r, q) := split rest0 "?" true in (r, false, q) in
        if negb (strings.HasPrefix rest1 "/") && negb (String.eqb scheme "") then
          Some (mkURL scheme rest1 None "" "" "" force query "")
        else if negb (strings.HasPrefix rest1 "/")
                && match strings.IndexByte rest1 ":", strings.IndexByte rest1 "/" with
                   | Some colon, Some slash => colon <? slash
                   | Some _, None => true
                   | None, _ => false
                   end
        then None
        else
          let authority_rest :=
            if (negb (String.eqb scheme "") || negb (strings.HasPrefix rest1 "///"))
               && strings.HasPrefix rest1 "//"
            then
              let (authority, rest2) := split (strings.drop 2 rest1) "/" false in
              match parseAuthority authority with
              | Some (user, host) => Some (user, host, rest2)
              | None => None
              end
            else Some (None, "", rest1) in
          match authority_rest with
          | None => None
          | Some (user, host, rest2) =>
              (* setPath *)
              match unescape rest2 encodePath with
              | None => None
              | Some p =>
                  let rawpath :=
                    if String.eqb rest2 (escape p encodePath) then "" else rest2 in
                  Some (mkURL scheme "" user host p rawpath force query "")
              end
          end
    end.

(** [url.Parse]: the fragment is cut off first. *)
Definition Parse (rawurl : string) : option URL :=
  let (u, frag) := split rawurl "#" true in
  match parse u with
  | None => None
  | Some url =>
      if String.eqb frag "" then Some url
      else
        match unescape frag encodeFragment with
        | None => None
        | Some f =>
            Some (mkURL (Scheme url) (Opaque url) (User url) (Host url) (Path url)
                        (RawPath url) (ForceQuery url) (RawQuery url) f)
        end
  end.

Fixpoint validEncodedPath (s : string) : bool :=
  match s with
  | EmptyString => true
  | String c s' =>
      (byte.one_of "!$&'()*+,;=:@[]%" c || negb (shouldEscape c encodePath))
      && validEncodedPath s'
  end.

Definition EscapedPath (u : URL) : string :=
  let default :=
    if String.eqb (Path u) "*" then "*" else escape (Path u) encodePath in
  if negb (String.eqb (RawPath u) "") && validEncodedPath (RawPath u) then
    match unescape (RawPath u) encodePath with
    | Some p => if String.eqb p (Path u) then RawPath u else default
    | None => default
    end
  else default.

Definition Userinfo_String (ui : Userinfo) : string :=
  escape (username ui) encodeUserPassword
  ++ match password ui with
     | Some p => ":" ++ escape p encodeUserPassword
     | None => ""
     end.

(** The [String] method of [URL]. *)
Definition String_ (u : URL) : string :=
  let buf0 := if negb (String.eqb (Scheme u) "") then Scheme u ++ ":" else "" in
  let buf1 :=
    if negb (String.eqb (Opaque u) "") then buf0 ++ Opaque u
    else
      let has_user := match User u with Some _ => true | None => false end in
      let auth :=
        if negb (String.eqb (Scheme u) "") || negb (String.eqb (Host u) "") || has_user then
          (if negb (String.eqb (Host u) "") || negb (String.eqb (Path u) "") || has_user
           then "//" else "")
          ++ match User u with Some ui => Userinfo_String ui ++ "@" | None => "" end
          ++ (if negb (String.eqb (Host u) "") then escape (Host u) encodeHost else "")
        else "" in
      let p := EscapedPath u in
      let buf := buf0 ++ auth in
      let buf :=
        if negb (String.eqb p "") && negb (strings.HasPrefix p "/")
           && negb (String.eqb (Host u) "")
        then buf ++ "/" else buf in
      let buf :=
        if String.eqb buf "" then
          match strings.IndexByte p ":" with
          | Some i =>
              match strings.IndexByte (strings.take i p) "/" with
              | None => buf ++ "./"
              | Some _ => buf
              end
          | None => buf
          end
        else buf in
      buf ++ p in
  let buf2 :=
    if ForceQuery u || negb (String.eqb (RawQuery u) "")
    then buf1 ++ "?" ++ RawQuery u else buf1 in
  if negb (String.eqb (Fragment u) "")
  then buf2 ++ "#" ++ escape (Fragment u) encodeFragment else buf2.

End url.

(** ** Package [os] *)

(** [os.RemoveAll] over a file system given as the list of its paths, each
    marked with whether the process may unlink it.  The call removes what it
    can under [path] and returns the first error it met, [None] when there
    was none (also when [path] does not exist). *)
Module os.

(** [string(os.PathSeparator)] on Linux. *)
Definition PathSeparator : string := "/".

Record entry : Set := mkEntry { name : string; removable : bool }.
Definition FS : Set := list entry.
Definition error : Set := string.

(** [e] is [path] itself or lies below it. *)
Definition within (path : string) (e : entry) : bool :=
  String.eqb (name e) path || strings.HasPrefix (name e) (path ++ "/").

(** The entries below [path] that cannot be unlinked. *)
Definition stuck (path : string) (fs : FS) : list entry :=
  List.filter (fun e => within path e && negb (removable e)) fs.

(** An entry survives when it is outside [path], cannot be unlinked, or is
    a directory that still holds an entry that cannot be unlinked. *)
Definition survives (path : string) (fs : FS) (e : entry) : bool :=
  negb (within path e) || negb (removable e)
  || List.existsb (fun x => within (name e) x) (stuck path fs).

Definition RemoveAll (path : string) (fs : FS) : FS * option error :=
  (List.filter (survives path fs) fs,
   match stuck path fs with
   | [] => None
   | e :: _ => Some ("unlinkat " ++ name e ++ ": permission denied")
   end).

End os.

(** ** Logging

    [log.Printf] and [log.Println] append a line to the process log.  A
    computation that may log returns its value together with the lines it
    wrote. *)

Definition Logged (A : Type) : Type := A * list string.

Definition ret {A : Type} (a : A) : Logged A := (a, []).
Definition log_Println {A : Type} (line : string) (a : A) : Logged A := (a, [line]).
Definition returned {A : Type} (m : Logged A) : A := fst m.
Definition logged {A : Type} (m : Logged A) : list string := snd m.

(** ** The identifier translator ([uris.go])

    Both translators return the identifier and may write to the log.  Of
    the line logged on a parse error the model keeps the text up to the
    identifier; the text of the error that follows it is left out. *)

(** [lsp.DocumentURI] is a string type. *)
Abbreviation DocumentURI := string (only parsing).

Definition probablyFileURI (candidate : url.URL) : bool :=
  if negb (String.eqb (url.Scheme candidate) "" || String.eqb (url.Scheme candidate) "file")
  then false
  else if String.eqb (url.Path candidate) "" then false
  else true.

Definition rawHasPrefix (s prefix pathSep : string) : bool :=
  let prefixSlash :=
    if negb (String.eqb prefix "") && negb (strings.HasSuffix prefix pathSep)
    then prefix ++ pathSep else "" in
  String.eqb s prefix || strings.HasPrefix s prefixSlash.

Definition pathHasPrefix (s prefix : string) : bool := rawHasPrefix s prefix "/".

Definition filepathHasPrefix (s prefix : string) : bool :=
  rawHasPrefix s prefix os.PathSeparator.

Definition rawTrimPrefix (s prefix pathSep : string) : string :=
  if String.eqb s prefix then ""
  else
    let prefix := if negb (strings.HasSuffix prefix pathSep) then prefix ++ pathSep else prefix in
    strings.TrimPrefix s prefix.

Definition pathTrimPrefix (s prefix : string) : string := rawTrimPrefix s prefix "/".

Definition filepathTrimPrefix (s prefix : string) : string :=
  rawTrimPrefix s prefix os.PathSeparator.

Definition clientToServerURI (uri : DocumentURI) (sysCacheDir : string) : Logged DocumentURI :=
  let cacheDir := filepath.ToSlash sysCacheDir in
  match url.Parse uri with
  | None =>
      log_Println ("clientToServerURI: err when trying to parse uri " ++ uri) uri
  | Some parsedURI =>
      if negb (probablyFileURI parsedURI) then ret uri
      else
        let parsedURI := url.set_Path parsedURI (path.Join cacheDir (url.Path parsedURI)) in
        ret (url.String_ parsedURI)
  end.

Definition serverToClientURI (uri : DocumentURI) (sysCacheDir : string) : Logged DocumentURI :=
  let cacheDir := filepath.ToSlash sysCacheDir in
  match url.Parse uri with
  | None =>
      log_Println ("serverToClientURI: err when trying to parse uri " ++ uri) uri
  | Some parsedURI =>
      if negb (probablyFileURI parsedURI) then ret uri
      else
        let parsedURI :=
          if pathHasPrefix (url.Path parsedURI) cacheDir
          then url.set_Path parsedURI
                 (path.Join "/" (pathTrimPrefix (url.Path parsedURI) cacheDir))
          else parsedURI in
        ret (url.String_ parsedURI)
  end.

Definition toServer (c : string) (id : DocumentURI) : DocumentURI :=
  returned (clientToServerURI id c).
Definition toClient (c : string) (id : DocumentURI) : DocumentURI :=
  returned (serverToClientURI id c).

(** ** Decoded payloads

    The values the walker meets behind an [interface{}]: what
    [encoding/json] decodes into ([nil], booleans, numbers, strings,
    [map[string]interface{}], [[]interface{}]) and typed Go values
    (pointers, structs, arrays, slices and maps of other types).

    A [map[string]interface{}] is an association list with distinct keys;
    the order of the list is the order in which [range] produces the
    entries in the run at hand (Go leaves it unspecified).  Payloads are trees: no
    map, slice or pointer target is shared between two places.  The walker
    updates maps and records in place; a walk of the model returns the
    payload as it stands afterwards. *)

Record field (V : Type) : Type := mkField {
  fname : string;
  fiface : bool;   (* the field's static type is an interface type *)
  fvalue : V
}.
Arguments mkField {V}.
Arguments fname {V}.
Arguments fiface {V}.
Arguments fvalue {V}.

Inductive value : Type :=
| VNil                                     (* the nil interface *)
| VBool (b : bool)
| VNumber (n : nat)                        (* float64 *)
| VString (s : string)
| VDocumentURI (s : DocumentURI)           (* lsp.DocumentURI *)
| VMap (m : list (string * value))         (* map[string]interface{} *)
| VSlice (l : list value)                  (* []interface{} *)
| VPtr (target : option value)             (* a pointer; None is nil *)
| VStruct (fields : list (field value))
| VArray (l : list value)
| VTypedSlice (l : list value)             (* a slice of another type *)
| VTypedMap (m : list (string * value)).   (* a map of another type *)

(** [reflect.Kind], as far as the walker tells kinds apart. *)
Inductive Kind : Set :=
| Invalid | Bool | Float64 | String_ | Map | Slice | Ptr | Struct | Array | Interface.

Definition Kind_eqb (a b : Kind) : bool :=
  match a, b with
  | Invalid, Invalid | Bool, Bool | Float64, Float64 | String_, String_
  | Map, Map | Slice, Slice | Ptr, Ptr | Struct, Struct | Array, Array
  | Interface, Interface => true
  | _, _ => false
  end.

(** [reflect.ValueOf(o).Kind()] *)
Definition kind_of (o : value) : Kind :=
  match o with
  | VNil => Invalid
  | VBool _ => Bool
  | VNumber _ => Float64
  | VString _ | VDocumentURI _ => String_
  | VMap _ | VTypedMap _ => Map
  | VSlice _ | VTypedSlice _ => Slice
  | VPtr _ => Ptr
  | VStruct _ => Struct
  | VArray _ => Array
  end.

(** [rv.Field(i).Kind()] *)
Definition field_kind (f : field value) : Kind :=
  if fiface f then Interface else kind_of (fvalue f).

(** A field is exported when its name starts with an upper-case letter. *)
Definition exported (f : field value) : bool :=
  match fname f with
  | EmptyString => false
  | String c _ => byte.is_upper c
  end.

(** *** Go maps as association lists *)

Module gomap.
Section GoMap.
Context {V : Type}.

Fixpoint lookup (k : string) (m : list (string * V)) : option V :=
  match m with
  | [] => None
  | (k', v) :: m' => if String.eqb k k' then Some v else lookup k m'
  end.

(** [delete(m, k)] *)
Fixpoint delete (k : string) (m : list (string * V)) : list (string * V) :=
  match m with
  | [] => []
  | (k', v) :: m' => if String.eqb k k' then delete k m' else (k', v) :: delete k m'
  end.

(** [m[k] = v]: an existing entry is overwritten, a new one is added. *)
Fixpoint insert (k : string) (v : V) (m : list (string * V)) : list (string * V) :=
  match m with
  | [] => [(k, v)]
  | (k', v') :: m' => if String.eqb k k' then (k, v) :: m' else (k', v') :: insert k v m'
  end.

Definition keys (m : list (string * V)) : list string := List.map fst m.

End GoMap.
End gomap.

(** *** Outcomes of a walk *)

Inductive outcome (A : Type) : Type :=
| Done (a : A)      (* returned normally *)
| Panic             (* a run-time panic *)
| OutOfFuel.        (* the recursion bound of the model was reached *)
Arguments Done {A}.
Arguments Panic {A}.
Arguments OutOfFuel {A}.

Definition bind {A B : Type} (m : outcome A) (k : A -> outcome B) : outcome B :=
  match m with
  | Done a => k a
  | Panic => Panic
  | OutOfFuel => OutOfFuel
  end.

Notation "x <- m ;; k" := (bind m (fun x => k))
  (at level 61, m at next level, right associativity).

(** [string(k)] for an integer [k]: the UTF-8 encoding of the code point
    [k] (of U+FFFD when [k] is not a valid code point). *)
Definition rune_string (k : nat) : string :=
  let b (n : nat) := ascii_of_nat n in
  if k <? 128 then String (b k) ""
  else if k <? 2048 then String (b (192 + k / 64)) (String (b (128 + k mod 64)) "")
  else if (k <? 55296) || ((57343 <? k) && (k <? 65536)) then
    String (b (224 + k / 4096))
      (String (b (128 + (k / 64) mod 64)) (String (b (128 + k mod 64)) ""))
  else if (65535 <? k) && (k <? 1114112) then
    String (b (240 + k / 262144))
      (String (b (128 + (k / 4096) mod 64))
         (String (b (128 + (k / 64) mod 64)) (String (b (128 + k mod 64)) "")))
  else String (b 239) (String (b 191) (String (b 189) "")).

(** ** The structural walker ([uris.go]) *)

Definition update_fn : Type := option (DocumentURI -> DocumentURI).

(** The keys whose string value is an identifier. *)
Definition uri_key (k : string) : bool :=
  String.eqb k "uri" || String.eqb k "rootPath" || String.eqb k "rootUri"
  || String.eqb k "url".

(** [v.(string)], and failing that [v.(lsp.DocumentURI)]. *)
Definition as_string (v : value) : option string :=
  match v with
  | VString s => Some s
  | VDocumentURI s => Some s
  | _ => None
  end.

Section Walk.
Variable update : update_fn.
(** The run: which of the entries that a loop over a map inserts into that
    map its [range] goes on to produce.  Go leaves this open for every
    such entry. *)
Variable produced : string -> bool.
(** The recursive call [walk(v, parent)]. *)
Variable walk : value -> string -> outcome value.

(** One pass of the body of the loop over a [map[string]interface{}], for
    the key [k] and the map [o] as it stands: the map after the pass and,
    when the pass inserted an entry under a key the map did not hold, that
    key.  An entry removed before it is reached is not produced. *)
Definition map_pass (parent k : string) (o : list (string * value))
    : outcome (list (string * value) * option string) :=
  match gomap.lookup k o with
  | None => Done (o, None)
  | Some v =>
      match (if uri_key k then as_string v else None) with
      | Some s =>
          Done (match update with
                | Some f => gomap.insert k (VDocumentURI (f s)) o
                | None => o
                end, None)
      | None =>
          if String.eqb parent "changes" then
            match update with
            | None => Panic   (* call of a nil function *)
            | Some f =>
                let new_uri := f k in
                let o := gomap.delete k o in
                let inserted :=
                  match gomap.lookup new_uri o with
                  | None => Some new_uri
                  | Some _ => None
                  end in
                let o := gomap.insert new_uri v o in
                v' <- walk v k ;;
                Done (gomap.insert new_uri v' o, inserted)
            end
          else
            v' <- walk v k ;;
            Done (gomap.insert k v' o, None)
      end
  end.

(** The loop over a [map[string]interface{}].  [todo] holds the keys the
    map had when the loop began and that are still to be produced, in the
    order of this run.  An entry that a pass inserts is produced right
    after that pass when the run says so (the order is Go's to choose);
    what the pass for such an entry inserts in turn is not produced. *)
Fixpoint range_map (parent : string) (todo : list string)
    (o : list (string * value)) : outcome (list (string * value)) :=
  match todo with
  | [] => Done o
  | k :: todo' =>
      r <- map_pass parent k o ;;
      o' <- (match snd r with
             | Some k' =>
                 if produced k' then
                   r' <- map_pass parent k' (fst r) ;;
                   Done (fst r')
                 else Done (fst r)
             | None => Done (fst r)
             end) ;;
      range_map parent todo' o'
  end.

(** The loop over a [[]interface{}]; [k] is the index of the head of [o]. *)
Fixpoint range_slice (k : nat) (o : list value) : outcome (list value) :=
  match o with
  | [] => Done []
  | v :: o' =>
      v' <- walk v (rune_string k) ;;
      o'' <- range_slice (S k) o' ;;
      Done (v' :: o'')
  end.

(** [rv.FieldByName("URI")] and the update of that field.  Setting a
    field of a struct that was not reached through a pointer panics
    (the value is not addressable).  The fields are the struct's own;
    fields promoted from embedded structs are not modelled. *)
Fixpoint set_URI (addressable : bool) (fields : list (field value))
    : outcome (list (field value)) :=
  match fields with
  | [] => Done []
  | f :: fields' =>
      if String.eqb (fname f) "URI" then
        match Kind_eqb (field_kind f) String_, as_string (fvalue f), update with
        | true, Some s, Some upd =>
            if addressable then
              let v' := match fvalue f with
                        | VDocumentURI _ => VDocumentURI (upd s)
                        | _ => VString (upd s)
                        end in
              Done (mkField (fname f) (fiface f) v' :: fields')
            else Panic
        | _, _, _ => Done fields
        end
      else
        fields'' <- set_URI addressable fields' ;;
        Done (f :: fields'')
  end.

(** The loop over the fields of a struct.  [fv.Interface()] panics on a
    field that is not exported. *)
Fixpoint walk_fields (fields : list (field value)) : outcome (list (field value)) :=
  match fields with
  | [] => Done []
  | f :: fields' =>
      f' <- (match field_kind f with
             | Ptr | Struct | Array =>
                 if exported f then
                   v' <- walk (fvalue f) "n/a" ;;
                   Done (mkField (fname f) (fiface f) v')
                 else Panic
             | _ => Done f
             end) ;;
      fields'' <- walk_fields fields' ;;
      Done (f' :: fields'')
  end.

(** The [default] case: a struct, or a pointer to one. *)
Definition walk_struct (addressable : bool) (fields : list (field value))
    : outcome (list (field value)) :=
  fields' <- set_URI addressable fields ;;
  walk_fields fields'.

(** One call of the closure [walk], the recursive calls going to [walk]. *)
Definition walk_body (o : value) (parent : string) : outcome value :=
  match o with
  | VMap m =>
      m' <- range_map parent (gomap.keys m) m ;;
      Done (VMap m')
  | VSlice l =>
      l' <- range_slice 0 l ;;
      Done (VSlice l')
  | VPtr (Some (VStruct fields)) =>
      fields' <- walk_struct true fields ;;
      Done (VPtr (Some (VStruct fields')))
  | VStruct fields =>
      fields' <- walk_struct false fields ;;
      Done (VStruct fields')
  | _ => Done o
  end.

End Walk.

(** The closure [walk] in the run [produced]; [fuel] bounds the depth of
    the recursion. *)
Fixpoint walk (produced : string -> bool) (fuel : nat) (update : update_fn)
    (o : value) (parent : string) : outcome value :=
  match fuel with
  | 0 => OutOfFuel
  | S fuel' => walk_body update produced (walk produced fuel' update) o parent
  end.

(** The runs in which no inserted entry is produced, and those in which
    every one is. *)
Definition skip_inserted : string -> bool := fun _ => false.
Definition produce_inserted : string -> bool := fun _ => true.

Section Depth.
Variable depth : value -> nat.
Definition depth_list (l : list value) : nat :=
  List.fold_right (fun v n => Nat.max (depth v) n) 0 l.
Definition depth_map (m : list (string * value)) : nat :=
  List.fold_right (fun kv n => Nat.max (depth (snd kv)) n) 0 m.
Definition depth_fields (fs : list (field value)) : nat :=
  List.fold_right (fun f n => Nat.max (depth (fvalue f)) n) 0 fs.
End Depth.

(** The nesting depth of a payload. *)
Fixpoint depth (o : value) : nat :=
  match o with
  | VMap m | VTypedMap m => S (depth_map depth m)
  | VSlice l | VArray l | VTypedSlice l => S (depth_list depth l)
  | VPtr (Some t) => S (depth t)
  | VStruct fs => S (depth_fields depth fs)
  | _ => 1
  end.

(** [WalkURIFields(o, update)] in the run [produced]: the payload as the
    walk leaves it. *)
Definition WalkURIFields (produced : string -> bool) (o : value)
    (update : update_fn) : outcome value :=
  walk produced (S (depth o)) update o "top".

(** ** Cache teardown ([uris.go]) *)


(** The part of [cloneProxy] the cache code reads: the session key,
    [p.sessionID.String()]. *)
Record cloneProxy : Set := mkCloneProxy { sessionID : string }.

Section Cache.
(** The flag [*cacheDir], the configured cache root. *)
Variable cacheDir : string.

Definition workspaceCacheDir (p : cloneProxy) : string :=
  filepath.Join cacheDir (sessionID p).

(** The file system after the call and the [error] the method returns. *)
Definition cleanWorkspaceCache (p : cloneProxy) (fs : os.FS)
    : Logged (os.FS * option os.error) :=
  log_Println ("Removing workspace cache from " ++ workspaceCacheDir p)
    (os.RemoveAll (workspaceCacheDir p) fs).

End Cache.

(** ** Notions used by the statements *)

(** The prefix test the translator is meant to make: [s] is [c] itself or
    continues [c] after a slash. *)
Definition boundary_prefix (c s : string) : bool :=
  String.eqb s c || strings.HasPrefix s (c ++ "/").


(** A payload without identifiers: no recognised key with a string value,
    no [changes] key, no record. *)
Section Plain.
Variable plain : value -> bool.
Definition plain_entry (kv : string * value) : bool :=
  negb (uri_key (fst kv)
        && match as_string (snd kv) with Some _ => true | None => false end)
  && negb (String.eqb (fst kv) "changes")
  && plain (snd kv).
End Plain.

Fixpoint plain (o : value) : bool :=
  match o with
  | VMap m => List.forallb (plain_entry plain) m
  | VSlice l => List.forallb plain l
  | VStruct _ => false
  | VPtr (Some (VStruct _)) => false
  | _ => true
  end.

(** An edit list: a sequence of payloads without identifiers (text edits
    are a range and a new text). *)
Definition edit_list (v : value) : bool :=
  match v with
  | VSlice l => List.forallb plain l
  | _ => false
  end.

(** The mapping a [changes] map should become: every key rewritten, the
    values as they were. *)
Definition rekey (f : DocumentURI -> DocumentURI) (m : list (string * value))
    : list (string * value) :=
  List.map (fun kv => (f (fst kv), snd kv)) m.

(** Keys as a set: membership and distinctness. *)
Definition mem (k : string) (l : list string) : bool := List.existsb (String.eqb k) l.

Fixpoint distinct (l : list string) : bool :=
  match l with
  | [] => true
  | k :: l' => negb (mem k l') && distinct l'
  end.

(** The rewrite function sends the keys of [m] to distinct keys, and none
    of them onto another key of [m]. *)
Definition collision_free (f : DocumentURI -> DocumentURI)
    (m : list (string * value)) : bool :=
  distinct (List.map f (gomap.keys m))
  && List.forallb (fun k => implb (mem (f k) (gomap.keys m)) (String.eqb (f k) k))
       (gomap.keys m).

(** *** Records: what the walk is expected to leave behind *)

(** The fields the walker follows: those of kind pointer, struct or array. *)
Definition followed (fld : field value) : bool :=
  match field_kind fld with
  | Ptr | Struct | Array => true
  | _ => false
  end.

(** The string held by a field of kind string. *)
Definition string_field (fld : field value) : option string :=
  if fiface fld then None else as_string (fvalue fld).

(** The record with its [URI] field, if it is a string, rewritten. *)
Fixpoint rewrite_URI (f : DocumentURI -> DocumentURI) (fs : list (field value))
    : list (field value) :=
  match fs with
  | [] => []
  | fld :: fs' =>
      if String.eqb (fname fld) "URI" then
        match string_field fld, fvalue fld with
        | Some s, VDocumentURI _ => mkField (fname fld) (fiface fld) (VDocumentURI (f s)) :: fs'
        | Some s, _ => mkField (fname fld) (fiface fld) (VString (f s)) :: fs'
        | None, _ => fs
        end
      else fld :: rewrite_URI f fs'
  end.

(** The record has a [URI] field of kind string. *)
Fixpoint has_string_URI (fs : list (field value)) : bool :=
  match fs with
  | [] => false
  | fld :: fs' =>
      if String.eqb (fname fld) "URI"
      then match string_field fld with Some _ => true | None => false end
      else has_string_URI fs'
  end.

Section Records.
Variable f : DocumentURI -> DocumentURI.

(** Every record that is reached through followed fields, with its [URI]
    rewritten when the record sits behind a pointer. *)
Fixpoint expected (o : value) : value :=
  match o with
  | VPtr (Some (VStruct fs)) =>
      VPtr (Some (VStruct (rewrite_URI f
        (List.map (fun fld => if followed fld
                              then mkField (fname fld) (fiface fld) (expected (fvalue fld))
                              else fld) fs))))
  | VStruct fs =>
      VStruct
        (List.map (fun fld => if followed fld
                              then mkField (fname fld) (fiface fld) (expected (fvalue fld))
                              else fld) fs)
  | _ => o
  end.

Definition expected_field (fld : field value) : field value :=
  if followed fld then mkField (fname fld) (fiface fld) (expected (fvalue fld)) else fld.

End Records.

(** The records a walk with a rewrite function gets through: every
    followed field is exported, and no record held by value (not behind a
    pointer) has a string [URI] field. *)
Fixpoint walkable (o : value) : bool :=
  match o with
  | VPtr (Some (VStruct fs)) =>
      List.forallb (fun fld => if followed fld
                               then exported fld && walkable (fvalue fld)
                               else true) fs
  | VStruct fs =>
      negb (has_string_URI fs)
      && List.forallb (fun fld => if followed fld
                                  then exported fld && walkable (fvalue fld)
                                  else true) fs
  | _ => true
  end.

Definition is_container (o : value) : bool :=
  match o with
  | VMap _ | VSlice _ => true
  | _ => false
  end.

(** A followed field the walk gets through. *)
Definition field_ok (fld : field value) : bool :=
  if followed fld then exported fld && walkable (fvalue fld) else true.

(** *** Paths in cleaned form *)

(** Where a scan of a path stands: right after a slash, after one dot or
    two dots that started an element, or inside an element that is
    neither [.] nor [..]. *)
Inductive seg_state : Set := AfterSlash | Dot1 | Dot2 | Name.

(** [s] continues a path in cleaned form: slash-separated elements, none
    of them empty, [.] or [..], and no slash at the end. *)
Fixpoint scan (st : seg_state) (s : string) : bool :=
  match s with
  | EmptyString => match st with Name => true | _ => false end
  | String c s' =>
      if Ascii.eqb c "/" then
        match st with Name => scan AfterSlash s' | _ => false end
      else if Ascii.eqb c "." then
        match st with
        | AfterSlash => scan Dot1 s'
        | Dot1 => scan Dot2 s'
        | _ => scan Name s'
        end
      else scan Name s'
  end.

(** A rooted path in cleaned form: the root, or a slash before each of
    its elements, which are not empty, [.] or [..]. *)
Definition clean_rooted (p : string) : bool :=
  match p with
  | EmptyString => false
  | String c s => Ascii.eqb c "/" && (String.eqb s "" || scan AfterSlash s)
  end.

(** The bytes of a string, last first. *)
Fixpoint rev_bytes (s : string) (acc : list ascii) : list ascii :=
  match s with
  | EmptyString => acc
  | String c s' => rev_bytes s' (c :: acc)
  end.

(** The slash the loop writes before an element, unless the buffer only
    holds the root. *)
Definition with_slash (out : list ascii) : list ascii :=
  if List.length out =? 1 then out else "/"%char :: out.

(** *** Identifiers in canonical spelling *)

(** The byte [c] does not occur in [s]. *)
Definition absent (c : ascii) (s : string) : bool :=
  match strings.IndexByte s c with
  | None => true
  | Some _ => false
  end.

(** Every byte of [s] passes the test [P]. *)
Fixpoint every (P : ascii -> bool) (s : string) : bool :=
  match s with
  | EmptyString => true
  | String c s' => P c && every P s'
  end.

(** A byte that [String] writes as it is in a host, and that does not open
    an IP literal. *)
Definition host_byte (c : ascii) : bool :=
  negb (url.shouldEscape c url.encodeHost) && negb (Ascii.eqb c "[").

(** A host name (possibly empty, possibly with a port) made of such bytes. *)
Definition plain_host (h : string) : bool := every host_byte h.

(** A file URL without user information, with a plain host or none, whose
    path is rooted, in cleaned form and in the default escaping. *)
Definition canonical (u : url.URL) : bool :=
  (String.eqb (url.Scheme u) "" || String.eqb (url.Scheme u) "file")
  && String.eqb (url.Opaque u) ""
  && match url.User u with None => true | Some _ => false end
  && plain_host (url.Host u)
  && String.eqb (url.RawPath u) ""
  && clean_rooted (url.Path u)
  && absent "#" (url.RawQuery u)
  && implb (url.ForceQuery u) (String.eqb (url.RawQuery u) "").

(** An identifier that [url.Parse] reads as a canonical file URL and that
    [String] spells the same way again. *)
Definition canonical_id (id : DocumentURI) : bool :=
  match url.Parse id with
  | Some u => canonical u && String.eqb (url.String_ u) id
  | None => false
  end.

(** The path of a parsed identifier ([""] when it does not parse). *)
Definition path_of (id : DocumentURI) : string :=
  match url.Parse id with
  | Some u => url.Path u
  | None => ""
  end.

(** What [encoding/json] decodes into an [interface{}]. *)
Fixpoint json (o : value) : bool :=
  match o with
  | VNil | VBool _ | VNumber _ | VString _ | VDocumentURI _ => true
  | VMap m => List.forallb (fun kv => json (snd kv)) m
  | VSlice l => List.forallb json l
  | _ => false
  end.

(** The query part that [String] writes. *)
Definition query_part (force : bool) (q : string) : string :=
  if force || negb (String.eqb q "") then "?" ++ q else "".

(** The fragment part that [String] writes. *)
Definition fragment_part (f : string) : string :=
  if negb (String.eqb f "") then "#" ++ url.escape f url.encodeFragment else "".

(** A walk that returned a payload of depth at most [d], or panicked. *)
Definition bounded (d : nat) (r : outcome value) : Prop :=
  match r with
  | Done o' => depth o' <= d
  | Panic => True
  | OutOfFuel => False
  end.

(** What [String] writes before the path of a canonical file URL. *)
Definition authority_part (scheme h : string) : string :=
  (if String.eqb scheme "" then (if String.eqb h "" then "" else "//") else "file://")
  ++ h.

(** A single path element: not empty, not [.] or [..], without a slash.
    The session keys are of this form. *)
Definition element (k : string) : bool :=
  scan AfterSlash k && absent "/" k.

(** *** Decoded payloads: what the walk is expected to leave behind *)

Definition is_map (o : value) : bool :=
  match o with
  | VMap _ => true
  | _ => false
  end.

(** No [changes] key holds a mapping. *)
Fixpoint changes_free (o : value) : bool :=
  match o with
  | VMap m =>
      List.forallb
        (fun kv => negb (String.eqb (fst kv) "changes" && is_map (snd kv))
                   && changes_free (snd kv)) m
  | VSlice l => List.forallb changes_free l
  | _ => true
  end.

(** The keys of every mapping are pairwise different, as they are in a Go
    map. *)
Fixpoint keyed (o : value) : bool :=
  match o with
  | VMap m => distinct (gomap.keys m) && List.forallb (fun kv => keyed (snd kv)) m
  | VSlice l => List.forallb keyed l
  | _ => true
  end.

(** The identifier held by an entry: the string under a recognised key. *)
Definition identifier (kv : string * value) : option string :=
  if uri_key (fst kv) then as_string (snd kv) else None.

Section Translate.
Variable f : DocumentURI -> DocumentURI.

(** The payload with every identifier rewritten: the string under each
    recognised key, at any depth, becomes the [lsp.DocumentURI] that [f]
    gives for it. *)
Fixpoint translate (o : value) : value :=
  match o with
  | VMap m =>
      VMap (List.map
              (fun kv => match identifier kv with
                         | Some s => (fst kv, VDocumentURI (f s))
                         | None => (fst kv, translate (snd kv))
                         end) m)
  | VSlice l => VSlice (List.map translate l)
  | _ => o
  end.

Definition translate_entry (kv : string * value) : string * value :=
  match identifier kv with
  | Some s => (fst kv, VDocumentURI (f s))
  | None => (fst kv, translate (snd kv))
  end.

End Translate.

(** Every identifier of the payload passes the test [P]. *)
Fixpoint identifiers (P : string -> bool) (o : value) : bool :=
  match o with
  | VMap m =>
      List.forallb
        (fun kv => match identifier kv with
                   | Some s => P s
                   | None => identifiers P (snd kv)
                   end) m
  | VSlice l => List.forallb (identifiers P) l
  | _ => true
  end.

(** The outcome of a walk that changed nothing: the payload as it was, or
    a panic. *)
Definition untouched {A : Type} (o : A) (r : outcome A) : Prop :=
  r = Done o \/ r = Panic.

Section Edits.
Variable f : DocumentURI -> DocumentURI.
Variable produced : string -> bool.

(** A decoded payload that may hold workspace edits, for a walk with [f]
    in the run [produced]: the keys of every mapping are distinct, and
    every mapping under a [changes] key maps identifiers to edit lists,
    [f] sends its keys to distinct identifiers none of which is another
    of its keys, and the run does not produce what its loop inserts. *)
Fixpoint workspace_edit (in_changes : bool) (o : value) : bool :=
  match o with
  | VMap m =>
      if in_changes then
        distinct (gomap.keys m)
        && collision_free f m
        && List.forallb (fun k => negb (produced (f k))) (gomap.keys m)
        && List.forallb (fun kv => edit_list (snd kv)) m
      else
        distinct (gomap.keys m)
        && List.forallb
             (fun kv => match identifier kv with
                        | Some _ => true
                        | None => workspace_edit (String.eqb (fst kv) "changes") (snd kv)
                        end) m
  | VSlice l => List.forallb (workspace_edit false) l
  | VNil | VBool _ | VNumber _ | VString _ | VDocumentURI _ => true
  | _ => false
  end.

(** Such a payload with every identifier rewritten: the strings under the
    recognised keys and the keys of the [changes] mappings. *)
Fixpoint rewritten (in_changes : bool) (o : value) : value :=
  match o with
  | VMap m =>
      if in_changes then VMap (rekey f m)
      else
        VMap (List.map
                (fun kv => match identifier kv with
                           | Some s => (fst kv, VDocumentURI (f s))
                           | None =>
                               (fst kv, rewritten (String.eqb (fst kv) "changes") (snd kv))
                           end) m)
  | VSlice l => VSlice (List.map (rewritten false) l)
  | _ => o
  end.

Definition rewritten_entry (kv : string * value) : string * value :=
  match identifier kv with
  | Some s => (fst kv, VDocumentURI (f s))
  | None => (fst kv, rewritten (String.eqb (fst kv) "changes") (snd kv))
  end.

End Edits.

(** A field at which the loop over the fields panics, in a walk with
    fuel [n]: a followed field that is not exported, or whose walk
    panics. *)
Definition stops (update : update_fn) (produced : string -> bool) (n : nat)
    (fld : field value) : Prop :=
  followed fld = true
  /\ (exported fld = false
      \/ walk produced n update (fvalue fld) "n/a" = Panic).
(** * Properties *)

(** ** Strings *)

Lemma eqb_false_neq (a b : string) : String.eqb a b = false <-> a <> b.
Proof. apply String.eqb_neq. Qed.

Lemma append_nil_r (s : string) : s ++ "" = s.
Proof. induction s as [|c s IH]; simpl; [reflexivity | now rewrite IH]. Qed.

Lemma append_assoc (a b c : string) : (a ++ b) ++ c = a ++ b ++ c.
Proof. induction a as [|x a IH]; simpl; [reflexivity | now rewrite IH]. Qed.

Lemma length_append (a b : string) :
  String.length (a ++ b) = String.length a + String.length b.
Proof. induction a as [|x a IH]; simpl; [reflexivity | now rewrite IH]. Qed.

Lemma HasPrefix_nil (s : string) : strings.HasPrefix s "" = true.
Proof. now destruct s. Qed.

Lemma HasPrefix_append (a b : string) : strings.HasPrefix (a ++ b) a = true.
Proof.
  induction a as [|x a IH]; simpl; [reflexivity|].
  now rewrite Ascii.eqb_refl, IH.
Qed.

Lemma HasPrefix_cancel (a s p : string) :
  strings.HasPrefix (a ++ s) (a ++ p) = strings.HasPrefix s p.
Proof.
  induction a as [|x a IH]; simpl; [reflexivity|].
  now rewrite Ascii.eqb_refl, IH.
Qed.

Lemma HasPrefix_split (s p : string) :
  strings.HasPrefix s p = true -> s = p ++ strings.drop (String.length p) s.
Proof.
  revert s; induction p as [|x p IH]; intros s H; simpl in *; [reflexivity|].
  destruct s as [|c s]; [discriminate|].
  apply andb_true_iff in H as [Hc Hp].
  apply Ascii.eqb_eq in Hc; subst c.
  now rewrite <- (IH s Hp).
Qed.

Lemma drop_append (a b : string) : strings.drop (String.length a) (a ++ b) = b.
Proof. induction a as [|x a IH]; simpl; [reflexivity | exact IH]. Qed.

Lemma TrimPrefix_append (a b : string) : strings.TrimPrefix (a ++ b) a = b.
Proof. unfold strings.TrimPrefix. now rewrite HasPrefix_append, drop_append. Qed.

(** ** The path-prefix helpers *)

Lemma rawHasPrefix_plain (s prefix sep : string) :
  String.eqb prefix "" = false ->
  strings.HasSuffix prefix sep = false ->
  rawHasPrefix s prefix sep = String.eqb s prefix || strings.HasPrefix s (prefix ++ sep).
Proof. intros Hne Hsuf. unfold rawHasPrefix. now rewrite Hne, Hsuf. Qed.

Lemma rawHasPrefix_empty (s sep : string) : rawHasPrefix s "" sep = true.
Proof. unfold rawHasPrefix. simpl. apply orb_true_r. Qed.

Lemma rawHasPrefix_suffixed (s prefix sep : string) :
  strings.HasSuffix prefix sep = true -> rawHasPrefix s prefix sep = true.
Proof.
  intros Hsuf. unfold rawHasPrefix. rewrite Hsuf, andb_false_r. simpl.
  apply orb_true_r.
Qed.

(** What [serverToClientURI] returns for a file-like identifier, by the
    outcome of the prefix test. *)
Lemma serverToClientURI_file (uri c : string) (u : url.URL) :
  url.Parse uri = Some u ->
  probablyFileURI u = true ->
  serverToClientURI uri c =
    ret (url.String_
           (if pathHasPrefix (url.Path u) c
            then url.set_Path u (path.Join "/" (pathTrimPrefix (url.Path u) c))
            else u)).
Proof.
  intros Hp Hf. unfold serverToClientURI, filepath.ToSlash. now rewrite Hp, Hf.
Qed.

Lemma clientToServerURI_file (uri c : string) (u : url.URL) :
  url.Parse uri = Some u ->
  probablyFileURI u = true ->
  clientToServerURI uri c =
    ret (url.String_ (url.set_Path u (path.Join c (url.Path u)))).
Proof.
  intros Hp Hf. unfold clientToServerURI, filepath.ToSlash. now rewrite Hp, Hf.
Qed.

(** C10.  A prefix that is not empty and ends with the separator makes
    [rawHasPrefix] answer yes for every string: the prefix-with-separator
    guard is skipped and [HasPrefix] is asked about the empty string.  So
    with a cache directory that ends with a slash, [serverToClientURI]
    takes every file-like identifier as lying in the cache and rewrites its
    path. *)
Theorem rawHasPrefix_separator_ended :
  forall (s p sep : string),
    String.eqb p "" = false ->
    strings.HasSuffix p sep = true ->
    rawHasPrefix s p sep = true
    /\ (let prefixSlash :=
          if negb (String.eqb p "") && negb (strings.HasSuffix p sep)
          then p ++ sep else "" in
        prefixSlash = "" /\ strings.HasPrefix s prefixSlash = true)
    /\ forall (uri : DocumentURI) (u : url.URL),
         sep = "/" ->
         url.Parse uri = Some u ->
         probablyFileURI u = true ->
         pathHasPrefix (url.Path u) p = true
         /\ serverToClientURI uri p =
              ret (url.String_
                     (url.set_Path u
                        (path.Join "/" (pathTrimPrefix (url.Path u) p)))).
Proof.
  intros s p sep Hne Hsuf. split; [now apply rawHasPrefix_suffixed|]. split.
  - cbv zeta. rewrite Hsuf, andb_false_r. split; reflexivity.
  - intros uri u -> Hp Hf.
    assert (Hpre : pathHasPrefix (url.Path u) p = true)
      by now apply rawHasPrefix_suffixed.
    split; [exact Hpre|].
    rewrite (serverToClientURI_file uri p u Hp Hf). now rewrite Hpre.
Qed.

Lemma rawHasPrefix_separator_ended_witness :
  rawHasPrefix "/cache12/x" "/cache1/" "/" = true
  /\ serverToClientURI "/cache12/./x" "/cache1/" = ret "/cache12/x".
Proof.
  destruct (rawHasPrefix_separator_ended "/cache12/x" "/cache1/" "/"
              eq_refl eq_refl) as [H1 [_ H3]].
  split; [exact H1|].
  destruct (H3 "/cache12/./x"
              (url.mkURL "" "" None "" "/cache12/./x" "" false "" "")
              eq_refl eq_refl eq_refl) as [_ H4].
  exact H4.
Defined.

(** C8.  When [url.Parse] rejects the identifier, both translators write
    one line to the log and return the identifier they were given; their
    result is a plain identifier, there is no error to return. *)
Theorem parse_failure_fails_soft :
  forall (uri : DocumentURI) (c : string),
    url.Parse uri = None ->
    returned (clientToServerURI uri c) = uri
    /\ logged (clientToServerURI uri c)
       = ["clientToServerURI: err when trying to parse uri " ++ uri]
    /\ returned (serverToClientURI uri c) = uri
    /\ logged (serverToClientURI uri c)
       = ["serverToClientURI: err when trying to parse uri " ++ uri].
Proof.
  intros uri c Hp. unfold clientToServerURI, serverToClientURI.
  rewrite Hp. repeat split.
Qed.

Lemma parse_failure_fails_soft_witness :
  returned (clientToServerURI "file:///a%zz" "/cache/S1") = "file:///a%zz"
  /\ logged (clientToServerURI "file:///a%zz" "/cache/S1")
     = ["clientToServerURI: err when trying to parse uri file:///a%zz"]
  /\ returned (serverToClientURI "file:///a%zz" "/cache/S1") = "file:///a%zz"
  /\ logged (serverToClientURI "file:///a%zz" "/cache/S1")
     = ["serverToClientURI: err when trying to parse uri file:///a%zz"].
Proof.
  exact (parse_failure_fails_soft "file:///a%zz" "/cache/S1" eq_refl).
Defined.

(** C4.  An identifier that is not file-like (its scheme is neither empty
    nor [file], or its path is empty) comes back unchanged from both
    translators, whatever the cache directory, and nothing is logged. *)
Theorem non_file_identifier_unchanged :
  forall (uri : DocumentURI) (u : url.URL) (c : string),
    url.Parse uri = Some u ->
    (String.eqb (url.Scheme u) "" = false /\ String.eqb (url.Scheme u) "file" = false)
    \/ String.eqb (url.Path u) "" = true ->
    clientToServerURI uri c = ret uri /\ serverToClientURI uri c = ret uri.
Proof.
  intros uri u c Hp Hnf.
  assert (Hf : probablyFileURI u = false).
  { unfold probablyFileURI. destruct Hnf as [[H1 H2] | H].
    - now rewrite H1, H2.
    - rewrite H. now destruct (negb _). }
  unfold clientToServerURI, serverToClientURI. now rewrite Hp, Hf.
Qed.

Lemma non_file_identifier_unchanged_witness :
  (clientToServerURI "inmemory://model/1" "/cache/S1" = ret "inmemory://model/1"
   /\ serverToClientURI "inmemory://model/1" "/cache/S1" = ret "inmemory://model/1")
  /\ (clientToServerURI "file://host" "/cache/S1" = ret "file://host"
      /\ serverToClientURI "file://host" "/cache/S1" = ret "file://host").
Proof.
  split.
  - exact (non_file_identifier_unchanged "inmemory://model/1"
             (url.mkURL "inmemory" "" None "model" "/1" "" false "" "")
             "/cache/S1" eq_refl (or_introl (conj eq_refl eq_refl))).
  - exact (non_file_identifier_unchanged "file://host"
             (url.mkURL "file" "" None "host" "" "" false "" "")
             "/cache/S1" eq_refl (or_intror eq_refl)).
Defined.

(** C3, as stated, fails: the path is rewritten although the cache
    directory is not a prefix of it that ends at a directory boundary.
    With the empty cache directory the relative path [a/b] is re-rooted;
    with [/cache1/] the path [/cache12/./x] is rewritten too. *)
Lemma boundary_prefix_claim_fails :
  ~ (forall (uri : DocumentURI) (c : string) (u : url.URL),
       url.Parse uri = Some u ->
       probablyFileURI u = true ->
       returned (serverToClientURI uri c) <> url.String_ u ->
       boundary_prefix c (url.Path u) = true)
  /\ (boundary_prefix "" "a/b" = false
      /\ returned (serverToClientURI "a/b" "") = "/a/b")
  /\ (boundary_prefix "/cache1/" "/cache12/./x" = false
      /\ returned (serverToClientURI "/cache12/./x" "/cache1/") = "/cache12/x").
Proof.
  split; [|split; split; reflexivity].
  intros H.
  specialize (H "a/b" "" (url.mkURL "" "" None "" "a/b" "" false "" "")
                eq_refl eq_refl).
  assert (Hne : returned (serverToClientURI "a/b" "")
                <> url.String_ (url.mkURL "" "" None "" "a/b" "" false "" ""))
    by (vm_compute; discriminate).
  specialize (H Hne). vm_compute in H. discriminate.
Qed.

(** C3, amended.  For a cache directory that is not empty and does not end
    with a slash, [serverToClientURI] rewrites the path of a file-like
    identifier exactly when the path is the cache directory or continues it
    after a slash; otherwise the identifier is serialised as parsed.  So
    [/cache12/x] comes back unchanged for the cache directory [/cache1],
    and [/cache1/x] becomes [/x].  With the empty cache directory every
    file-like identifier is rewritten. *)
Theorem serverToClientURI_boundary_prefix :
  forall (c : string),
    String.eqb c "" = false ->
    strings.HasSuffix c "/" = false ->
    (forall s, pathHasPrefix s c = boundary_prefix c s)
    /\ (forall (uri : DocumentURI) (u : url.URL),
          url.Parse uri = Some u ->
          probablyFileURI u = true ->
          (boundary_prefix c (url.Path u) = false ->
           serverToClientURI uri c = ret (url.String_ u))
          /\ (boundary_prefix c (url.Path u) = true ->
              serverToClientURI uri c =
                ret (url.String_
                       (url.set_Path u
                          (path.Join "/" (pathTrimPrefix (url.Path u) c))))))
    /\ returned (serverToClientURI "/cache12/x" "/cache1") = "/cache12/x"
    /\ returned (serverToClientURI "/cache1/x" "/cache1") = "/x"
    /\ (forall (uri : DocumentURI) (u : url.URL),
          url.Parse uri = Some u ->
          probablyFileURI u = true ->
          serverToClientURI uri "" =
            ret (url.String_
                   (url.set_Path u
                      (path.Join "/" (pathTrimPrefix (url.Path u) ""))))).
Proof.
  intros c Hne Hsuf.
  assert (Heq : forall s, pathHasPrefix s c = boundary_prefix c s).
  { intros s. unfold pathHasPrefix, boundary_prefix.
    now apply rawHasPrefix_plain. }
  split; [exact Heq|]. split; [|split; [reflexivity|split; [reflexivity|]]].
  - intros uri u Hp Hf.
    rewrite (serverToClientURI_file uri c u Hp Hf), Heq.
    split; intros ->; reflexivity.
  - intros uri u Hp Hf.
    rewrite (serverToClientURI_file uri "" u Hp Hf).
    unfold pathHasPrefix. now rewrite rawHasPrefix_empty.
Qed.

Lemma serverToClientURI_boundary_prefix_witness :
  pathHasPrefix "/cache12/x" "/cache1" = boundary_prefix "/cache1" "/cache12/x"
  /\ serverToClientURI "file:///cache12/x" "/cache1" = ret "file:///cache12/x"
  /\ serverToClientURI "file:///cache1/x" "/cache1" = ret "file:///x".
Proof.
  destruct (serverToClientURI_boundary_prefix "/cache1" eq_refl eq_refl)
    as [H1 [H2 _]].
  split; [exact (H1 "/cache12/x")|]. split.
  - exact (proj1 (H2 "file:///cache12/x"
                    (url.mkURL "file" "" None "" "/cache12/x" "" false "" "")
                    eq_refl eq_refl) eq_refl).
  - exact (proj2 (H2 "file:///cache1/x"
                    (url.mkURL "file" "" None "" "/cache1/x" "" false "" "")
                    eq_refl eq_refl) eq_refl).
Defined.

(** ** Cache teardown *)

(** C9, as stated, fails: a removal that fails is handed to the caller as
    the method's error, and the only line logged is the announcement made
    before the removal. *)
Lemma cleanWorkspaceCache_escalates :
  let fs := [os.mkEntry "/tmp/proxy-cache/S1" true;
             os.mkEntry "/tmp/proxy-cache/S1/a.json" false] in
  let r := cleanWorkspaceCache "/tmp/proxy-cache" (mkCloneProxy "S1") fs in
  snd (returned r) = Some "unlinkat /tmp/proxy-cache/S1/a.json: permission denied"
  /\ logged r = ["Removing workspace cache from /tmp/proxy-cache/S1"]
  /\ ~ (forall cacheDir p fs,
          snd (returned (cleanWorkspaceCache cacheDir p fs)) = None).
Proof.
  cbv zeta. split; [reflexivity|]. split; [reflexivity|].
  intros H.
  specialize (H "/tmp/proxy-cache" (mkCloneProxy "S1")
                [os.mkEntry "/tmp/proxy-cache/S1" true;
                 os.mkEntry "/tmp/proxy-cache/S1/a.json" false]).
  vm_compute in H. discriminate.
Qed.

Lemma RemoveAll_clean (path : string) (fs : os.FS) :
  snd (os.RemoveAll path fs) = None ->
  forall e, In e (fst (os.RemoveAll path fs)) <-> In e fs /\ os.within path e = false.
Proof.
  unfold os.RemoveAll; simpl. intros Herr e.
  destruct (os.stuck path fs) as [|x l] eqn:Hstuck; [|discriminate].
  rewrite filter_In. unfold os.survives. rewrite Hstuck. simpl.
  rewrite orb_false_r.
  split; intros [Hin H]; (split; [exact Hin|]).
  - destruct (os.within path e) eqn:Hw; [|reflexivity].
    simpl in H. apply negb_true_iff in H.
    assert (Hs : In e (os.stuck path fs)).
    { unfold os.stuck. apply filter_In. split; [exact Hin|]. now rewrite Hw, H. }
    rewrite Hstuck in Hs. destruct Hs.
  - now rewrite H.
Qed.

(** C9, amended.  [cleanWorkspaceCache] announces the removal in the log,
    removes the session's cache directory (the cache root joined with the
    session key) recursively, and returns what [os.RemoveAll] returned: no
    error when everything below the directory could be removed, in which
    case nothing of the directory is left and nothing else is touched, and
    the removal error otherwise.  The failure itself is not logged here. *)
Theorem cleanWorkspaceCache_returns_removal_result :
  forall (cacheDir : string) (p : cloneProxy) (fs : os.FS),
    let dir := filepath.Join cacheDir (sessionID p) in
    let r := cleanWorkspaceCache cacheDir p fs in
    logged r = ["Removing workspace cache from " ++ dir]
    /\ returned r = os.RemoveAll dir fs
    /\ (snd (returned r) = None <-> os.stuck dir fs = [])
    /\ (snd (returned r) = None ->
        forall e, In e (fst (returned r)) <-> In e fs /\ os.within dir e = false).
Proof.
  intros cacheDir p fs dir r. subst r dir.
  unfold cleanWorkspaceCache, workspaceCacheDir, log_Println, logged, returned.
  simpl fst; simpl snd.
  split; [reflexivity|]. split; [reflexivity|]. split.
  - unfold os.RemoveAll; simpl.
    destruct (os.stuck _ fs); split; intros H; try reflexivity; discriminate.
  - apply RemoveAll_clean.
Qed.

(** ** The walker *)

(** C5 fails on the code: with a nil rewrite function, a payload with a
    non-empty [changes] mapping makes the walk call the nil function,
    which panics, in every run; the same payload is walked without a panic
    when a rewrite function is given. *)
Theorem WalkURIFields_nil_update_panics :
  (forall produced,
     WalkURIFields produced
       (VMap [("changes", VMap [("file:///a.json", VSlice [])])]) None = Panic)
  /\ WalkURIFields skip_inserted
       (VMap [("changes", VMap [("file:///a.json", VSlice [])])])
       (Some (toServer "/cache/S1"))
     = Done (VMap [("changes", VMap [("file:///cache/S1/a.json", VSlice [])])]).
Proof. split; [intros produced|]; reflexivity. Qed.

(** *** Go maps *)

Lemma lookup_In (k : string) (v : value) (m : list (string * value)) :
  gomap.lookup k m = Some v -> In (k, v) m.
Proof.
  induction m as [|[k' v'] m IH]; simpl; [discriminate|].
  destruct (String.eqb k k') eqn:E.
  - apply String.eqb_eq in E; subst k'. intros [= ->]. now left.
  - intros H. right. now apply IH.
Qed.

Lemma insert_lookup_same (k : string) (v : value) (m : list (string * value)) :
  gomap.lookup k m = Some v -> gomap.insert k v m = m.
Proof.
  induction m as [|[k' v'] m IH]; simpl; [discriminate|].
  destruct (String.eqb k k') eqn:E.
  - apply String.eqb_eq in E; subst k'. now intros [= ->].
  - intros H. now rewrite IH.
Qed.

Lemma delete_absent (k : string) (m : list (string * value)) :
  ~ In k (gomap.keys m) -> gomap.delete k m = m.
Proof.
  induction m as [|[k' v'] m IH]; simpl; [reflexivity|]. intros H.
  destruct (String.eqb k k') eqn:E.
  - apply String.eqb_eq in E. subst k'. exfalso. apply H. now left.
  - rewrite IH; [reflexivity|]. intros Hin. apply H. now right.
Qed.

Lemma insert_absent (k : string) (v : value) (m : list (string * value)) :
  ~ In k (gomap.keys m) -> gomap.insert k v m = (m ++ [(k, v)])%list.
Proof.
  induction m as [|[k' v'] m IH]; simpl; [reflexivity|]. intros H.
  destruct (String.eqb k k') eqn:E.
  - apply String.eqb_eq in E. subst k'. exfalso. apply H. now left.
  - rewrite IH; [reflexivity|]. intros Hin. apply H. now right.
Qed.

Lemma insert_last (k : string) (v v' : value) (m : list (string * value)) :
  ~ In k (gomap.keys m) ->
  gomap.insert k v' (m ++ [(k, v)])%list = (m ++ [(k, v')])%list.
Proof.
  induction m as [|[k0 v0] m IH]; simpl.
  - now rewrite String.eqb_refl.
  - intros H. destruct (String.eqb k k0) eqn:E.
    + apply String.eqb_eq in E. subst k0. exfalso. apply H. now left.
    + rewrite IH; [reflexivity|]. intros Hin. apply H. now right.
Qed.

Lemma keys_app (a b : list (string * value)) :
  gomap.keys (a ++ b)%list = (gomap.keys a ++ gomap.keys b)%list.
Proof. unfold gomap.keys. apply List.map_app. Qed.

(** *** Payloads without identifiers are left as they are *)

Lemma depth_map_In (k : string) (v : value) (m : list (string * value)) :
  In (k, v) m -> depth v <= depth_map depth m.
Proof.
  induction m as [|kv m IH]; simpl; [intros []|].
  intros [-> | H]; simpl; [lia|]. specialize (IH H). lia.
Qed.

Lemma depth_list_In (v : value) (l : list value) :
  In v l -> depth v <= depth_list depth l.
Proof.
  induction l as [|x l IH]; simpl; [intros []|].
  intros [-> | H]; [lia|]. specialize (IH H). lia.
Qed.

Section PlainWalk.
Variable update : update_fn.
Variable produced : string -> bool.
Variable n : nat.
(** The walk with fuel [n] leaves the plain payloads of depth below [n]
    alone, unless it takes a map for a [changes] map. *)
Hypothesis IHwalk :
  forall v parent,
    plain v = true -> depth v < n ->
    (forall m, v = VMap m -> String.eqb parent "changes" = false) ->
    walk produced n update v parent = Done v.

Lemma map_pass_plain (parent k : string) (o : list (string * value)) :
  String.eqb parent "changes" = false ->
  List.forallb (plain_entry plain) o = true ->
  depth_map depth o < n ->
  map_pass update (walk produced n update) parent k o = Done (o, None).
Proof.
  intros Hpar Hpl Hd. unfold map_pass.
  destruct (gomap.lookup k o) as [v|] eqn:Hl; [|reflexivity].
  pose proof (lookup_In _ _ _ Hl) as Hin.
  rewrite forallb_forall in Hpl. pose proof (Hpl _ Hin) as He.
  unfold plain_entry in He. simpl in He.
  apply andb_true_iff in He as [He Hv]. apply andb_true_iff in He as [Hk Hc].
  apply negb_true_iff in Hc.
  assert (Hsel : (if uri_key k then as_string v else None) = None).
  { destruct (uri_key k); [|reflexivity].
    destruct (as_string v); [discriminate | reflexivity]. }
  rewrite Hsel, Hpar.
  rewrite IHwalk; [simpl | exact Hv | | intros m' _; exact Hc].
  - now rewrite (insert_lookup_same _ _ _ Hl).
  - pose proof (depth_map_In _ _ _ Hin). lia.
Qed.

Lemma range_map_plain (parent : string) (o : list (string * value)) :
  String.eqb parent "changes" = false ->
  List.forallb (plain_entry plain) o = true ->
  depth_map depth o < n ->
  forall todo,
    range_map update produced (walk produced n update) parent todo o = Done o.
Proof.
  intros Hpar Hpl Hd todo. induction todo as [|k todo IH]; simpl; [reflexivity|].
  rewrite (map_pass_plain parent k o Hpar Hpl Hd). simpl. exact IH.
Qed.

Lemma range_slice_plain (l : list value) :
  List.forallb plain l = true ->
  depth_list depth l < n ->
  forall k, range_slice (walk produced n update) k l = Done l.
Proof.
  induction l as [|v l IH]; simpl; intros Hpl Hd k; [reflexivity|].
  apply andb_true_iff in Hpl as [Hv Hl].
  rewrite IHwalk; [simpl | exact Hv | lia | ].
  - rewrite IH; [reflexivity | exact Hl | lia].
  - intros m ->. destruct (String.eqb (rune_string k) "changes") eqn:E; [|reflexivity].
    apply String.eqb_eq in E. exfalso.
    assert (Hlen : String.length (rune_string k) <= 4).
    { unfold rune_string.
      repeat match goal with |- context [if ?b then _ else _] => destruct b end;
        simpl; lia. }
    rewrite E in Hlen. simpl in Hlen. lia.
Qed.

End PlainWalk.

Lemma walk_plain (update : update_fn) (produced : string -> bool) :
  forall (fuel : nat) (v : value) (parent : string),
    plain v = true -> depth v < fuel ->
    (forall m, v = VMap m -> String.eqb parent "changes" = false) ->
    walk produced fuel update v parent = Done v.
Proof.
  induction fuel as [|n IH]; intros v parent Hpl Hd Hpar; [lia|].
  destruct v as [| | | | |m|l|[t|]|fs|l|l|m]; simpl in *; try reflexivity.
  - rewrite (range_map_plain update produced n IH parent m);
      [reflexivity| |exact Hpl|lia].
    now apply (Hpar m).
  - rewrite (range_slice_plain update produced n IH l); [reflexivity|exact Hpl|lia].
  - destruct t; try reflexivity. discriminate.
  - discriminate.
Qed.

(** The walk of a map with one entry that is neither an identifier field
    nor the content of a [changes] map. *)
Lemma walk_singleton (produced : string -> bool) (n : nat) (update : update_fn)
    (k parent : string) (v : value) :
  (uri_key k || String.eqb parent "changes") = false ->
  walk produced (S n) update (VMap [(k, v)]) parent
  = v' <- walk produced n update v k ;; Done (VMap [(k, v')]).
Proof.
  intros H. apply orb_false_iff in H as [Hk Hp].
  simpl walk. unfold map_pass. simpl gomap.lookup.
  rewrite String.eqb_refl, Hk, Hp.
  destruct (walk produced n update v k) as [v'| |]; simpl; [|reflexivity|reflexivity].
  now rewrite String.eqb_refl.
Qed.

Lemma walk_slice_singleton (produced : string -> bool) (n : nat) (update : update_fn)
    (parent : string) (v : value) :
  walk produced (S n) update (VSlice [v]) parent
  = v' <- walk produced n update v (rune_string 0) ;; Done (VSlice [v']).
Proof.
  simpl walk. now destruct (walk produced n update v (rune_string 0)).
Qed.

(** *** The [changes] mapping *)

Lemma mem_In (k : string) (l : list string) : mem k l = true <-> In k l.
Proof.
  unfold mem. rewrite existsb_exists. split.
  - intros [x [Hin E]]. apply String.eqb_eq in E. now subst x.
  - intros Hin. exists k. split; [exact Hin | apply String.eqb_refl].
Qed.

Lemma mem_false (k : string) (l : list string) : mem k l = false <-> ~ In k l.
Proof.
  rewrite <- mem_In. destruct (mem k l); split; intros H; try discriminate;
    try reflexivity; try (intros H'; discriminate). exfalso. now apply H.
Qed.

Lemma distinct_NoDup (l : list string) : distinct l = true -> NoDup l.
Proof.
  induction l as [|k l IH]; simpl; intros H; constructor.
  - apply andb_true_iff in H as [H _]. apply negb_true_iff in H.
    now apply mem_false.
  - apply IH. now apply andb_true_iff in H as [_ H].
Qed.

Lemma lookup_absent (k : string) (m : list (string * value)) :
  ~ In k (gomap.keys m) -> gomap.lookup k m = None.
Proof.
  induction m as [|[k' v'] m IH]; simpl; [reflexivity|]. intros H.
  destruct (String.eqb k k') eqn:E.
  - apply String.eqb_eq in E. subst k'. exfalso. apply H. now left.
  - apply IH. intros Hin. apply H. now right.
Qed.

Section Changes.
Variable f : DocumentURI -> DocumentURI.
Variable produced : string -> bool.
Variable n : nat.

(** The pass for the first entry of a [changes] map whose new key is not
    in the map: the entry moves to the end under the new key. *)
Lemma map_pass_changes (k : string) (v : value) (m : list (string * value)) :
  ~ In k (gomap.keys m) ->
  ~ In (f k) (gomap.keys m) ->
  edit_list v = true -> depth v < n ->
  map_pass (Some f) (walk produced n (Some f)) "changes" k ((k, v) :: m)
  = Done ((m ++ [(f k, v)])%list, Some (f k)).
Proof.
  intros Hk Hfk Hedit Hdepth. unfold map_pass. simpl gomap.lookup.
  rewrite String.eqb_refl.
  destruct v as [| | | | |m0|l|t|fs|l|l|m0]; try discriminate Hedit.
  assert (Hsel : (if uri_key k then as_string (VSlice l) else None) = None)
    by now destruct (uri_key k).
  rewrite Hsel. simpl String.eqb. cbv iota. simpl gomap.delete.
  rewrite String.eqb_refl, (delete_absent _ _ Hk), (lookup_absent _ _ Hfk).
  rewrite (insert_absent _ _ _ Hfk).
  rewrite (walk_plain (Some f) produced n (VSlice l) k Hedit Hdepth)
    by (intros m1 Hm1; discriminate Hm1).
  simpl bind. now rewrite (insert_last _ _ _ _ Hfk).
Qed.

Lemma range_map_changes (rest : list (string * value)) :
  forall done : list (string * value),
    NoDup (gomap.keys rest) ->
    NoDup (List.map f (gomap.keys rest)) ->
    (forall k, In k (gomap.keys rest) -> In (f k) (gomap.keys rest) -> f k = k) ->
    (forall k, In k (gomap.keys rest) -> ~ In k (gomap.keys done)) ->
    (forall k, In k (gomap.keys rest) -> ~ In (f k) (gomap.keys done)) ->
    (forall k, In k (gomap.keys rest) -> produced (f k) = false) ->
    (forall k v, In (k, v) rest -> edit_list v = true /\ depth v < n) ->
    range_map (Some f) produced (walk produced n (Some f)) "changes"
      (gomap.keys rest) (rest ++ done)%list
    = Done (done ++ rekey f rest)%list.
Proof.
  induction rest as [|[k v] rest IH]; intros done Hnd Hinj Hfix Hk Hfk Hrun Hv.
  - simpl. now rewrite List.app_nil_r.
  - destruct (Hv k v (or_introl eq_refl)) as [Hedit Hdepth].
    simpl gomap.keys in *.
    inversion Hnd as [|? ? Hk_rest Hnd']; subst.
    inversion Hinj as [|? ? Hfk_rest Hinj']; subst.
    assert (Hk_done : ~ In k (gomap.keys done)) by (apply Hk; now left).
    assert (Habsent : ~ In k (gomap.keys (rest ++ done)%list)).
    { rewrite keys_app, List.in_app_iff. tauto. }
    assert (Hfresh : ~ In (f k) (gomap.keys (rest ++ done)%list)).
    { rewrite keys_app, List.in_app_iff. intros [Hin | Hin].
      - assert (E : f k = k) by (apply Hfix; [now left | now right]).
        rewrite E in Hin. contradiction.
      - apply (Hfk k); [now left | exact Hin]. }
    change (((k, v) :: rest) ++ done)%list with ((k, v) :: (rest ++ done))%list.
    cbn [range_map].
    rewrite (map_pass_changes k v _ Habsent Hfresh Hedit Hdepth).
    cbn [bind snd fst]. rewrite (Hrun k (or_introl eq_refl)). cbn [bind].
    rewrite <- (List.app_assoc rest done [(f k, v)]).
    rewrite (IH (done ++ [(f k, v)])%list); clear IH.
    + now rewrite <- (List.app_assoc done [(f k, v)] (rekey f rest)).
    + exact Hnd'.
    + exact Hinj'.
    + intros k' Hin Hin'. apply Hfix; now right.
    + intros k' Hin. rewrite keys_app, List.in_app_iff. simpl.
      intros [H | [H | []]].
      * apply (Hk k'); [now right | exact H].
      * assert (E : f k = k) by (apply Hfix; [now left | right; now rewrite H]).
        rewrite E in H. subst k'. contradiction.
    + intros k' Hin. rewrite keys_app, List.in_app_iff. simpl.
      intros [H | [H | []]].
      * apply (Hfk k'); [now right | exact H].
      * apply Hfk_rest. rewrite H. apply (List.in_map f). exact Hin.
    + intros k' Hin. apply Hrun. now right.
    + intros k' v' Hin. apply (Hv k'). now right.
Qed.

End Changes.

Lemma collision_free_spec (f : DocumentURI -> DocumentURI) (m : list (string * value)) :
  collision_free f m = true ->
  NoDup (List.map f (gomap.keys m))
  /\ forall k, In k (gomap.keys m) -> In (f k) (gomap.keys m) -> f k = k.
Proof.
  unfold collision_free. intros H. apply andb_true_iff in H as [H1 H2].
  split; [now apply distinct_NoDup|].
  intros k Hin Hfin. rewrite forallb_forall in H2. specialize (H2 k Hin).
  apply (proj2 (mem_In _ _)) in Hfin. rewrite Hfin in H2. simpl in H2.
  now apply String.eqb_eq.
Qed.




(** *** Records *)

Lemma depth_fields_In (fld : field value) (fs : list (field value)) :
  In fld fs -> depth (fvalue fld) <= depth_fields depth fs.
Proof.
  induction fs as [|x fs IH]; simpl; [intros []|].
  intros [-> | H]; [lia|]. specialize (IH H). lia.
Qed.

Lemma followed_not_string (fld : field value) :
  followed fld = true -> string_field fld = None.
Proof.
  unfold followed, string_field, field_kind.
  destruct (fiface fld); [discriminate|].
  now destruct (fvalue fld).
Qed.

Lemma string_field_not_followed (fld : field value) (s : string) :
  string_field fld = Some s -> followed fld = false.
Proof.
  intros H. destruct (followed fld) eqn:E; [|reflexivity].
  rewrite (followed_not_string _ E) in H. discriminate.
Qed.

Section RecordWalk.
Variable f : DocumentURI -> DocumentURI.
Variable produced : string -> bool.

Lemma set_URI_addressable (walk0 : value -> string -> outcome value)
    (fs : list (field value)) :
  set_URI (Some f) true fs = Done (rewrite_URI f fs).
Proof.
  induction fs as [|fld fs IH]; simpl; [reflexivity|].
  destruct (String.eqb (fname fld) "URI"); [|now rewrite IH].
  unfold string_field, field_kind.
  destruct (fiface fld); [reflexivity|].
  now destruct (fvalue fld).
Qed.

Lemma set_URI_by_value (fs : list (field value)) :
  has_string_URI fs = false -> set_URI (Some f) false fs = Done fs.
Proof.
  induction fs as [|fld fs IH]; simpl; [reflexivity|].
  destruct (String.eqb (fname fld) "URI").
  - unfold string_field, field_kind.
    destruct (fiface fld); [reflexivity|].
    now destruct (fvalue fld).
  - intros H. now rewrite (IH H).
Qed.

Lemma expected_field_name (fld : field value) :
  fname (expected_field f fld) = fname fld.
Proof. unfold expected_field. now destruct (followed fld). Qed.

Lemma expected_field_string (fld : field value) :
  string_field (expected_field f fld) = string_field fld.
Proof.
  unfold expected_field. destruct (followed fld) eqn:E; [|reflexivity].
  rewrite (followed_not_string _ E).
  unfold followed, field_kind in E. unfold string_field. simpl.
  destruct (fiface fld); [reflexivity|].
  destruct (fvalue fld) as [| | | | |m|l|[[| | | | | | | |fs| | |]|]|fs|l|l|m];
    try discriminate; reflexivity.
Qed.

Lemma expected_field_fixed (fld : field value) :
  followed fld = false -> expected_field f fld = fld.
Proof. unfold expected_field. now intros ->. Qed.

Lemma rewrite_URI_expected (fs : list (field value)) :
  List.map (expected_field f) (rewrite_URI f fs)
  = rewrite_URI f (List.map (expected_field f) fs).
Proof.
  induction fs as [|fld fs IH]; simpl; [reflexivity|].
  rewrite expected_field_name, expected_field_string.
  destruct (String.eqb (fname fld) "URI"); [|simpl; now rewrite IH].
  destruct (string_field fld) as [s|] eqn:Hs; [|reflexivity].
  pose proof (string_field_not_followed _ _ Hs) as Hnf.
  rewrite (expected_field_fixed _ Hnf).
  unfold string_field in Hs. destruct (fiface fld) eqn:Hi; [discriminate|].
  destruct (fvalue fld); try discriminate; simpl;
    (rewrite expected_field_fixed;
     [reflexivity | unfold followed, field_kind; simpl; try rewrite Hi; reflexivity]).
Qed.

Lemma rewrite_URI_ok (fs : list (field value)) :
  List.forallb field_ok fs = true ->
  List.forallb field_ok (rewrite_URI f fs) = true.
Proof.
  induction fs as [|fld fs IH]; simpl; [reflexivity|]. intros H.
  apply andb_true_iff in H as [H1 H2].
  destruct (String.eqb (fname fld) "URI").
  - destruct (string_field fld) as [s|] eqn:Hs; [|simpl; now rewrite H1, H2].
    unfold string_field in Hs. destruct (fiface fld) eqn:Hi; [discriminate|].
    destruct (fvalue fld); try discriminate; simpl; rewrite H2;
      unfold field_ok, followed, field_kind; simpl; try rewrite Hi; reflexivity.
  - simpl. now rewrite H1, IH.
Qed.

Lemma rewrite_URI_depth (fs : list (field value)) :
  depth_fields depth (rewrite_URI f fs) <= depth_fields depth fs.
Proof.
  induction fs as [|fld fs IH]; simpl; [lia|].
  destruct (String.eqb (fname fld) "URI").
  - destruct (string_field fld) as [s|] eqn:Hs; [|simpl; lia].
    unfold string_field in Hs. destruct (fiface fld); [discriminate|].
    destruct (fvalue fld); try discriminate; simpl; lia.
  - simpl. lia.
Qed.

Variable n : nat.
Hypothesis IHwalk :
  forall v parent,
    walkable v = true -> is_container v = false -> depth v < n ->
    walk produced n (Some f) v parent = Done (expected f v).

Lemma walk_fields_expected (fs : list (field value)) :
  List.forallb field_ok fs = true ->
  depth_fields depth fs < n ->
  walk_fields (walk produced n (Some f)) fs = Done (List.map (expected_field f) fs).
Proof.
  induction fs as [|fld fs IH]; simpl; [reflexivity|]. intros Hok Hd.
  apply andb_true_iff in Hok as [H1 H2].
  rewrite IH by (try exact H2; lia).
  unfold expected_field, field_ok in *. unfold followed in *.
  destruct (field_kind fld) eqn:Hk; try reflexivity;
    apply andb_true_iff in H1 as [Hex Hw]; rewrite Hex;
    (rewrite IHwalk; [reflexivity | exact Hw | | lia]);
    unfold field_kind in Hk; destruct (fiface fld); try discriminate;
    now destruct (fvalue fld).
Qed.

End RecordWalk.

Lemma walk_record (f : DocumentURI -> DocumentURI) (produced : string -> bool) :
  forall (fuel : nat) (o : value) (parent : string),
    walkable o = true -> is_container o = false -> depth o < fuel ->
    walk produced fuel (Some f) o parent = Done (expected f o).
Proof.
  induction fuel as [|n IH]; intros o parent Hw Hc Hd; [lia|].
  destruct o as [| | | | |m|l|[t|]|fs|l|l|m]; try discriminate Hc;
    try reflexivity.
  - destruct t as [| | | | | | | |fs| | |]; try reflexivity.
    simpl in Hw, Hd. simpl walk. unfold walk_struct.
    rewrite (set_URI_addressable f (walk produced n (Some f))). simpl bind.
    rewrite (walk_fields_expected f produced n IH).
    + simpl. now rewrite rewrite_URI_expected.
    + apply rewrite_URI_ok. exact Hw.
    + pose proof (rewrite_URI_depth f fs). lia.
  - simpl in Hw, Hd. apply andb_true_iff in Hw as [Hu Hw].
    apply negb_true_iff in Hu.
    simpl walk. unfold walk_struct.
    rewrite (set_URI_by_value f fs Hu). simpl bind.
    rewrite (walk_fields_expected f produced n IH); [reflexivity | exact Hw | lia].
Qed.




(** ** Paths *)

Lemma of_list_app (a b : list ascii) :
  strings.of_list (a ++ b)%list = strings.of_list a ++ strings.of_list b.
Proof. induction a as [|x a IH]; simpl; [reflexivity | now rewrite IH]. Qed.

Lemma of_list_rev_bytes (s : string) (acc : list ascii) :
  strings.of_list (List.rev (rev_bytes s acc)) = strings.of_list (List.rev acc) ++ s.
Proof.
  revert acc. induction s as [|c s IH]; intros acc; simpl.
  - now rewrite append_nil_r.
  - rewrite IH. simpl. rewrite of_list_app. simpl. now rewrite append_assoc.
Qed.

Lemma rev_bytes_length (s : string) (acc : list ascii) :
  List.length (rev_bytes s acc) = String.length s + List.length acc.
Proof.
  revert acc. induction s as [|c s IH]; intros acc; simpl; [reflexivity|].
  rewrite IH. simpl. lia.
Qed.

Lemma at_boundary_app (s t : string) :
  path.at_boundary t = true ->
  path.at_boundary (s ++ t) = path.at_boundary s.
Proof. intros Ht. destruct s; [exact Ht | reflexivity]. Qed.

Lemma clean_loop_boundary (rooted : bool) (t : string) (out : list ascii) (dd : nat) :
  path.at_boundary t = true ->
  path.clean_loop rooted t out dd true = path.clean_loop rooted t out dd false.
Proof.
  destruct t as [|c t]; [reflexivity|]. simpl. intros H. now rewrite H.
Qed.

Lemma scan_Dot1_boundary (s t : string) :
  scan Dot1 s = true -> path.at_boundary t = true ->
  path.at_boundary (s ++ t) = false
  /\ forall c2 r2, s ++ t = String c2 r2 ->
       Ascii.eqb c2 "." && path.at_boundary r2 = false.
Proof.
  intros Hs Ht. destruct s as [|c s]; [discriminate|]. simpl in *.
  destruct (Ascii.eqb c "/") eqn:E1; [discriminate|]. split; [reflexivity|].
  intros c2 r2 [= <- <-].
  destruct (Ascii.eqb c ".") eqn:E2; [|reflexivity]. simpl.
  destruct s as [|d s]; [discriminate|]. simpl in *.
  destruct (Ascii.eqb d "/"); [discriminate | reflexivity].
Qed.

Lemma clean_loop_element (c : ascii) (r1 : string) (out : list ascii) :
  1 <= List.length out ->
  Ascii.eqb c "/" = false ->
  (Ascii.eqb c "." = true ->
     path.at_boundary r1 = false
     /\ forall c2 r2, r1 = String c2 r2 ->
          Ascii.eqb c2 "." && path.at_boundary r2 = false) ->
  path.clean_loop true (String c r1) out 1 false
  = path.clean_loop true r1 (c :: with_slash out) 1 true.
Proof.
  intros Hlen Hc Hdot. simpl. rewrite Hc. unfold with_slash.
  destruct (Ascii.eqb c ".") eqn:E.
  - destruct (Hdot eq_refl) as [Hb Hdd]. rewrite Hb. simpl.
    destruct r1 as [|c2 r2]; [discriminate|].
    rewrite (Hdd c2 r2 eq_refl).
    now destruct (List.length out =? 1).
  - simpl. destruct r1 as [|c2 r2]; now destruct (List.length out =? 1).
Qed.

Lemma clean_loop_scan (t : string) :
  path.at_boundary t = true ->
  forall s,
    (forall out, scan AfterSlash s = true -> 1 <= List.length out ->
       path.clean_loop true (s ++ t) out 1 false
       = path.clean_loop true t (rev_bytes s (with_slash out)) 1 true)
    /\ (forall st out, st <> AfterSlash -> scan st s = true -> 2 <= List.length out ->
          path.clean_loop true (s ++ t) out 1 true
          = path.clean_loop true t (rev_bytes s out) 1 true).
Proof.
  intros Ht. induction s as [|c s [IH1 IH2]].
  - split; [discriminate|]. intros st out _ _ _. reflexivity.
  - split.
    + intros out Hs Hlen. simpl in Hs.
      destruct (Ascii.eqb c "/") eqn:Hc; [discriminate|].
      change (String c s ++ t) with (String c (s ++ t)).
      rewrite clean_loop_element; [| exact Hlen | exact Hc | ].
      * simpl rev_bytes.
        assert (Hl : 2 <= List.length (c :: with_slash out)).
        { unfold with_slash. destruct (List.length out =? 1); simpl; lia. }
        destruct (Ascii.eqb c ".").
        -- now apply (IH2 Dot1).
        -- now apply (IH2 Name).
      * intros Hd. rewrite Hd in Hs. now apply scan_Dot1_boundary.
    + intros st out Hst Hs Hlen. simpl in Hs.
      change (String c s ++ t) with (String c (s ++ t)).
      simpl path.clean_loop. simpl rev_bytes.
      destruct (Ascii.eqb c "/") eqn:Hc.
      * destruct st; try discriminate.
        apply Ascii.eqb_eq in Hc. subst c.
        rewrite IH1; [| exact Hs | lia].
        unfold with_slash.
        destruct (List.length out =? 1) eqn:E; [|reflexivity].
        apply Nat.eqb_eq in E. lia.
      * assert (Hl : 2 <= List.length (c :: out)) by (simpl; lia).
        destruct (Ascii.eqb c "."); destruct st; try contradiction;
          first [ now apply (IH2 Dot2) | now apply (IH2 Name) ].
Qed.

(** [path.Clean] keeps a rooted path that is in cleaned form. *)
Lemma Clean_clean_rooted (p : string) :
  clean_rooted p = true -> path.Clean p = p.
Proof.
  destruct p as [|c s]; [discriminate|]. simpl.
  destruct (Ascii.eqb c "/") eqn:Hc; [|discriminate]. simpl.
  apply Ascii.eqb_eq in Hc. subst c.
  destruct (String.eqb s "") eqn:Hs.
  - apply String.eqb_eq in Hs. subst s. reflexivity.
  - simpl. intros Hscan.
    pose proof (proj1 (clean_loop_scan "" eq_refl s) ["/"%char] Hscan (le_n 1)) as H.
    rewrite append_nil_r in H. rewrite H. simpl path.clean_loop.
    unfold with_slash. simpl.
    destruct (rev_bytes s ["/"%char]) eqn:E.
    + pose proof (rev_bytes_length s ["/"%char]) as Hl. rewrite E in Hl.
      simpl in Hl. lia.
    + rewrite <- E. now rewrite of_list_rev_bytes.
Qed.

Lemma scan_app (a b : string) :
  forall st, scan st a = true -> scan st (a ++ b) = scan Name b.
Proof.
  induction a as [|c a IH]; intros st H; simpl in *.
  - now destruct st.
  - destruct (Ascii.eqb c "/").
    + destruct st; try discriminate. now apply IH.
    + destruct (Ascii.eqb c "."); [destruct st|]; now apply IH.
Qed.

Lemma scan_nonempty (st : seg_state) (s : string) :
  st <> Name -> scan st s = true -> s <> "".
Proof. intros Hst H ->. now destruct st. Qed.

Lemma HasSuffix_cons (x c : ascii) (s : string) :
  s <> "" ->
  strings.HasSuffix (String x s) (String c "") = strings.HasSuffix s (String c "").
Proof.
  intros Hs. destruct s as [|y s]; [contradiction|].
  unfold strings.HasSuffix. simpl String.length.
  replace (S (S (String.length s)) - 1) with (S (S (String.length s) - 1)) by lia.
  reflexivity.
Qed.

Lemma HasSuffix_app (a b : string) (c : ascii) :
  b <> "" ->
  strings.HasSuffix (a ++ b) (String c "") = strings.HasSuffix b (String c "").
Proof.
  intros Hb. induction a as [|x a IH]; simpl; [reflexivity|].
  rewrite HasSuffix_cons; [exact IH|].
  destruct a; simpl; [exact Hb | discriminate].
Qed.

Lemma scan_no_slash_end (s : string) :
  forall st, scan st s = true -> s <> "" -> strings.HasSuffix s "/" = false.
Proof.
  induction s as [|c s IH]; intros st H Hne; [contradiction|].
  simpl in H. destruct s as [|d s].
  - unfold strings.HasSuffix. simpl.
    destruct (Ascii.eqb c "/") eqn:E; [|reflexivity].
    destruct st; discriminate.
  - rewrite HasSuffix_cons by discriminate.
    destruct (Ascii.eqb c "/").
    + destruct st; try discriminate. now apply (IH AfterSlash).
    + destruct (Ascii.eqb c "."); [destruct st|];
        first [ now apply (IH Dot1) | now apply (IH Dot2) | now apply (IH Name) ].
Qed.

Lemma clean_rooted_inv (p : string) :
  clean_rooted p = true ->
  exists ps, p = String "/" ps /\ (ps = "" \/ scan AfterSlash ps = true).
Proof.
  destruct p as [|c ps]; [discriminate|]. simpl. intros H.
  apply andb_true_iff in H as [Hc H]. apply Ascii.eqb_eq in Hc. subst c.
  exists ps. split; [reflexivity|].
  apply orb_true_iff in H as [H|H]; [left; now apply String.eqb_eq | now right].
Qed.

Lemma clean_rooted_intro (ps : string) :
  ps = "" \/ scan AfterSlash ps = true -> clean_rooted (String "/" ps) = true.
Proof.
  intros [-> | H]; simpl; [reflexivity|]. rewrite H. apply orb_true_r.
Qed.

(** The loop on the rest of a cleaned path, from any buffer. *)
Lemma clean_loop_tail (ps : string) (out : list ascii) :
  ps = "" \/ scan AfterSlash ps = true ->
  1 <= List.length out ->
  path.clean_loop true ps out 1 false
  = if String.eqb ps "" then out else rev_bytes ps (with_slash out).
Proof.
  intros [-> | H] Hlen; [reflexivity|].
  pose proof (scan_nonempty AfterSlash ps ltac:(discriminate) H) as Hne.
  apply String.eqb_neq in Hne. rewrite Hne.
  pose proof (proj1 (clean_loop_scan "" eq_refl ps) out H Hlen) as E.
  now rewrite append_nil_r in E.
Qed.

Lemma of_list_rev_nonempty (out : list ascii) :
  out <> [] ->
  match out with
  | [] => "."
  | _ :: _ => strings.of_list (List.rev out)
  end = strings.of_list (List.rev out).
Proof. now destruct out. Qed.

Lemma rev_bytes_nonempty (s : string) (acc : list ascii) :
  acc <> [] -> rev_bytes s acc <> [].
Proof.
  intros Hacc E. pose proof (rev_bytes_length s acc) as Hl. rewrite E in Hl.
  destruct acc; [contradiction | simpl in Hl; lia].
Qed.

(** [path.Join("/", ps)] for the rest [ps] of a cleaned path. *)
Lemma Join_root (ps : string) :
  ps = "" \/ scan AfterSlash ps = true -> path.Join "/" ps = String "/" ps.
Proof.
  intros H. unfold path.Join. simpl.
  rewrite (clean_loop_tail ps ["/"%char] H (le_n 1)).
  destruct (String.eqb ps "") eqn:E.
  - apply String.eqb_eq in E. now subst ps.
  - unfold with_slash. simpl.
    rewrite of_list_rev_nonempty by (apply rev_bytes_nonempty; discriminate).
    now rewrite of_list_rev_bytes.
Qed.

Lemma Clean_rooted_out (rest : string) (out : list ascii) :
  path.clean_loop true rest ["/"%char] 1 false = out ->
  out <> [] ->
  path.Clean (String "/" rest) = strings.of_list (List.rev out).
Proof.
  intros H Hne. unfold path.Clean. simpl. rewrite H. now destruct out.
Qed.

(** [path.Join] of two rooted paths in cleaned form. *)
Lemma Join_clean_rooted (c p : string) :
  clean_rooted c = true -> clean_rooted p = true ->
  path.Join c p =
    if String.eqb p "/" then c else if String.eqb c "/" then p else c ++ p.
Proof.
  intros Hc Hp.
  destruct (clean_rooted_inv c Hc) as [cs [-> Hcs]].
  destruct (clean_rooted_inv p Hp) as [ps [-> Hps]].
  unfold path.Join. simpl negb. cbv iota.
  change (String "/" cs ++ "/" ++ String "/" ps)
    with (String "/" (cs ++ String "/" (String "/" ps))).
  assert (Hloop : forall out, 1 <= List.length out ->
            path.clean_loop true (String "/" (String "/" ps)) out 1 true
            = if String.eqb ps "" then out else rev_bytes ps (with_slash out)).
  { intros out Hout. simpl. now apply clean_loop_tail. }
  assert (Ep : String.eqb (String "/" ps) "/" = String.eqb ps "") by reflexivity.
  assert (Ec : String.eqb (String "/" cs) "/" = String.eqb cs "") by reflexivity.
  rewrite Ep, Ec.
  destruct Hcs as [-> | Hcs].
  - simpl append. simpl (String.eqb "" "").
    destruct (String.eqb ps "") eqn:E.
    + apply String.eqb_eq in E. subst ps. reflexivity.
    + rewrite (Clean_rooted_out _ (rev_bytes ps ["/"%char])).
      * now rewrite of_list_rev_bytes.
      * simpl. rewrite (clean_loop_tail ps ["/"%char] Hps (le_n 1)), E.
        reflexivity.
      * apply rev_bytes_nonempty; discriminate.
  - pose proof (scan_nonempty AfterSlash cs ltac:(discriminate) Hcs) as Hne.
    assert (Hlen : 2 <= List.length (rev_bytes cs ["/"%char])).
    { rewrite rev_bytes_length. simpl.
      destruct cs; [contradiction | simpl; lia]. }
    assert (Hrun : path.clean_loop true (cs ++ String "/" (String "/" ps)) ["/"%char] 1 false
                   = if String.eqb ps "" then rev_bytes cs ["/"%char]
                     else rev_bytes ps ("/"%char :: rev_bytes cs ["/"%char])).
    { rewrite (proj1 (clean_loop_scan (String "/" (String "/" ps)) eq_refl cs)
                 ["/"%char] Hcs (le_n 1)).
      change (with_slash ["/"%char]) with ["/"%char].
      rewrite Hloop by lia. unfold with_slash.
      destruct (List.length (rev_bytes cs ["/"%char]) =? 1) eqn:E1; [|reflexivity].
      apply Nat.eqb_eq in E1. lia. }
    apply String.eqb_neq in Hne. rewrite Hne.
    destruct (String.eqb ps "") eqn:E.
    + rewrite (Clean_rooted_out _ _ Hrun).
      * now rewrite of_list_rev_bytes.
      * apply rev_bytes_nonempty; discriminate.
    + rewrite (Clean_rooted_out _ _ Hrun).
      * rewrite of_list_rev_bytes. simpl List.rev. rewrite of_list_app.
        rewrite of_list_rev_bytes. simpl. now rewrite append_assoc.
      * apply rev_bytes_nonempty; discriminate.
Qed.

Lemma append_eqb_self (a b : string) : b <> "" -> String.eqb (a ++ b) a = false.
Proof.
  intros Hb. apply String.eqb_neq. intros E.
  assert (Hl : String.length (a ++ b) = String.length a) by now rewrite E.
  rewrite length_append in Hl. destruct b; [contradiction | simpl in Hl; lia].
Qed.

Lemma clean_rooted_no_slash_end (cs : string) :
  scan AfterSlash cs = true -> strings.HasSuffix (String "/" cs) "/" = false.
Proof.
  intros H. pose proof (scan_nonempty AfterSlash cs ltac:(discriminate) H) as Hne.
  rewrite HasSuffix_cons by exact Hne. now apply (scan_no_slash_end cs AfterSlash).
Qed.

(** The path a client identifier gets on the server lies in the cache
    directory, and stripping the cache directory gives the path back. *)
Lemma path_roundtrip_client (c p : string) :
  clean_rooted c = true -> clean_rooted p = true ->
  clean_rooted (path.Join c p) = true
  /\ pathHasPrefix (path.Join c p) c = true
  /\ path.Join "/" (pathTrimPrefix (path.Join c p) c) = p.
Proof.
  intros Hc Hp. rewrite (Join_clean_rooted c p Hc Hp).
  destruct (clean_rooted_inv c Hc) as [cs [-> Hcs]].
  destruct (clean_rooted_inv p Hp) as [ps [-> Hps]].
  assert (Ep : String.eqb (String "/" ps) "/" = String.eqb ps "") by reflexivity.
  assert (Ec : String.eqb (String "/" cs) "/" = String.eqb cs "") by reflexivity.
  rewrite Ep, Ec.
  destruct (String.eqb ps "") eqn:E.
  - apply String.eqb_eq in E. subst ps. split; [exact Hc|]. split.
    + unfold pathHasPrefix, rawHasPrefix. now rewrite String.eqb_refl.
    + unfold pathTrimPrefix, rawTrimPrefix. rewrite String.eqb_refl.
      apply (Join_root ""). now left.
  - destruct Hps as [-> | Hps]; [discriminate|].
    destruct (String.eqb cs "") eqn:E'.
    + apply String.eqb_eq in E'. subst cs. split; [exact Hp|]. split.
      * now apply rawHasPrefix_suffixed.
      * unfold pathTrimPrefix, rawTrimPrefix. rewrite Ep. simpl.
        change (strings.TrimPrefix (String "/" ps) "/") with ps.
        apply Join_root. now right.
    + destruct Hcs as [-> | Hcs]; [discriminate|].
      pose proof (clean_rooted_no_slash_end cs Hcs) as Hsuf.
      split; [|split].
      * change (String "/" cs ++ String "/" ps) with (String "/" (cs ++ String "/" ps)).
        apply clean_rooted_intro. right.
        rewrite (scan_app cs (String "/" ps) AfterSlash Hcs). exact Hps.
      * unfold pathHasPrefix. rewrite rawHasPrefix_plain; [|reflexivity|exact Hsuf].
        rewrite HasPrefix_cancel. apply orb_true_r.
      * unfold pathTrimPrefix, rawTrimPrefix.
        rewrite append_eqb_self by discriminate. rewrite Hsuf. simpl negb. cbv iota.
        change (String "/" cs ++ String "/" ps) with (String "/" cs ++ "/" ++ ps).
        rewrite <- append_assoc, TrimPrefix_append.
        apply Join_root. now right.
Qed.

(** The path of a server identifier in the cache directory is a cleaned
    rooted path once the cache directory is stripped, and joining the
    cache directory to it gives the server path back. *)
Lemma path_roundtrip_server (c P : string) :
  clean_rooted c = true -> clean_rooted P = true ->
  pathHasPrefix P c = true ->
  clean_rooted (path.Join "/" (pathTrimPrefix P c)) = true
  /\ path.Join c (path.Join "/" (pathTrimPrefix P c)) = P.
Proof.
  intros Hc HP Hpre.
  destruct (clean_rooted_inv c Hc) as [cs [-> Hcs]].
  destruct (clean_rooted_inv P HP) as [Ps [-> HPs]].
  assert (Hroot : clean_rooted "/" = true) by reflexivity.
  destruct Hcs as [-> | Hcs].
  - unfold pathTrimPrefix, rawTrimPrefix.
    change (String.eqb (String "/" Ps) "/") with (String.eqb Ps "").
    destruct (String.eqb Ps "") eqn:E.
    + apply String.eqb_eq in E. subst Ps. split; reflexivity.
    + simpl. change (strings.TrimPrefix (String "/" Ps) "/") with Ps.
      rewrite (Join_root Ps HPs). split; [exact HP|].
      rewrite (Join_clean_rooted "/" (String "/" Ps) Hroot HP).
      change (String.eqb (String "/" Ps) "/") with (String.eqb Ps "").
      now rewrite E.
  - pose proof (clean_rooted_no_slash_end cs Hcs) as Hsuf.
    unfold pathHasPrefix in Hpre.
    rewrite rawHasPrefix_plain in Hpre; [|reflexivity|exact Hsuf].
    unfold pathTrimPrefix, rawTrimPrefix.
    destruct (String.eqb (String "/" Ps) (String "/" cs)) eqn:E.
    + apply String.eqb_eq in E. rewrite E.
      rewrite (Join_root "" (or_introl eq_refl)). split; [reflexivity|].
      now rewrite (Join_clean_rooted (String "/" cs) "/" Hc Hroot).
    + simpl in Hpre. rewrite Hsuf. simpl negb. cbv iota.
      pose proof (HasPrefix_split _ _ Hpre) as Hsplit.
      set (r := strings.drop (String.length (cs ++ "/")) Ps) in *.
      assert (HP' : String "/" Ps = (String "/" cs ++ "/") ++ r)
        by (simpl; now rewrite <- Hsplit).
      rewrite HP', TrimPrefix_append.
      assert (Hr : scan AfterSlash r = true).
      { destruct HPs as [-> | HPs].
        - exfalso. destruct cs; discriminate Hsplit.
        - rewrite Hsplit, append_assoc in HPs.
          now rewrite (scan_app cs ("/" ++ r) AfterSlash Hcs) in HPs. }
      rewrite (Join_root r (or_intror Hr)).
      assert (Hp : clean_rooted (String "/" r) = true)
        by (apply clean_rooted_intro; now right).
      split; [exact Hp|].
      rewrite (Join_clean_rooted (String "/" cs) (String "/" r) Hc Hp).
      change (String.eqb (String "/" r) "/") with (String.eqb r "").
      change (String.eqb (String "/" cs) "/") with (String.eqb cs "").
      pose proof (scan_nonempty AfterSlash r ltac:(discriminate) Hr) as Hrne.
      pose proof (scan_nonempty AfterSlash cs ltac:(discriminate) Hcs) as Hcne.
      apply String.eqb_neq in Hrne, Hcne. rewrite Hrne, Hcne.
      now rewrite append_assoc.
Qed.

(** ** Escaping *)

Lemma escape_cons (c : ascii) (s : string) (m : url.encoding) :
  url.escape (String c s) m = url.escape (String c "") m ++ url.escape s m.
Proof.
  simpl. destruct (Ascii.eqb c " " && url.is_query m); [reflexivity|].
  destruct (url.shouldEscape c m); reflexivity.
Qed.

Lemma unescape_escape_path_byte (c : ascii) (rest : string) :
  url.unescape (url.escape (String c "") url.encodePath ++ rest) url.encodePath
  = option_map (String c) (url.unescape rest url.encodePath).
Proof.
  destruct c as [[|] [|] [|] [|] [|] [|] [|] [|]]; reflexivity.
Qed.

Lemma unescape_escape_fragment_byte (c : ascii) (rest : string) :
  url.unescape (url.escape (String c "") url.encodeFragment ++ rest) url.encodeFragment
  = option_map (String c) (url.unescape rest url.encodeFragment).
Proof.
  destruct c as [[|] [|] [|] [|] [|] [|] [|] [|]]; reflexivity.
Qed.

Lemma unescape_escape_path (s : string) :
  url.unescape (url.escape s url.encodePath) url.encodePath = Some s.
Proof.
  induction s as [|c s IH]; [reflexivity|].
  rewrite escape_cons, unescape_escape_path_byte, IH. reflexivity.
Qed.

Lemma unescape_escape_fragment (s : string) :
  url.unescape (url.escape s url.encodeFragment) url.encodeFragment = Some s.
Proof.
  induction s as [|c s IH]; [reflexivity|].
  rewrite escape_cons, unescape_escape_fragment_byte, IH. reflexivity.
Qed.

Lemma IndexByte_app_absent (a b : string) (c : ascii) :
  strings.IndexByte a c = None ->
  strings.IndexByte (a ++ b) c
  = option_map (fun i => String.length a + i) (strings.IndexByte b c).
Proof.
  induction a as [|x a IH]; simpl.
  - intros _. now destruct (strings.IndexByte b c).
  - destruct (Ascii.eqb x c); [discriminate|].
    destruct (strings.IndexByte a c); [discriminate|]. intros _.
    rewrite IH by reflexivity. now destruct (strings.IndexByte b c).
Qed.

Lemma absent_app (a b : string) (c : ascii) :
  absent c (a ++ b) = absent c a && absent c b.
Proof.
  unfold absent. induction a as [|x a IH]; simpl; [reflexivity|].
  destruct (Ascii.eqb x c); [reflexivity|].
  destruct (strings.IndexByte (a ++ b) c), (strings.IndexByte a c),
    (strings.IndexByte b c); simpl in *; congruence.
Qed.

Lemma absent_spec (c : ascii) (s : string) :
  absent c s = true <-> strings.IndexByte s c = None.
Proof. unfold absent. destruct (strings.IndexByte s c); split; congruence. Qed.

Lemma escape_path_byte_absent (c : ascii) :
  absent "#" (url.escape (String c "") url.encodePath) = true
  /\ absent "?" (url.escape (String c "") url.encodePath) = true
  /\ (Ascii.eqb c "/" = false ->
      strings.HasPrefix (url.escape (String c "") url.encodePath) "/" = false).
Proof.
  destruct c as [[|] [|] [|] [|] [|] [|] [|] [|]];
    (split; [reflexivity | split; [reflexivity |]]);
    first [ reflexivity | discriminate ].
Qed.

Lemma escape_path_absent (s : string) :
  absent "#" (url.escape s url.encodePath) = true
  /\ absent "?" (url.escape s url.encodePath) = true.
Proof.
  induction s as [|c s [IH1 IH2]]; [split; reflexivity|].
  rewrite escape_cons, !absent_app, IH1, IH2.
  destruct (escape_path_byte_absent c) as [H1 [H2 _]]. now rewrite H1, H2.
Qed.

Lemma escape_nonempty (s : string) (m : url.encoding) :
  s <> "" -> String.eqb (url.escape s m) "" = false.
Proof.
  destruct s as [|c s]; [contradiction|]. intros _. simpl.
  destruct (Ascii.eqb c " " && url.is_query m); [reflexivity|].
  destruct (url.shouldEscape c m); reflexivity.
Qed.

Lemma take_append (a b : string) : strings.take (String.length a) (a ++ b) = a.
Proof. induction a as [|x a IH]; simpl; [now destruct b | now rewrite IH]. Qed.

Lemma split_at (a b : string) (c : ascii) :
  strings.IndexByte a c = None ->
  url.split (a ++ String c b) c true = (a, b).
Proof.
  intros Ha. unfold url.split. rewrite (IndexByte_app_absent a _ c Ha).
  simpl. rewrite Ascii.eqb_refl. simpl. rewrite Nat.add_0_r, take_append.
  change (S (String.length a)) with (String.length (String c a)).
  f_equal. clear Ha. induction a as [|x a IH]; simpl; [reflexivity | exact IH].
Qed.

Lemma split_none (a : string) (c : ascii) (cut : bool) :
  strings.IndexByte a c = None -> url.split a c cut = (a, "").
Proof. intros Ha. unfold url.split. now rewrite Ha. Qed.

Lemma CountByte_app (a b : string) (c : ascii) :
  strings.CountByte (a ++ b) c = strings.CountByte a c + strings.CountByte b c.
Proof. induction a as [|x a IH]; simpl; [reflexivity | rewrite IH; lia]. Qed.

Lemma CountByte_absent (a : string) (c : ascii) :
  strings.IndexByte a c = None -> strings.CountByte a c = 0.
Proof.
  induction a as [|x a IH]; simpl; [reflexivity|].
  destruct (Ascii.eqb x c); [discriminate|].
  destruct (strings.IndexByte a c); [discriminate|]. intros _. now rewrite IH.
Qed.

Lemma HasSuffix_count (s : string) (c : ascii) :
  strings.HasSuffix s (String c "") = true -> 1 <= strings.CountByte s c.
Proof.
  induction s as [|x s IH]; [discriminate|].
  destruct s as [|y s].
  - unfold strings.HasSuffix. simpl. destruct (Ascii.eqb x c); [lia | discriminate].
  - rewrite HasSuffix_cons by discriminate. intros H. specialize (IH H).
    change (strings.CountByte (String x (String y s)) c)
      with ((if Ascii.eqb x c then 1 else 0) + strings.CountByte (String y s) c).
    lia.
Qed.

(** ** Parsing what [String] wrote *)

Lemma query_split (R q : string) (force : bool) :
  absent "?" R = true ->
  implb force (String.eqb q "") = true ->
  (let rest0 := R ++ query_part force q in
   if strings.HasSuffix rest0 "?" && (strings.CountByte rest0 "?" =? 1)
   then (strings.take (String.length rest0 - 1) rest0, true, "")
   else let (r, q') := url.split rest0 "?" true in (r, false, q'))
  = (R, force, q).
Proof.
  intros HR Hf. apply absent_spec in HR. cbv zeta. unfold query_part.
  destruct force; simpl orb; cbv iota.
  - simpl in Hf. apply String.eqb_eq in Hf. subst q.
    rewrite HasSuffix_app by discriminate.
    rewrite CountByte_app, (CountByte_absent R _ HR). simpl.
    rewrite length_append. simpl.
    replace (String.length R + 1 - 1) with (String.length R) by lia.
    now rewrite take_append.
  - destruct (String.eqb q "") eqn:Eq; simpl negb; cbv iota.
    + apply String.eqb_eq in Eq. subst q. rewrite append_nil_r.
      destruct (strings.HasSuffix R "?") eqn:Hs.
      * apply HasSuffix_count in Hs. rewrite (CountByte_absent R _ HR) in Hs. lia.
      * simpl. now rewrite (split_none R _ true HR).
    + apply String.eqb_neq in Eq.
      assert (Hcond : strings.HasSuffix (R ++ "?" ++ q) "?"
                      && (strings.CountByte (R ++ "?" ++ q) "?" =? 1) = false).
      { destruct (strings.HasSuffix (R ++ "?" ++ q) "?") eqn:Hs; [|reflexivity].
        rewrite HasSuffix_app in Hs by discriminate.
        change ("?" ++ q) with (String "?" q) in Hs.
        rewrite HasSuffix_cons in Hs by exact Eq.
        apply HasSuffix_count in Hs.
        rewrite CountByte_app, (CountByte_absent R _ HR). simpl.
        apply Nat.eqb_neq. lia. }
      rewrite Hcond. change ("?" ++ q) with (String "?" q).
      now rewrite (split_at R q _ HR).
Qed.

Lemma absent_cons (x c : ascii) (s : string) :
  Ascii.eqb x c = false -> absent c (String x s) = absent c s.
Proof.
  intros H. unfold absent. simpl. rewrite H.
  now destruct (strings.IndexByte s c).
Qed.

Lemma escape_path_rooted (ps : string) :
  url.escape (String "/" ps) url.encodePath = String "/" (url.escape ps url.encodePath).
Proof. reflexivity. Qed.

Lemma escape_path_no_double_slash (ps : string) :
  ps = "" \/ scan AfterSlash ps = true ->
  strings.HasPrefix (url.escape ps url.encodePath) "/" = false.
Proof.
  intros [-> | H]; [reflexivity|].
  destruct ps as [|c ps]; [discriminate|]. simpl in H.
  destruct (Ascii.eqb c "/") eqn:Hc; [discriminate|].
  rewrite escape_cons.
  destruct (escape_path_byte_absent c) as [_ [_ H3]]. specialize (H3 Hc).
  destruct (url.escape (String c "") url.encodePath) as [|x e] eqn:E.
  - exfalso. pose proof (escape_nonempty (String c "") url.encodePath) as Hn.
    rewrite E in Hn. discriminate Hn. discriminate.
  - simpl in *. exact H3.
Qed.

(** *** Hosts *)

Lemma host_byte_facts (c : ascii) :
  host_byte c = true ->
  (Ascii.eqb c "/" = false /\ Ascii.eqb c "?" = false /\ Ascii.eqb c "#" = false
   /\ Ascii.eqb c "@" = false /\ Ascii.eqb c "[" = false)
  /\ url.escape (String c "") url.encodeHost = String c ""
  /\ forall rest,
       url.unescape (String c rest) url.encodeHost
       = option_map (String c) (url.unescape rest url.encodeHost).
Proof.
  destruct c as [[|] [|] [|] [|] [|] [|] [|] [|]]; intros H;
    first [ discriminate H | repeat split ].
Qed.

Lemma plain_host_escape (h : string) :
  plain_host h = true -> url.escape h url.encodeHost = h.
Proof.
  induction h as [|c h IH]; [reflexivity|]. simpl plain_host. intros H.
  apply andb_true_iff in H as [Hc Hh].
  rewrite escape_cons, (IH Hh).
  destruct (host_byte_facts c Hc) as [_ [-> _]]. reflexivity.
Qed.

Lemma plain_host_unescape (h : string) :
  plain_host h = true -> url.unescape h url.encodeHost = Some h.
Proof.
  induction h as [|c h IH]; [reflexivity|]. simpl plain_host. intros H.
  apply andb_true_iff in H as [Hc Hh].
  destruct (host_byte_facts c Hc) as [_ [_ ->]]. now rewrite (IH Hh).
Qed.

Lemma plain_host_absent (h : string) :
  plain_host h = true ->
  absent "/" h = true /\ absent "?" h = true /\ absent "#" h = true
  /\ strings.LastIndexByte h "@" = None
  /\ strings.HasPrefix h "[" = false
  /\ strings.HasPrefix h "/" = false.
Proof.
  induction h as [|c h IH]; [repeat split|]. simpl plain_host. intros H.
  apply andb_true_iff in H as [Hc Hh].
  destruct (IH Hh) as (H1 & H2 & H3 & H4 & _).
  destruct (host_byte_facts c Hc) as [(E1 & E2 & E3 & E4 & E5) _].
  rewrite !absent_cons by assumption. simpl. rewrite H4, E4, E5, E1.
  repeat split; assumption.
Qed.

Lemma parseAuthority_plain (h : string) :
  plain_host h = true -> url.parseAuthority h = Some (None, h).
Proof.
  intros H. destruct (plain_host_absent h H) as (_ & _ & _ & Hat & Hbr & _).
  unfold url.parseAuthority, url.parseHost.
  now rewrite Hat, Hbr, (plain_host_unescape h H).
Qed.

Lemma split_keep (a b : string) (c : ascii) :
  strings.IndexByte a c = None ->
  url.split (a ++ String c b) c false = (a, String c b).
Proof.
  intros Ha. unfold url.split. rewrite (IndexByte_app_absent a _ c Ha).
  simpl. rewrite Ascii.eqb_refl. simpl. rewrite Nat.add_0_r, take_append.
  now rewrite drop_append.
Qed.

(** What [String] writes for a canonical file URL. *)
Lemma String_canonical (scheme h P q f : string) (force : bool) :
  (scheme = "" \/ scheme = "file") ->
  plain_host h = true ->
  clean_rooted P = true ->
  url.String_ (url.mkURL scheme "" None h P "" force q f)
  = authority_part scheme h
    ++ url.escape P url.encodePath ++ query_part force q ++ fragment_part f.
Proof.
  intros Hs Hh HP. destruct (clean_rooted_inv P HP) as [ps [-> _]].
  unfold url.String_, url.EscapedPath, query_part, fragment_part, authority_part.
  cbn [url.Scheme url.Opaque url.User url.Host url.Path url.RawPath
       url.ForceQuery url.RawQuery url.Fragment].
  rewrite escape_path_rooted, (plain_host_escape h Hh).
  destruct Hs as [-> | ->]; destruct (String.eqb h "") eqn:Eh;
    try (apply String.eqb_eq in Eh; subst h); simpl.
  - destruct (strings.IndexByte (url.escape ps url.encodePath) ":") as [i|]; simpl;
      destruct (force || negb (String.eqb q "")); destruct (negb (String.eqb f ""));
      simpl; rewrite ?append_assoc, ?append_nil_r; reflexivity.
  - assert (Hne : String.eqb (String "/" (String "/" h)) "" = false) by reflexivity.
    destruct (force || negb (String.eqb q "")); destruct (negb (String.eqb f ""));
      simpl; rewrite ?append_assoc, ?append_nil_r; reflexivity.
  - destruct (force || negb (String.eqb q "")); destruct (negb (String.eqb f ""));
      simpl; rewrite ?append_assoc, ?append_nil_r; reflexivity.
  - destruct (force || negb (String.eqb q "")); destruct (negb (String.eqb f ""));
      simpl; rewrite ?append_assoc, ?append_nil_r; reflexivity.
Qed.

(** [parse] reads back the part before the fragment. *)
Lemma parse_canonical (scheme h P q : string) (force : bool) :
  (scheme = "" \/ scheme = "file") ->
  plain_host h = true ->
  clean_rooted P = true ->
  implb force (String.eqb q "") = true ->
  url.parse (authority_part scheme h
             ++ url.escape P url.encodePath ++ query_part force q)
  = Some (url.mkURL scheme "" None h P "" force q "").
Proof.
  intros Hs Hh HP Hf. destruct (clean_rooted_inv P HP) as [ps [-> Hps]].
  destruct (escape_path_absent (String "/" ps)) as [_ Hq].
  pose proof (escape_path_no_double_slash ps Hps) as Hds.
  pose proof (unescape_escape_path (String "/" ps)) as Hun.
  destruct (plain_host_absent h Hh) as (Hh1 & Hh2 & _ & _ & _ & Hh6).
  pose proof (parseAuthority_plain h Hh) as Hauth.
  rewrite escape_path_rooted in *.
  set (E := url.escape ps url.encodePath) in *.
  assert (H1 : forall t, strings.HasPrefix (String "/" t) "/" = true) by reflexivity.
  assert (H2 : strings.HasPrefix (String "/" E) "//" = false) by exact Hds.
  assert (Hsplit : url.split (h ++ String "/" E) "/" false = (h, String "/" E)).
  { apply split_keep. now apply absent_spec. }
  assert (HqR : absent "?" (h ++ String "/" E) = true)
    by (rewrite absent_app, Hh2; exact Hq).
  unfold authority_part.
  destruct Hs as [-> | ->]; [destruct (String.eqb h "") eqn:Eh|].
  - apply String.eqb_eq in Eh. subst h.
    unfold url.parse. simpl String.eqb. cbv iota. simpl append.
    change (url.getscheme (String "/" (E ++ query_part force q)))
      with (Some ("", String "/" (E ++ query_part force q))).
    cbv iota beta.
    change (String "/" (E ++ query_part force q))
      with (String "/" E ++ query_part force q).
    rewrite query_split; [| exact Hq | exact Hf].
    cbv iota beta. rewrite H1, H2. cbn [negb andb orb String.eqb].
    rewrite ?andb_false_r. cbv iota. rewrite Hun. now rewrite String.eqb_refl.
  - unfold url.parse. simpl String.eqb. cbv iota.
    rewrite !append_assoc. simpl append.
    change (url.getscheme
              (String "/" (String "/" (h ++ String "/" (E ++ query_part force q)))))
      with (Some ("", String "/" (String "/" (h ++ String "/" (E ++ query_part force q))))).
    cbv iota beta.
    replace (String "/" (String "/" (h ++ String "/" (E ++ query_part force q))))
      with (String "/" (String "/" (h ++ String "/" E)) ++ query_part force q)
      by (simpl; now rewrite append_assoc).
    rewrite query_split;
      [| do 2 rewrite absent_cons by reflexivity; exact HqR | exact Hf].
    cbv iota beta. rewrite H1.
    change (strings.ToLower "") with "".
    change (strings.HasPrefix (String "/" (String "/" (h ++ String "/" E))) "//") with true.
    change (strings.HasPrefix (String "/" (String "/" (h ++ String "/" E))) "///")
      with (strings.HasPrefix (h ++ String "/" E) "/").
    assert (Hh' : strings.HasPrefix (h ++ String "/" E) "/" = false).
    { destruct h as [|c h]; [discriminate Eh|]. exact Hh6. }
    rewrite Hh'. cbn [negb andb orb String.eqb]. cbv iota.
    change (strings.drop 2 (String "/" (String "/" (h ++ String "/" E))))
      with (h ++ String "/" E).
    rewrite Hsplit, Hauth. cbv iota beta. rewrite Hun. now rewrite String.eqb_refl.
  - unfold url.parse. simpl String.eqb. cbv iota.
    rewrite !append_assoc. simpl append.
    change (url.getscheme
              (String "f" (String "i" (String "l" (String "e" (String ":" (String "/"
                 (String "/" (h ++ String "/" (E ++ query_part force q))))))))))
      with (Some ("file", String "/" (String "/"
                    (h ++ String "/" (E ++ query_part force q))))).
    cbv iota beta.
    replace (String "/" (String "/" (h ++ String "/" (E ++ query_part force q))))
      with (String "/" (String "/" (h ++ String "/" E)) ++ query_part force q)
      by (simpl; now rewrite append_assoc).
    rewrite query_split;
      [| do 2 rewrite absent_cons by reflexivity; exact HqR | exact Hf].
    cbv iota beta. rewrite H1.
    change (strings.ToLower "file") with "file".
    change (strings.HasPrefix (String "/" (String "/" (h ++ String "/" E))) "//") with true.
    cbn [negb andb orb String.eqb]. cbv iota.
    change (strings.drop 2 (String "/" (String "/" (h ++ String "/" E))))
      with (h ++ String "/" E).
    rewrite Hsplit, Hauth. cbv iota beta. rewrite Hun. now rewrite String.eqb_refl.
Qed.

(** [url.Parse] reads back what [String] wrote for a canonical file URL. *)
Lemma Parse_canonical (scheme h P q f : string) (force : bool) :
  (scheme = "" \/ scheme = "file") ->
  plain_host h = true ->
  clean_rooted P = true ->
  absent "#" q = true ->
  implb force (String.eqb q "") = true ->
  url.Parse (url.String_ (url.mkURL scheme "" None h P "" force q f))
  = Some (url.mkURL scheme "" None h P "" force q f).
Proof.
  intros Hs Hh HP Hq Hf. rewrite (String_canonical scheme h P q f force Hs Hh HP).
  pose proof (parse_canonical scheme h P q force Hs Hh HP Hf) as Hparse.
  set (pre := authority_part scheme h) in *.
  rewrite <- (append_assoc (url.escape P url.encodePath)), <- append_assoc.
  set (A := pre ++ url.escape P url.encodePath ++ query_part force q) in *.
  assert (HA : strings.IndexByte A "#" = None).
  { apply absent_spec. subst A. rewrite !absent_app.
    destruct (escape_path_absent P) as [-> _].
    assert (Hpre : absent "#" pre = true).
    { subst pre. unfold authority_part. rewrite absent_app.
      destruct (plain_host_absent h Hh) as (_ & _ & -> & _).
      destruct (String.eqb scheme ""); [destruct (String.eqb h "")|]; reflexivity. }
    rewrite Hpre. unfold query_part.
    destruct (force || negb (String.eqb q "")); [|reflexivity].
    change ("?" ++ q) with (String "?" q).
    now rewrite absent_cons by reflexivity. }
  unfold url.Parse, fragment_part.
  destruct (String.eqb f "") eqn:Ef; simpl negb; cbv iota.
  - apply String.eqb_eq in Ef. subst f.
    rewrite append_nil_r, (split_none A _ true HA), Hparse. reflexivity.
  - change ("#" ++ url.escape f url.encodeFragment)
      with (String "#" (url.escape f url.encodeFragment)).
    rewrite (split_at A _ _ HA), Hparse.
    apply String.eqb_neq in Ef.
    rewrite (escape_nonempty f _ Ef), unescape_escape_fragment. reflexivity.
Qed.

Lemma canonical_inv (u : url.URL) :
  canonical u = true ->
  exists scheme h P q f force,
    u = url.mkURL scheme "" None h P "" force q f
    /\ (scheme = "" \/ scheme = "file")
    /\ plain_host h = true
    /\ clean_rooted P = true
    /\ absent "#" q = true
    /\ implb force (String.eqb q "") = true.
Proof.
  destruct u as [scheme opaque user host P rawpath force q f].
  unfold canonical. simpl. intros H.
  repeat match type of H with
         | (_ && _ = true) => let H' := fresh "H" in apply andb_true_iff in H as [H H']
         end.
  destruct user; [discriminate|].
  repeat match goal with
         | E : String.eqb _ "" = true |- _ => apply String.eqb_eq in E; subst
         end.
  exists scheme, host, P, q, f, force. repeat split; try assumption.
  apply orb_true_iff in H as [H | H]; apply String.eqb_eq in H; [now left | now right].
Qed.

Lemma probablyFileURI_canonical (scheme h P q f : string) (force : bool) :
  (scheme = "" \/ scheme = "file") ->
  clean_rooted P = true ->
  probablyFileURI (url.mkURL scheme "" None h P "" force q f) = true.
Proof.
  intros Hs HP. destruct (clean_rooted_inv P HP) as [ps [-> _]].
  destruct Hs as [-> | ->]; reflexivity.
Qed.

(** C1, as stated, fails: the path is cleaned on the way to the server, so
    a trailing slash is lost; an escape that [String] writes differently
    is not restored; and with a relative cache directory the first element
    of the server path is read back as a host. *)
Lemma client_round_trip_fails :
  ~ (forall (id : DocumentURI) (c : string) (u : url.URL),
       url.Parse id = Some u ->
       probablyFileURI u = true ->
       strings.HasPrefix (url.Path u) "/" = true ->
       pathHasPrefix (url.Path u) c = false ->
       toClient c (toServer c id) = id)
  /\ (toServer "/cache/S1" "file:///a/" = "file:///cache/S1/a"
      /\ toClient "/cache/S1" "file:///cache/S1/a" = "file:///a")
  /\ toClient "/cache/S1" (toServer "/cache/S1" "file:///a%2Fb") = "file:///a/b"
  /\ toClient "cache" (toServer "cache" "file:///a.json") = "file://cache/a.json".
Proof.
  split; [|repeat split].
  intros H.
  specialize (H "file:///a/" "/cache/S1"
                (url.mkURL "file" "" None "" "/a/" "" false "" "")
                eq_refl eq_refl eq_refl eq_refl).
  vm_compute in H. discriminate.
Qed.

(** C1, amended.  For every client identifier in canonical spelling (one
    that [url.Parse] accepts and [String] writes the same way, with an
    empty or [file] scheme, no user information, a plain host or none, and
    a rooted path in cleaned form and default escaping) and every cache
    directory that is a rooted path in cleaned form, translating to the
    server and back gives the identifier again. *)
Theorem client_round_trip :
  forall (id : DocumentURI) (c : string),
    canonical_id id = true ->
    clean_rooted c = true ->
    returned (serverToClientURI (returned (clientToServerURI id c)) c) = id.
Proof.
  intros id c Hid Hc. unfold canonical_id in Hid.
  destruct (url.Parse id) as [u|] eqn:HP; [|discriminate].
  apply andb_true_iff in Hid as [Hu Hstr]. apply String.eqb_eq in Hstr.
  destruct (canonical_inv u Hu)
    as (scheme & h & P & q & f & force & -> & Hs & Hh & HPc & Hq & Hf).
  pose proof (probablyFileURI_canonical scheme h P q f force Hs HPc) as Hfile.
  rewrite (clientToServerURI_file id c _ HP Hfile).
  unfold returned at 2. simpl fst. unfold url.set_Path at 1. simpl.
  destruct (path_roundtrip_client c P Hc HPc) as (HP1 & Hpre & Hback).
  pose proof (Parse_canonical scheme h (path.Join c P) q f force Hs Hh HP1 Hq Hf) as HP'.
  pose proof (probablyFileURI_canonical scheme h (path.Join c P) q f force Hs HP1) as Hfile'.
  rewrite (serverToClientURI_file _ c _ HP' Hfile').
  unfold returned, ret. simpl fst. simpl url.Path. rewrite Hpre.
  unfold url.set_Path. simpl. rewrite Hback. exact Hstr.
Qed.

Lemma client_round_trip_witness :
  returned (serverToClientURI
              (returned (clientToServerURI "file:///src/main.go?rev=1#L10" "/cache/S1"))
              "/cache/S1")
  = "file:///src/main.go?rev=1#L10".
Proof.
  exact (client_round_trip "file:///src/main.go?rev=1#L10" "/cache/S1" eq_refl eq_refl).
Defined.

(** C2, as stated, fails: the path is cleaned on the way to the client, so
    a trailing slash or a [.] element of a server identifier in the cache
    directory is lost. *)
Lemma server_round_trip_fails :
  ~ (forall (id : DocumentURI) (c : string) (u : url.URL),
       url.Parse id = Some u ->
       probablyFileURI u = true ->
       pathHasPrefix (url.Path u) c = true ->
       toServer c (toClient c id) = id)
  /\ (toClient "/cache/S1" "file:///cache/S1/a/" = "file:///a"
      /\ toServer "/cache/S1" "file:///a" = "file:///cache/S1/a")
  /\ toServer "/cache/S1" (toClient "/cache/S1" "file:///cache/S1/./a.json")
     = "file:///cache/S1/a.json".
Proof.
  split; [|repeat split].
  intros H.
  specialize (H "file:///cache/S1/a/" "/cache/S1"
                (url.mkURL "file" "" None "" "/cache/S1/a/" "" false "" "")
                eq_refl eq_refl eq_refl).
  vm_compute in H. discriminate.
Qed.

(** C2, amended.  For every server identifier in canonical spelling whose
    path lies in the cache directory, the cache directory being a rooted
    path in cleaned form, translating to the client and back gives the
    identifier again. *)
Theorem server_round_trip :
  forall (id : DocumentURI) (c : string),
    canonical_id id = true ->
    clean_rooted c = true ->
    pathHasPrefix (path_of id) c = true ->
    returned (clientToServerURI (returned (serverToClientURI id c)) c) = id.
Proof.
  intros id c Hid Hc Hunder. unfold canonical_id in Hid. unfold path_of in Hunder.
  destruct (url.Parse id) as [u|] eqn:HP; [|discriminate].
  apply andb_true_iff in Hid as [Hu Hstr]. apply String.eqb_eq in Hstr.
  destruct (canonical_inv u Hu)
    as (scheme & h & P & q & f & force & -> & Hs & Hh & HPc & Hq & Hf).
  simpl url.Path in Hunder.
  pose proof (probablyFileURI_canonical scheme h P q f force Hs HPc) as Hfile.
  rewrite (serverToClientURI_file id c _ HP Hfile).
  simpl url.Path. rewrite Hunder.
  unfold returned at 2. simpl fst. unfold url.set_Path at 1. simpl.
  destruct (path_roundtrip_server c P Hc HPc Hunder) as (Hp1 & Hback).
  set (p := path.Join "/" (pathTrimPrefix P c)) in *.
  pose proof (Parse_canonical scheme h p q f force Hs Hh Hp1 Hq Hf) as HP'.
  pose proof (probablyFileURI_canonical scheme h p q f force Hs Hp1) as Hfile'.
  rewrite (clientToServerURI_file _ c _ HP' Hfile').
  unfold returned, ret. simpl fst. unfold url.set_Path. simpl.
  rewrite Hback. exact Hstr.
Qed.

Lemma server_round_trip_witness :
  returned (clientToServerURI
              (returned (serverToClientURI "file:///cache/S1/src/main.go" "/cache/S1"))
              "/cache/S1")
  = "file:///cache/S1/src/main.go".
Proof.
  exact (server_round_trip "file:///cache/S1/src/main.go" "/cache/S1"
           eq_refl eq_refl eq_refl).
Defined.

(** ** The recursion bound of the walker model is never reached *)

Lemma depth_map_insert (k : string) (v : value) (m : list (string * value)) (d : nat) :
  depth v <= d -> depth_map depth m <= d -> depth_map depth (gomap.insert k v m) <= d.
Proof.
  intros Hv. induction m as [|[k' v'] m IH]; simpl; intros Hm.
  - lia.
  - destruct (String.eqb k k'); simpl; [lia|].
    assert (depth_map depth m <= d) by lia. specialize (IH H). lia.
Qed.

Lemma depth_map_delete (k : string) (m : list (string * value)) (d : nat) :
  depth_map depth m <= d -> depth_map depth (gomap.delete k m) <= d.
Proof.
  induction m as [|[k' v'] m IH]; simpl; intros Hm; [lia|].
  assert (depth_map depth m <= d) by lia. specialize (IH H).
  destruct (String.eqb k k'); simpl; lia.
Qed.

Lemma depth_pos (v : value) : 1 <= depth v.
Proof. destruct v as [| | | | | | |[?|]| | | |]; simpl; lia. Qed.

Lemma set_URI_bounded (update : update_fn) (addressable : bool) (d : nat) :
  forall fs,
    depth_fields depth fs <= d ->
    match set_URI update addressable fs with
    | Done fs' => depth_fields depth fs' <= d
    | Panic => True
    | OutOfFuel => False
    end.
Proof.
  induction fs as [|fld fs IH]; intros Hfs; simpl; [lia|]. simpl in Hfs.
  destruct (String.eqb (fname fld) "URI").
  - destruct (Kind_eqb (field_kind fld) String_); [|simpl; lia].
    destruct (as_string (fvalue fld)) as [s|] eqn:Es; [|simpl; lia].
    destruct update as [f|]; [|simpl; lia].
    destruct addressable; [|exact I].
    destruct (fvalue fld); try discriminate; simpl in Hfs |- *; lia.
  - specialize (IH ltac:(lia)).
    destruct (set_URI update addressable fs) as [fs'| |]; simpl in *;
      try exact I; try contradiction. lia.
Qed.

Section Fuel.
Variable update : update_fn.
Variable produced : string -> bool.
Variable n : nat.
Hypothesis IHwalk :
  forall o parent,
    depth o < n -> bounded (depth o) (walk produced n update o parent).

Lemma map_pass_bounded (parent k : string) (d : nat) (o : list (string * value)) :
  d < n ->
  depth_map depth o <= d ->
  match map_pass update (walk produced n update) parent k o with
  | Done r => depth_map depth (fst r) <= d
  | Panic => True
  | OutOfFuel => False
  end.
Proof.
  intros Hd Ho. unfold map_pass.
  destruct (gomap.lookup k o) as [v|] eqn:Hl; [|exact Ho].
  pose proof (depth_map_In _ _ _ (lookup_In _ _ _ Hl)) as Hv.
  destruct (if uri_key k then as_string v else None) as [s|].
  - destruct update as [f|]; simpl; [|exact Ho].
    apply depth_map_insert; [pose proof (depth_pos v); simpl; lia | exact Ho].
  - pose proof (IHwalk v k ltac:(lia)) as Hw.
    destruct (String.eqb parent "changes").
    + destruct update as [f|]; [|exact I].
      destruct (walk produced n (Some f) v k) as [v'| |]; simpl in Hw |- *;
        try exact I; try contradiction.
      apply depth_map_insert; [lia|].
      apply depth_map_insert; [lia|]. now apply depth_map_delete.
    + destruct (walk produced n update v k) as [v'| |]; simpl in Hw |- *;
        try exact I; try contradiction.
      apply depth_map_insert; [lia | exact Ho].
Qed.

Lemma range_map_bounded (parent : string) (d : nat) :
  d < n ->
  forall todo o,
    depth_map depth o <= d ->
    match range_map update produced (walk produced n update) parent todo o with
    | Done o' => depth_map depth o' <= d
    | Panic => True
    | OutOfFuel => False
    end.
Proof.
  intros Hd. induction todo as [|k todo IH]; intros o Ho; simpl; [exact Ho|].
  pose proof (map_pass_bounded parent k d o Hd Ho) as H1.
  destruct (map_pass update (walk produced n update) parent k o) as [[o1 ins]| |];
    simpl in H1 |- *; try exact I; try contradiction.
  destruct ins as [k'|]; [|now apply IH].
  destruct (produced k'); [|now apply IH].
  pose proof (map_pass_bounded parent k' d o1 Hd H1) as H2.
  destruct (map_pass update (walk produced n update) parent k' o1) as [[o2 ins2]| |];
    simpl in H2 |- *; try exact I; try contradiction.
  now apply IH.
Qed.

Lemma range_slice_bounded (d : nat) :
  d < n ->
  forall l k,
    depth_list depth l <= d ->
    match range_slice (walk produced n update) k l with
    | Done l' => depth_list depth l' <= d
    | Panic => True
    | OutOfFuel => False
    end.
Proof.
  intros Hd. induction l as [|v l IH]; intros k Hl; simpl; [lia|].
  simpl in Hl. pose proof (IHwalk v (rune_string k) ltac:(lia)) as Hw.
  destruct (walk produced n update v (rune_string k)) as [v'| |]; simpl in Hw |- *;
    try exact I; try contradiction.
  specialize (IH (S k) ltac:(lia)).
  destruct (range_slice (walk produced n update) (S k) l) as [l'| |]; simpl in IH |- *;
    try exact I; try contradiction. lia.
Qed.

Lemma walk_fields_bounded (d : nat) :
  d < n ->
  forall fs,
    depth_fields depth fs <= d ->
    match walk_fields (walk produced n update) fs with
    | Done fs' => depth_fields depth fs' <= d
    | Panic => True
    | OutOfFuel => False
    end.
Proof.
  intros Hd. induction fs as [|fld fs IH]; intros Hfs; simpl; [lia|]. simpl in Hfs.
  specialize (IH ltac:(lia)).
  pose proof (IHwalk (fvalue fld) "n/a" ltac:(lia)) as Hw.
  assert (Hskip :
    match (fields'' <- walk_fields (walk produced n update) fs ;; Done (fld :: fields'')) with
    | Done fs' => depth_fields depth fs' <= d
    | Panic => True
    | OutOfFuel => False
    end).
  { destruct (walk_fields (walk produced n update) fs) as [fs'| |]; simpl in IH |- *;
      try exact I; try contradiction. lia. }
  destruct (field_kind fld); try exact Hskip;
    (destruct (exported fld); [|exact I]);
    (destruct (walk produced n update (fvalue fld) "n/a") as [v'| |]; simpl in Hw |- *;
       try exact I; try contradiction);
    (destruct (walk_fields (walk produced n update) fs) as [fs'| |]; simpl in IH |- *;
       try exact I; try contradiction; lia).
Qed.

End Fuel.

(** With fuel above the depth of the payload the walk returns or panics,
    and what it returns is no deeper than the payload. *)
Lemma walk_bounded (update : update_fn) (produced : string -> bool) :
  forall fuel o parent,
    depth o < fuel -> bounded (depth o) (walk produced fuel update o parent).
Proof.
  induction fuel as [|n IH]; intros o parent Hd; [lia|].
  destruct o as [| | | | |m|l|[t|]|fs|l|l|m]; simpl; try lia.
  - pose proof (range_map_bounded update produced n IH parent (depth_map depth m)
                  ltac:(simpl in Hd; lia) (gomap.keys m) m (le_n _)) as H.
    destruct (range_map _ _ _ _ _ _); simpl in *; try exact I; try contradiction. lia.
  - pose proof (range_slice_bounded update produced n IH (depth_list depth l)
                  ltac:(simpl in Hd; lia) l 0 (le_n _)) as H.
    destruct (range_slice _ _ _); simpl in *; try exact I; try contradiction. lia.
  - destruct t as [| | | | | | | |fs| | |]; simpl; try lia.
    unfold walk_struct.
    pose proof (set_URI_bounded update true (depth_fields depth fs) fs (le_n _)) as H1.
    destruct (set_URI update true fs) as [fs1| |]; simpl in *; try exact I; try contradiction.
    pose proof (walk_fields_bounded update produced n IH (depth_fields depth fs)
                  ltac:(lia) fs1 H1) as H2.
    destruct (walk_fields _ fs1); simpl in *; try exact I; try contradiction. lia.
  - unfold walk_struct.
    pose proof (set_URI_bounded update false (depth_fields depth fs) fs (le_n _)) as H1.
    destruct (set_URI update false fs) as [fs1| |]; simpl in *; try exact I; try contradiction.
    pose proof (walk_fields_bounded update produced n IH (depth_fields depth fs)
                  ltac:(simpl in Hd; lia) fs1 H1) as H2.
    destruct (walk_fields _ fs1); simpl in *; try exact I; try contradiction. lia.
Qed.

(** [WalkURIFields] always gives the walk enough fuel. *)
Corollary WalkURIFields_returns_or_panics (produced : string -> bool) (o : value)
    (update : update_fn) :
  WalkURIFields produced o update <> OutOfFuel.
Proof.
  unfold WalkURIFields.
  pose proof (walk_bounded update produced (S (depth o)) o "top" (le_n _)) as H.
  intros E. rewrite E in H. exact H.
Qed.

(** ** Decoded JSON is walked without a panic when there is a rewrite
    function *)

Lemma json_insert (k : string) (v : value) (m : list (string * value)) :
  json v = true ->
  List.forallb (fun kv => json (snd kv)) m = true ->
  List.forallb (fun kv => json (snd kv)) (gomap.insert k v m) = true.
Proof.
  intros Hv. induction m as [|[k' v'] m IH]; simpl; intros Hm.
  - now rewrite Hv.
  - apply andb_true_iff in Hm as [H1 H2].
    destruct (String.eqb k k'); simpl; [now rewrite Hv, H2 | now rewrite H1, IH].
Qed.

Lemma json_delete (k : string) (m : list (string * value)) :
  List.forallb (fun kv => json (snd kv)) m = true ->
  List.forallb (fun kv => json (snd kv)) (gomap.delete k m) = true.
Proof.
  induction m as [|[k' v'] m IH]; simpl; intros Hm; [reflexivity|].
  apply andb_true_iff in Hm as [H1 H2].
  destruct (String.eqb k k'); simpl; [now apply IH | now rewrite H1, IH].
Qed.

Section JsonWalk.
Variable f : DocumentURI -> DocumentURI.
Variable produced : string -> bool.
Variable n : nat.
Hypothesis IHwalk :
  forall o parent,
    json o = true -> depth o < n ->
    exists o', walk produced n (Some f) o parent = Done o' /\ json o' = true.

Lemma map_pass_json (parent k : string) (o : list (string * value)) :
  List.forallb (fun kv => json (snd kv)) o = true ->
  depth_map depth o < n ->
  exists r,
    map_pass (Some f) (walk produced n (Some f)) parent k o = Done r
    /\ List.forallb (fun kv => json (snd kv)) (fst r) = true
    /\ depth_map depth (fst r) <= depth_map depth o.
Proof.
  intros Hj Hd.
  pose proof (map_pass_bounded (Some f) produced n
                (fun o0 p0 H0 => walk_bounded (Some f) produced n o0 p0 H0)
                parent k (depth_map depth o) o Hd (le_n _)) as Hb.
  unfold map_pass in *.
  destruct (gomap.lookup k o) as [v|] eqn:Hl; [|now exists (o, None)].
  pose proof (lookup_In _ _ _ Hl) as Hin.
  pose proof (depth_map_In _ _ _ Hin) as Hv.
  assert (Hjv : json v = true).
  { rewrite forallb_forall in Hj. exact (Hj _ Hin). }
  destruct (if uri_key k then as_string v else None) as [s|].
  - eexists. split; [reflexivity|]. split; [|exact Hb].
    now apply json_insert.
  - destruct (IHwalk v k Hjv ltac:(lia)) as [v' [Hw Hjv']].
    rewrite Hw in *. simpl bind in *.
    destruct (String.eqb parent "changes").
    + eexists. split; [reflexivity|]. split; [|exact Hb]. simpl.
      apply json_insert; [exact Hjv'|]. apply json_insert; [exact Hjv|].
      now apply json_delete.
    + eexists. split; [reflexivity|]. split; [|exact Hb].
      now apply json_insert.
Qed.

Lemma range_map_json (parent : string) :
  forall todo o,
    List.forallb (fun kv => json (snd kv)) o = true ->
    depth_map depth o < n ->
    exists o',
      range_map (Some f) produced (walk produced n (Some f)) parent todo o = Done o'
      /\ List.forallb (fun kv => json (snd kv)) o' = true.
Proof.
  induction todo as [|k todo IH]; intros o Hj Hd; simpl; [now exists o|].
  destruct (map_pass_json parent k o Hj Hd) as [[o1 ins] (Hp & Hj1 & Hd1)].
  rewrite Hp. simpl in Hj1, Hd1 |- *.
  destruct ins as [k'|]; [|apply IH; [exact Hj1 | lia]].
  destruct (produced k'); [|apply IH; [exact Hj1 | lia]].
  destruct (map_pass_json parent k' o1 Hj1 ltac:(lia)) as [[o2 ins2] (Hp2 & Hj2 & Hd2)].
  rewrite Hp2. simpl in Hj2, Hd2 |- *. apply IH; [exact Hj2 | lia].
Qed.

Lemma range_slice_json :
  forall l k,
    List.forallb json l = true ->
    depth_list depth l < n ->
    exists l',
      range_slice (walk produced n (Some f)) k l = Done l'
      /\ List.forallb json l' = true.
Proof.
  induction l as [|v l IH]; intros k Hj Hd; simpl; [now exists []|].
  simpl in Hj, Hd. apply andb_true_iff in Hj as [Hv Hl].
  destruct (IHwalk v (rune_string k) Hv ltac:(lia)) as [v' [Hw Hv']].
  destruct (IH (S k) Hl ltac:(lia)) as [l' [Hr Hl']].
  rewrite Hw. simpl bind. rewrite Hr. simpl bind.
  exists (v' :: l'). split; [reflexivity|]. simpl. now rewrite Hv', Hl'.
Qed.

End JsonWalk.

Lemma walk_json (f : DocumentURI -> DocumentURI) (produced : string -> bool) :
  forall fuel o parent,
    json o = true -> depth o < fuel ->
    exists o', walk produced fuel (Some f) o parent = Done o' /\ json o' = true.
Proof.
  induction fuel as [|n IH]; intros o parent Hj Hd; [lia|].
  destruct o as [| | | | |m|l|t|fs|l|l|m]; try discriminate Hj;
    try (eexists; split; [reflexivity | reflexivity]).
  - simpl in Hj, Hd.
    destruct (range_map_json f produced n IH parent (gomap.keys m) m Hj ltac:(lia))
      as [m' [Hr Hm']].
    simpl. rewrite Hr. simpl. now exists (VMap m').
  - simpl in Hj, Hd.
    destruct (range_slice_json f produced n IH l 0 Hj ltac:(lia)) as [l' [Hr Hl']].
    simpl. rewrite Hr. simpl. now exists (VSlice l').
Qed.

(** With a rewrite function, a decoded JSON payload of any shape is walked
    to the end, in every run. *)
Corollary WalkURIFields_json (f : DocumentURI -> DocumentURI)
    (produced : string -> bool) (o : value) :
  json o = true -> exists o', WalkURIFields produced o (Some f) = Done o'.
Proof.
  intros Hj.
  destruct (walk_json f produced (S (depth o)) o "top" Hj (le_n _)) as [o' [H _]].
  now exists o'.
Qed.

(** * Further properties of the code *)

(** ** The path-prefix helpers *)

Lemma append_eqb_nil (p x : string) : String.eqb (p ++ x) p = String.eqb x "".
Proof.
  destruct x as [|c x].
  - now rewrite append_nil_r, String.eqb_refl.
  - now rewrite append_eqb_self by discriminate.
Qed.

(** X1.  No partial match: for a prefix that is not empty and does not end
    with the separator, a string that extends the prefix lies under it
    exactly when the extension is empty or starts with the separator. *)
Theorem rawHasPrefix_extension :
  forall (p x sep : string),
    String.eqb p "" = false ->
    strings.HasSuffix p sep = false ->
    rawHasPrefix (p ++ x) p sep = String.eqb x "" || strings.HasPrefix x sep.
Proof.
  intros p x sep Hne Hsuf.
  rewrite rawHasPrefix_plain by assumption.
  now rewrite append_eqb_nil, HasPrefix_cancel.
Qed.

Lemma rawHasPrefix_extension_witness :
  rawHasPrefix ("/cache1" ++ "2/x") "/cache1" "/" = false
  /\ rawHasPrefix ("/cache1" ++ "/x") "/cache1" "/" = true.
Proof.
  split.
  - exact (rawHasPrefix_extension "/cache1" "2/x" "/" eq_refl eq_refl).
  - exact (rawHasPrefix_extension "/cache1" "/x" "/" eq_refl eq_refl).
Defined.

(** X2.  What [rawTrimPrefix] cuts off can be put back: when [s] lies
    under a prefix that is not empty and does not end with the separator,
    [s] is the prefix itself (and the rest is empty) or the prefix, the
    separator and the rest that [rawTrimPrefix] returns. *)
Theorem rawTrimPrefix_rest :
  forall (s p sep : string),
    String.eqb p "" = false ->
    strings.HasSuffix p sep = false ->
    rawHasPrefix s p sep = true ->
    (s = p /\ rawTrimPrefix s p sep = "")
    \/ s = p ++ sep ++ rawTrimPrefix s p sep.
Proof.
  intros s p sep Hne Hsuf H.
  rewrite rawHasPrefix_plain in H by assumption.
  unfold rawTrimPrefix.
  destruct (String.eqb s p) eqn:E.
  - left. split; [now apply String.eqb_eq | reflexivity].
  - right. simpl in H. rewrite Hsuf. simpl negb. cbv iota.
    unfold strings.TrimPrefix. rewrite H.
    rewrite <- append_assoc. now apply HasPrefix_split.
Qed.

Lemma rawTrimPrefix_rest_witness :
  ("/cache/S1/a/b.json" = "/cache/S1"
   /\ rawTrimPrefix "/cache/S1/a/b.json" "/cache/S1" "/" = "")
  \/ "/cache/S1/a/b.json"
     = "/cache/S1" ++ "/" ++ rawTrimPrefix "/cache/S1/a/b.json" "/cache/S1" "/".
Proof.
  exact (rawTrimPrefix_rest "/cache/S1/a/b.json" "/cache/S1" "/"
           eq_refl eq_refl eq_refl).
Defined.

Lemma rawTrimPrefix_suffixed_join (p x sep : string) :
  strings.HasSuffix p sep = true -> rawTrimPrefix (p ++ x) p sep = x.
Proof.
  intros Hsuf. unfold rawTrimPrefix. rewrite Hsuf. simpl negb. cbv iota.
  rewrite append_eqb_nil. destruct (String.eqb x "") eqn:E.
  - apply String.eqb_eq in E. now subst x.
  - apply TrimPrefix_append.
Qed.

Lemma rawTrimPrefix_plain_join (p x sep : string) :
  String.eqb sep "" = false ->
  strings.HasSuffix p sep = false -> rawTrimPrefix (p ++ sep ++ x) p sep = x.
Proof.
  intros Hsep Hsuf. unfold rawTrimPrefix. rewrite Hsuf. simpl negb. cbv iota.
  rewrite append_eqb_nil.
  assert (E : String.eqb (sep ++ x) "" = false).
  { destruct sep; [discriminate Hsep | reflexivity]. }
  rewrite E, <- append_assoc. apply TrimPrefix_append.
Qed.

(** X3.  [rawTrimPrefix] undoes the joining of a prefix and a rest: with
    the separator between them when the prefix does not end with it, and
    without when it does. *)
Theorem rawTrimPrefix_joined :
  forall (p x sep : string),
    String.eqb sep "" = false ->
    rawTrimPrefix
      (if strings.HasSuffix p sep then p ++ x else p ++ sep ++ x) p sep = x.
Proof.
  intros p x sep Hsep.
  destruct (strings.HasSuffix p sep) eqn:Hsuf.
  - now apply rawTrimPrefix_suffixed_join.
  - now apply rawTrimPrefix_plain_join.
Qed.

Lemma rawTrimPrefix_joined_witness :
  rawTrimPrefix ("/cache/S1" ++ "/" ++ "a/b.json") "/cache/S1" "/" = "a/b.json"
  /\ rawTrimPrefix ("/cache/S1/" ++ "a/b.json") "/cache/S1/" "/" = "a/b.json".
Proof.
  split.
  - exact (rawTrimPrefix_joined "/cache/S1" "a/b.json" "/" eq_refl).
  - exact (rawTrimPrefix_joined "/cache/S1/" "a/b.json" "/" eq_refl).
Defined.

(** X4.  [rawTrimPrefix] leaves alone every string that does not lie
    under the prefix. *)
Theorem rawTrimPrefix_outside :
  forall (s p sep : string),
    rawHasPrefix s p sep = false -> rawTrimPrefix s p sep = s.
Proof.
  intros s p sep H. unfold rawHasPrefix in H.
  apply orb_false_iff in H as [Heq Hpre].
  unfold rawTrimPrefix. rewrite Heq.
  destruct (negb (String.eqb p "") && negb (strings.HasSuffix p sep)) eqn:G.
  - apply andb_true_iff in G as [_ G]. rewrite G.
    unfold strings.TrimPrefix. now rewrite Hpre.
  - simpl in Hpre. discriminate.
Qed.

Lemma rawTrimPrefix_outside_witness :
  rawTrimPrefix "/cache12/x" "/cache1" "/" = "/cache12/x".
Proof. exact (rawTrimPrefix_outside "/cache12/x" "/cache1" "/" eq_refl). Defined.

Lemma HasPrefix_trans (a b c : string) :
  strings.HasPrefix a b = true -> strings.HasPrefix b c = true ->
  strings.HasPrefix a c = true.
Proof.
  intros Hab Hbc. rewrite (HasPrefix_split _ _ Hab), (HasPrefix_split _ _ Hbc).
  rewrite append_assoc. apply HasPrefix_append.
Qed.

(** X5.  Lying under a prefix is transitive for prefixes that are not
    empty and do not end with the separator: what lies under [b] lies
    under everything [b] lies under. *)
Theorem rawHasPrefix_transitive :
  forall (a b c sep : string),
    String.eqb b "" = false -> strings.HasSuffix b sep = false ->
    String.eqb c "" = false -> strings.HasSuffix c sep = false ->
    rawHasPrefix a b sep = true ->
    rawHasPrefix b c sep = true ->
    rawHasPrefix a c sep = true.
Proof.
  intros a b c sep Hb Hbs Hc Hcs Hab Hbc.
  rewrite rawHasPrefix_plain in * by assumption.
  apply orb_true_iff in Hab as [Hab | Hab].
  - apply String.eqb_eq in Hab. subst a. exact Hbc.
  - apply orb_true_iff. right.
    apply orb_true_iff in Hbc as [Hbc | Hbc].
    + apply String.eqb_eq in Hbc. now subst b.
    + apply (HasPrefix_trans a (b ++ sep) (c ++ sep) Hab).
      rewrite (HasPrefix_split _ _ Hbc), append_assoc. apply HasPrefix_append.
Qed.

Lemma rawHasPrefix_transitive_witness :
  rawHasPrefix "/cache/S1/src/a.go" "/cache" "/" = true.
Proof.
  exact (rawHasPrefix_transitive "/cache/S1/src/a.go" "/cache/S1" "/cache" "/"
           eq_refl eq_refl eq_refl eq_refl eq_refl eq_refl).
Defined.

(** ** The translators on identifiers in canonical spelling *)

Lemma canonical_intro (scheme h P q f : string) (force : bool) :
  (scheme = "" \/ scheme = "file") ->
  plain_host h = true ->
  clean_rooted P = true ->
  absent "#" q = true ->
  implb force (String.eqb q "") = true ->
  canonical (url.mkURL scheme "" None h P "" force q f) = true.
Proof.
  intros Hs Hh HP Hq Hf. unfold canonical.
  cbn [url.Scheme url.Opaque url.User url.Host url.Path url.RawPath
       url.ForceQuery url.RawQuery url.Fragment].
  rewrite Hh, HP, Hq, Hf. destruct Hs as [-> | ->]; reflexivity.
Qed.

(** What [clientToServerURI] does to an identifier in canonical spelling. *)
Lemma toServer_canonical (id c : string) :
  canonical_id id = true -> clean_rooted c = true ->
  exists u,
    url.Parse id = Some u /\ canonical u = true /\ url.String_ u = id
    /\ toServer c id = url.String_ (url.set_Path u (path.Join c (url.Path u)))
    /\ url.Parse (toServer c id) = Some (url.set_Path u (path.Join c (url.Path u)))
    /\ canonical (url.set_Path u (path.Join c (url.Path u))) = true.
Proof.
  intros Hid Hc. unfold canonical_id in Hid.
  destruct (url.Parse id) as [u|] eqn:HP; [|discriminate].
  apply andb_true_iff in Hid as [Hu Hstr]. apply String.eqb_eq in Hstr.
  exists u. split; [reflexivity|]. split; [exact Hu|]. split; [exact Hstr|].
  destruct (canonical_inv u Hu)
    as (scheme & h & P & q & f & force & -> & Hs & Hh & HPc & Hq & Hf).
  pose proof (probablyFileURI_canonical scheme h P q f force Hs HPc) as Hfile.
  unfold toServer. rewrite (clientToServerURI_file id c _ HP Hfile).
  unfold returned, ret. simpl fst. unfold url.set_Path. simpl.
  destruct (path_roundtrip_client c P Hc HPc) as (HP1 & _ & _).
  split; [reflexivity|]. split.
  - now apply Parse_canonical.
  - now apply canonical_intro.
Qed.

(** What [serverToClientURI] does to an identifier in canonical spelling
    whose path lies in the cache directory. *)
Lemma toClient_canonical (id c : string) :
  canonical_id id = true -> clean_rooted c = true ->
  pathHasPrefix (path_of id) c = true ->
  exists u,
    url.Parse id = Some u /\ canonical u = true /\ url.String_ u = id
    /\ let u' := url.set_Path u (path.Join "/" (pathTrimPrefix (url.Path u) c)) in
       toClient c id = url.String_ u'
       /\ url.Parse (toClient c id) = Some u'
       /\ canonical u' = true.
Proof.
  intros Hid Hc Hpre. unfold canonical_id in Hid. unfold path_of in Hpre.
  destruct (url.Parse id) as [u|] eqn:HP; [|discriminate].
  apply andb_true_iff in Hid as [Hu Hstr]. apply String.eqb_eq in Hstr.
  exists u. split; [reflexivity|]. split; [exact Hu|]. split; [exact Hstr|].
  destruct (canonical_inv u Hu)
    as (scheme & h & P & q & f & force & -> & Hs & Hh & HPc & Hq & Hf).
  pose proof (probablyFileURI_canonical scheme h P q f force Hs HPc) as Hfile.
  unfold toClient. rewrite (serverToClientURI_file id c _ HP Hfile).
  simpl url.Path in *. rewrite Hpre.
  unfold returned, ret. simpl fst. unfold url.set_Path. simpl.
  destruct (path_roundtrip_server c P Hc HPc Hpre) as (Hp1 & _).
  split; [reflexivity|]. split.
  - now apply Parse_canonical.
  - now apply canonical_intro.
Qed.

Lemma toClient_toServer (id c : string) :
  canonical_id id = true -> clean_rooted c = true ->
  toClient c (toServer c id) = id.
Proof.
  intros Hid Hc.
  destruct (toServer_canonical id c Hid Hc) as (u & HP & Hu & Hstr & Hto & HP' & Hu').
  destruct (canonical_inv u Hu)
    as (scheme & h & P & q & f & force & -> & Hs & Hh & HPc & Hq & Hf).
  unfold url.set_Path in *. simpl in HP', Hu', Hto.
  destruct (path_roundtrip_client c P Hc HPc) as (HP1 & Hpre & Hback).
  pose proof (probablyFileURI_canonical scheme h (path.Join c P) q f force Hs HP1) as Hfile'.
  unfold toClient. rewrite (serverToClientURI_file _ c _ HP' Hfile').
  unfold returned, ret. simpl fst. simpl url.Path. rewrite Hpre.
  unfold url.set_Path. simpl. rewrite Hback. exact Hstr.
Qed.

Lemma toServer_toClient (id c : string) :
  canonical_id id = true -> clean_rooted c = true ->
  pathHasPrefix (path_of id) c = true ->
  toServer c (toClient c id) = id.
Proof.
  intros Hid Hc Hpre.
  destruct (toClient_canonical id c Hid Hc Hpre)
    as (u & HP & Hu & Hstr & Hto & HP' & Hu').
  unfold path_of in Hpre. rewrite HP in Hpre.
  destruct (canonical_inv u Hu)
    as (scheme & h & P & q & f & force & -> & Hs & Hh & HPc & Hq & Hf).
  unfold url.set_Path in *. simpl in HP', Hu', Hto, Hpre.
  destruct (path_roundtrip_server c P Hc HPc Hpre) as (Hp1 & Hback).
  pose proof (probablyFileURI_canonical scheme h _ q f force Hs Hp1) as Hfile'.
  unfold toServer. rewrite (clientToServerURI_file _ c _ HP' Hfile').
  unfold returned, ret. simpl fst. unfold url.set_Path. simpl.
  rewrite Hback. exact Hstr.
Qed.

(** X6.  [clientToServerURI] moves a canonical identifier into the cache
    directory and changes nothing else: the result is again in canonical
    spelling, it parses to the URL of the identifier with only the path
    replaced, and the new path lies under the cache directory; it is the
    cache directory followed by the old path (the cache directory alone
    for the root path). *)
Theorem clientToServerURI_into_cache :
  forall (id : DocumentURI) (c : string),
    canonical_id id = true ->
    clean_rooted c = true ->
    let id' := returned (clientToServerURI id c) in
    canonical_id id' = true
    /\ url.Parse id'
       = option_map (fun u => url.set_Path u (path.Join c (url.Path u))) (url.Parse id)
    /\ pathHasPrefix (path_of id') c = true
    /\ path_of id'
       = (if String.eqb (path_of id) "/" then c
          else if String.eqb c "/" then path_of id else c ++ path_of id).
Proof.
  intros id c Hid Hc id'.
  destruct (toServer_canonical id c Hid Hc) as (u & HP & Hu & Hstr & Hto & HP' & Hu').
  fold (toServer c id) in id'. subst id'.
  destruct (canonical_inv u Hu)
    as (scheme & h & P & q & f & force & -> & Hs & Hh & HPc & Hq & Hf).
  destruct (path_roundtrip_client c P Hc HPc) as (HP1 & Hpre & Hback).
  unfold canonical_id, path_of. rewrite HP', HP. simpl option_map.
  split; [|split; [reflexivity|split]].
  - rewrite Hu', Hto. now rewrite String.eqb_refl.
  - exact Hpre.
  - simpl. now apply Join_clean_rooted.
Qed.

Lemma clientToServerURI_into_cache_witness :
  let id' := returned (clientToServerURI "file:///src/main.go?rev=1#L10" "/cache/S1") in
  canonical_id id' = true
  /\ url.Parse id'
     = option_map (fun u => url.set_Path u (path.Join "/cache/S1" (url.Path u)))
         (url.Parse "file:///src/main.go?rev=1#L10")
  /\ pathHasPrefix (path_of id') "/cache/S1" = true
  /\ path_of id'
     = (if String.eqb (path_of "file:///src/main.go?rev=1#L10") "/" then "/cache/S1"
        else if String.eqb "/cache/S1" "/" then path_of "file:///src/main.go?rev=1#L10"
        else "/cache/S1" ++ path_of "file:///src/main.go?rev=1#L10").
Proof.
  exact (clientToServerURI_into_cache "file:///src/main.go?rev=1#L10" "/cache/S1"
           eq_refl eq_refl).
Defined.

(** X7.  [serverToClientURI] takes a canonical identifier of the cache
    directory out of it and changes nothing else: the result is again in
    canonical spelling, it parses to the URL of the identifier with only
    the path replaced, and joining the cache directory to the new path
    gives the old path. *)
Theorem serverToClientURI_out_of_cache :
  forall (id : DocumentURI) (c : string),
    canonical_id id = true ->
    clean_rooted c = true ->
    pathHasPrefix (path_of id) c = true ->
    let id' := returned (serverToClientURI id c) in
    canonical_id id' = true
    /\ url.Parse id'
       = option_map
           (fun u => url.set_Path u (path.Join "/" (pathTrimPrefix (url.Path u) c)))
           (url.Parse id)
    /\ path.Join c (path_of id') = path_of id.
Proof.
  intros id c Hid Hc Hpre id'.
  destruct (toClient_canonical id c Hid Hc Hpre)
    as (u & HP & Hu & Hstr & Hto & HP' & Hu').
  fold (toClient c id) in id'. subst id'.
  unfold path_of in Hpre |- *. unfold canonical_id. rewrite HP', HP in *.
  simpl option_map.
  split; [|split; [reflexivity|]].
  - rewrite Hu', Hto. now rewrite String.eqb_refl.
  - destruct (canonical_inv u Hu)
      as (scheme & h & P & q & f & force & -> & Hs & Hh & HPc & Hq & Hf).
    simpl in *. now destruct (path_roundtrip_server c P Hc HPc Hpre).
Qed.

Lemma serverToClientURI_out_of_cache_witness :
  let id' := returned (serverToClientURI "file:///cache/S1/src/main.go#L10" "/cache/S1") in
  canonical_id id' = true
  /\ url.Parse id'
     = option_map
         (fun u => url.set_Path u
                     (path.Join "/" (pathTrimPrefix (url.Path u) "/cache/S1")))
         (url.Parse "file:///cache/S1/src/main.go#L10")
  /\ path.Join "/cache/S1" (path_of id') = path_of "file:///cache/S1/src/main.go#L10".
Proof.
  exact (serverToClientURI_out_of_cache "file:///cache/S1/src/main.go#L10" "/cache/S1"
           eq_refl eq_refl eq_refl).
Defined.

(** X8.  [serverToClientURI] returns a canonical identifier whose path
    does not lie in the cache directory as it is. *)
Theorem serverToClientURI_outside_cache :
  forall (id : DocumentURI) (c : string),
    canonical_id id = true ->
    pathHasPrefix (path_of id) c = false ->
    returned (serverToClientURI id c) = id.
Proof.
  intros id c Hid Hpre. unfold canonical_id in Hid. unfold path_of in Hpre.
  destruct (url.Parse id) as [u|] eqn:HP; [|discriminate].
  apply andb_true_iff in Hid as [Hu Hstr]. apply String.eqb_eq in Hstr.
  destruct (canonical_inv u Hu)
    as (scheme & h & P & q & f & force & -> & Hs & Hh & HPc & Hq & Hf).
  pose proof (probablyFileURI_canonical scheme h P q f force Hs HPc) as Hfile.
  rewrite (serverToClientURI_file id c _ HP Hfile).
  simpl url.Path in *. rewrite Hpre. exact Hstr.
Qed.

Lemma serverToClientURI_outside_cache_witness :
  returned (serverToClientURI "file:///cache/S12/a.json" "/cache/S1")
  = "file:///cache/S12/a.json".
Proof.
  exact (serverToClientURI_outside_cache "file:///cache/S12/a.json" "/cache/S1"
           eq_refl eq_refl).
Defined.

(** X9.  [clientToServerURI] never sends two canonical identifiers to the
    same server identifier. *)
Theorem clientToServerURI_injective :
  forall (a b : DocumentURI) (c : string),
    canonical_id a = true ->
    canonical_id b = true ->
    clean_rooted c = true ->
    returned (clientToServerURI a c) = returned (clientToServerURI b c) ->
    a = b.
Proof.
  intros a b c Ha Hb Hc E. fold (toServer c a) (toServer c b) in E.
  rewrite <- (toClient_toServer a c Ha Hc), <- (toClient_toServer b c Hb Hc).
  now rewrite E.
Qed.

Lemma clientToServerURI_injective_witness :
  "file:///a.json" = "file:///a.json".
Proof.
  exact (clientToServerURI_injective "file:///a.json" "file:///a.json" "/cache/S1"
           eq_refl eq_refl eq_refl eq_refl).
Defined.

(** X10.  [serverToClientURI] never sends two canonical identifiers of the
    cache directory to the same client identifier. *)
Theorem serverToClientURI_injective :
  forall (a b : DocumentURI) (c : string),
    canonical_id a = true ->
    canonical_id b = true ->
    clean_rooted c = true ->
    pathHasPrefix (path_of a) c = true ->
    pathHasPrefix (path_of b) c = true ->
    returned (serverToClientURI a c) = returned (serverToClientURI b c) ->
    a = b.
Proof.
  intros a b c Ha Hb Hc Hpa Hpb E. fold (toClient c a) (toClient c b) in E.
  rewrite <- (toServer_toClient a c Ha Hc Hpa), <- (toServer_toClient b c Hb Hc Hpb).
  now rewrite E.
Qed.

Lemma serverToClientURI_injective_witness :
  "file:///cache/S1/a.json" = "file:///cache/S1/a.json".
Proof.
  exact (serverToClientURI_injective
           "file:///cache/S1/a.json" "file:///cache/S1/a.json" "/cache/S1"
           eq_refl eq_refl eq_refl eq_refl eq_refl eq_refl).
Defined.

(** X11.  With the root as cache directory both translators return every
    canonical identifier as it is. *)
Theorem root_cache_is_identity :
  forall (id : DocumentURI),
    canonical_id id = true ->
    returned (clientToServerURI id "/") = id
    /\ returned (serverToClientURI id "/") = id.
Proof.
  intros id Hid.
  assert (Hc : clean_rooted "/" = true) by reflexivity.
  assert (Hto : toServer "/" id = id).
  { destruct (toServer_canonical id "/" Hid Hc)
      as (u & HP & Hu & Hstr & Hto & _).
    destruct (canonical_inv u Hu)
      as (scheme & h & P & q & f & force & -> & Hs & Hh & HPc & Hq & Hf).
    rewrite Hto. unfold url.set_Path. simpl.
    rewrite (Join_clean_rooted "/" P Hc HPc).
    change (String.eqb "/" "/") with true. cbv iota.
    destruct (String.eqb P "/") eqn:E; [|exact Hstr].
    apply String.eqb_eq in E. now subst P. }
  split; [exact Hto|].
  fold (toClient "/" id). rewrite <- Hto at 1. now apply toClient_toServer.
Qed.

Lemma root_cache_is_identity_witness :
  returned (clientToServerURI "file:///src/main.go" "/") = "file:///src/main.go"
  /\ returned (serverToClientURI "file:///src/main.go" "/") = "file:///src/main.go".
Proof. exact (root_cache_is_identity "file:///src/main.go" eq_refl). Defined.

(** ** The session's cache directory *)

Lemma append_cancel (a x y : string) : a ++ x = a ++ y -> x = y.
Proof.
  induction a as [|c a IH]; simpl; intros H; [exact H|].
  injection H as H. now apply IH.
Qed.

(** Two strings without a slash that are followed by nothing or by a
    slash, and give the same string, are the same. *)
Lemma element_end (a b t t' : string) :
  absent "/" a = true -> absent "/" b = true ->
  path.at_boundary t = true -> path.at_boundary t' = true ->
  a ++ t = b ++ t' -> a = b.
Proof.
  revert b. induction a as [|x a IH]; intros b Ha Hb Ht Ht' E.
  - destruct b as [|y b]; [reflexivity|]. simpl in E. subst t.
    simpl in Ht. apply Ascii.eqb_eq in Ht. subst y. discriminate Hb.
  - destruct b as [|y b].
    + simpl in E. subst t'. simpl in Ht'. apply Ascii.eqb_eq in Ht'. subst x.
      discriminate Ha.
    + simpl in E. injection E as -> E. f_equal.
      destruct (Ascii.eqb y "/") eqn:Ey.
      * apply Ascii.eqb_eq in Ey. subst y. discriminate Ha.
      * rewrite absent_cons in Ha, Hb by exact Ey. now apply IH.
Qed.

(** A string that is [c] or continues [c] after a slash. *)
Lemma boundary_inv (s c : string) :
  String.eqb s c || strings.HasPrefix s (c ++ "/") = true ->
  exists t, s = c ++ t /\ path.at_boundary t = true.
Proof.
  intros H. apply orb_true_iff in H as [H | H].
  - apply String.eqb_eq in H. subst s. exists "". now rewrite append_nil_r.
  - apply HasPrefix_split in H. rewrite append_assoc in H.
    eexists. split; [exact H | reflexivity].
Qed.

(** The directory of a session under a cache root in cleaned form. *)
Lemma workspaceCacheDir_element (root : string) (p : cloneProxy) :
  clean_rooted root = true -> element (sessionID p) = true ->
  workspaceCacheDir root p
  = (if String.eqb root "/" then "" else root) ++ "/" ++ sessionID p
  /\ clean_rooted (workspaceCacheDir root p) = true.
Proof.
  intros Hr Hk. apply andb_true_iff in Hk as [Hk _].
  destruct p as [k]. simpl in *.
  destruct (clean_rooted_inv root Hr) as [rs [-> Hrs]].
  unfold workspaceCacheDir, filepath.Join. simpl sessionID.
  change (String.eqb (String "/" rs) "/") with (String.eqb rs "").
  destruct Hrs as [-> | Hrs].
  - change (path.Join "/" k = String "/" k /\ clean_rooted (path.Join "/" k) = true).
    rewrite Join_root by now right.
    split; [reflexivity|]. apply clean_rooted_intro. now right.
  - pose proof (scan_nonempty AfterSlash rs ltac:(discriminate) Hrs) as Hne.
    apply String.eqb_neq in Hne. rewrite Hne.
    assert (Hc : clean_rooted (String "/" rs ++ "/" ++ k) = true).
    { change (String "/" rs ++ "/" ++ k) with (String "/" (rs ++ String "/" k)).
      apply clean_rooted_intro. right.
      now rewrite (scan_app rs (String "/" k) AfterSlash Hrs). }
    unfold path.Join. simpl negb. cbv iota.
    rewrite (Clean_clean_rooted _ Hc). split; [reflexivity | exact Hc].
Qed.

Lemma clean_rooted_plain (p : string) :
  clean_rooted p = true -> String.eqb p "/" = false ->
  String.eqb p "" = false /\ strings.HasSuffix p "/" = false.
Proof.
  intros Hp Hne. destruct (clean_rooted_inv p Hp) as [ps [-> Hps]].
  split; [reflexivity|].
  destruct Hps as [-> | Hps]; [discriminate Hne|].
  now apply clean_rooted_no_slash_end.
Qed.

Lemma workspaceCacheDir_not_root (root : string) (p : cloneProxy) :
  clean_rooted root = true -> element (sessionID p) = true ->
  String.eqb (workspaceCacheDir root p) "/" = false.
Proof.
  intros Hr Hk. destruct (workspaceCacheDir_element root p Hr Hk) as [-> _].
  apply andb_true_iff in Hk as [Hk _].
  pose proof (scan_nonempty AfterSlash _ ltac:(discriminate) Hk) as Hne.
  destruct (sessionID p) as [|x k]; [contradiction|].
  destruct (String.eqb root "/").
  - reflexivity.
  - destruct (clean_rooted_inv root Hr) as [rs [-> _]].
    destruct rs; reflexivity.
Qed.

(** X12.  For a cache root that is a rooted path in cleaned form and a
    session key that is a single path element, the session's cache
    directory is the root, a slash and the key; it is itself a rooted path
    in cleaned form, lies under the root, and the key is what is left of
    it when the root is cut off. *)
Theorem workspaceCacheDir_under_root :
  forall (root : string) (p : cloneProxy),
    clean_rooted root = true ->
    element (sessionID p) = true ->
    workspaceCacheDir root p
    = (if String.eqb root "/" then "" else root) ++ "/" ++ sessionID p
    /\ clean_rooted (workspaceCacheDir root p) = true
    /\ filepathHasPrefix (workspaceCacheDir root p) root = true
    /\ filepathTrimPrefix (workspaceCacheDir root p) root = sessionID p.
Proof.
  intros root p Hr Hk.
  destruct (workspaceCacheDir_element root p Hr Hk) as [E Hc].
  split; [exact E|]. split; [exact Hc|]. rewrite E.
  unfold filepathHasPrefix, filepathTrimPrefix, os.PathSeparator.
  destruct (String.eqb root "/") eqn:Er.
  - apply String.eqb_eq in Er. subst root. split.
    + now apply rawHasPrefix_suffixed.
    + exact (rawTrimPrefix_suffixed_join "/" (sessionID p) "/" eq_refl).
  - destruct (clean_rooted_plain root Hr Er) as [Hne Hsuf]. split.
    + rewrite rawHasPrefix_plain by assumption.
      rewrite <- append_assoc, HasPrefix_append. apply orb_true_r.
    + exact (rawTrimPrefix_plain_join root (sessionID p) "/" eq_refl Hsuf).
Qed.

Lemma workspaceCacheDir_under_root_witness :
  workspaceCacheDir "/cache" (mkCloneProxy "8c7b1bd2-S1") = "/cache/8c7b1bd2-S1"
  /\ clean_rooted (workspaceCacheDir "/cache" (mkCloneProxy "8c7b1bd2-S1")) = true
  /\ filepathHasPrefix (workspaceCacheDir "/cache" (mkCloneProxy "8c7b1bd2-S1")) "/cache"
     = true
  /\ filepathTrimPrefix (workspaceCacheDir "/cache" (mkCloneProxy "8c7b1bd2-S1")) "/cache"
     = "8c7b1bd2-S1".
Proof.
  exact (workspaceCacheDir_under_root "/cache" (mkCloneProxy "8c7b1bd2-S1")
           eq_refl eq_refl).
Defined.

(** The directories of two sessions with different keys: nothing is in
    both, or under both. *)
Lemma sessions_apart (root s : string) (a b : cloneProxy) :
  clean_rooted root = true ->
  element (sessionID a) = true -> element (sessionID b) = true ->
  sessionID a <> sessionID b ->
  boundary_prefix (workspaceCacheDir root a) s = true ->
  boundary_prefix (workspaceCacheDir root b) s = false.
Proof.
  intros Hr Ha Hb Hne Hin.
  destruct (boundary_prefix (workspaceCacheDir root b) s) eqn:Hin'; [|reflexivity].
  exfalso. apply Hne.
  destruct (workspaceCacheDir_element root a Hr Ha) as [Ea _].
  destruct (workspaceCacheDir_element root b Hr Hb) as [Eb _].
  rewrite Ea in Hin. rewrite Eb in Hin'.
  apply boundary_inv in Hin as (t & Et & Ht).
  apply boundary_inv in Hin' as (t' & Et' & Ht').
  rewrite Et in Et'. rewrite !append_assoc in Et'.
  apply append_cancel in Et'.
  change ("/" ++ sessionID a ++ t = "/" ++ sessionID b ++ t') in Et'.
  apply append_cancel in Et'.
  apply andb_true_iff in Ha as [_ Ha]. apply andb_true_iff in Hb as [_ Hb].
  exact (element_end _ _ t t' Ha Hb Ht Ht' Et').
Qed.

(** X13.  Sessions with different keys have cache directories that do not
    contain one another: neither directory lies under the other. *)
Theorem workspaceCacheDir_sessions_disjoint :
  forall (root : string) (a b : cloneProxy),
    clean_rooted root = true ->
    element (sessionID a) = true ->
    element (sessionID b) = true ->
    sessionID a <> sessionID b ->
    filepathHasPrefix (workspaceCacheDir root a) (workspaceCacheDir root b) = false.
Proof.
  intros root a b Hr Ha Hb Hne.
  destruct (workspaceCacheDir_element root b Hr Hb) as [_ Hcb].
  destruct (clean_rooted_plain _ Hcb (workspaceCacheDir_not_root root b Hr Hb))
    as [Hb1 Hb2].
  unfold filepathHasPrefix, os.PathSeparator.
  rewrite rawHasPrefix_plain by assumption.
  apply (sessions_apart root (workspaceCacheDir root a) a b Hr Ha Hb Hne).
  unfold boundary_prefix. now rewrite String.eqb_refl.
Qed.

Lemma workspaceCacheDir_sessions_disjoint_witness :
  filepathHasPrefix (workspaceCacheDir "/cache" (mkCloneProxy "S12"))
                    (workspaceCacheDir "/cache" (mkCloneProxy "S1")) = false.
Proof.
  apply (workspaceCacheDir_sessions_disjoint "/cache"
           (mkCloneProxy "S12") (mkCloneProxy "S1") eq_refl eq_refl eq_refl).
  discriminate.
Defined.

(** X14.  Cleaning the cache of one session leaves the cache of every
    other session alone, whether or not the removal fails: every entry in
    or under the directory of a session with a different key is still
    there afterwards. *)
Theorem cleanWorkspaceCache_keeps_other_sessions :
  forall (root : string) (a b : cloneProxy) (fs : os.FS) (e : os.entry),
    clean_rooted root = true ->
    element (sessionID a) = true ->
    element (sessionID b) = true ->
    sessionID a <> sessionID b ->
    In e fs ->
    os.within (workspaceCacheDir root b) e = true ->
    In e (fst (returned (cleanWorkspaceCache root a fs))).
Proof.
  intros root a b fs e Hr Ha Hb Hne Hin Hw.
  unfold cleanWorkspaceCache, log_Println, returned, os.RemoveAll. simpl fst.
  apply filter_In. split; [exact Hin|].
  unfold os.survives.
  assert (H : os.within (workspaceCacheDir root a) e = false).
  { apply (sessions_apart root (os.name e) b a Hr Hb Ha); [congruence | exact Hw]. }
  now rewrite H.
Qed.

Lemma cleanWorkspaceCache_keeps_other_sessions_witness :
  In (os.mkEntry "/cache/S2/a.json" true)
     (fst (returned (cleanWorkspaceCache "/cache" (mkCloneProxy "S1")
                       [os.mkEntry "/cache/S1/a.json" true;
                        os.mkEntry "/cache/S2/a.json" true]))).
Proof.
  apply (cleanWorkspaceCache_keeps_other_sessions "/cache"
           (mkCloneProxy "S1") (mkCloneProxy "S2")
           [os.mkEntry "/cache/S1/a.json" true; os.mkEntry "/cache/S2/a.json" true]
           (os.mkEntry "/cache/S2/a.json" true) eq_refl eq_refl eq_refl).
  - discriminate.
  - simpl. right. left. reflexivity.
  - reflexivity.
Defined.

(** X15.  The translators undo one another with a session's cache
    directory: for a cache root that is a rooted path in cleaned form and
    a session key that is a single path element, a canonical client
    identifier sent to the server and back is the same identifier, and
    on the server its path lies in the session's directory. *)
Theorem session_round_trip :
  forall (root : string) (p : cloneProxy) (id : DocumentURI),
    clean_rooted root = true ->
    element (sessionID p) = true ->
    canonical_id id = true ->
    let dir := workspaceCacheDir root p in
    returned (serverToClientURI (returned (clientToServerURI id dir)) dir) = id
    /\ filepathHasPrefix (path_of (returned (clientToServerURI id dir))) dir = true.
Proof.
  intros root p id Hr Hk Hid dir.
  destruct (workspaceCacheDir_element root p Hr Hk) as [_ Hc]. fold dir in Hc.
  split.
  - exact (toClient_toServer id dir Hid Hc).
  - destruct (toServer_canonical id dir Hid Hc) as (u & HP & Hu & _ & _ & HP' & _).
    fold (toServer dir id). unfold path_of. rewrite HP'.
    destruct (canonical_inv u Hu)
      as (scheme & h & P & q & f & force & -> & Hs & Hh & HPc & Hq & Hf).
    simpl. now destruct (path_roundtrip_client dir P Hc HPc) as (_ & Hpre & _).
Qed.

Lemma session_round_trip_witness :
  let dir := workspaceCacheDir "/cache" (mkCloneProxy "S1") in
  returned (serverToClientURI (returned (clientToServerURI "file:///a.json" dir)) dir)
  = "file:///a.json"
  /\ filepathHasPrefix (path_of (returned (clientToServerURI "file:///a.json" dir))) dir
     = true.
Proof.
  exact (session_round_trip "/cache" (mkCloneProxy "S1") "file:///a.json"
           eq_refl eq_refl eq_refl).
Defined.

(** ** The walker without a rewrite function *)

Lemma rune_string_not_changes (k : nat) : String.eqb (rune_string k) "changes" = false.
Proof.
  destruct (String.eqb (rune_string k) "changes") eqn:E; [|reflexivity].
  apply String.eqb_eq in E. exfalso.
  assert (Hlen : String.length (rune_string k) <= 4).
  { unfold rune_string.
    repeat match goal with |- context [if ?b then _ else _] => destruct b end;
      simpl; lia. }
  rewrite E in Hlen. simpl in Hlen. lia.
Qed.

Lemma set_URI_nil (addressable : bool) (fs : list (field value)) :
  set_URI None addressable fs = Done fs.
Proof.
  induction fs as [|fld fs IH]; simpl; [reflexivity|].
  destruct (String.eqb (fname fld) "URI").
  - destruct (Kind_eqb (field_kind fld) String_); [|reflexivity].
    now destruct (as_string (fvalue fld)).
  - now rewrite IH.
Qed.

Section NilWalk.
Variable produced : string -> bool.
Variable n : nat.
Hypothesis IHwalk :
  forall v parent, depth v < n -> untouched v (walk produced n None v parent).

Lemma map_pass_nil (parent k : string) (o : list (string * value)) :
  depth_map depth o < n ->
  untouched (o, None) (map_pass None (walk produced n None) parent k o).
Proof.
  intros Hd. unfold map_pass.
  destruct (gomap.lookup k o) as [v|] eqn:Hl; [|now left].
  destruct (if uri_key k then as_string v else None); [now left|].
  destruct (String.eqb parent "changes"); [now right|].
  pose proof (depth_map_In _ _ _ (lookup_In _ _ _ Hl)) as Hv.
  destruct (IHwalk v k ltac:(lia)) as [-> | ->]; [|now right].
  left. simpl. now rewrite (insert_lookup_same _ _ _ Hl).
Qed.

Lemma range_map_nil (parent : string) (o : list (string * value)) :
  depth_map depth o < n ->
  forall todo,
    untouched o (range_map None produced (walk produced n None) parent todo o).
Proof.
  intros Hd. induction todo as [|k todo IH]; simpl; [now left|].
  destruct (map_pass_nil parent k o Hd) as [-> | ->]; [|now right].
  simpl. exact IH.
Qed.

Lemma range_slice_nil (l : list value) :
  depth_list depth l < n ->
  forall k, untouched l (range_slice (walk produced n None) k l).
Proof.
  induction l as [|v l IH]; intros Hd k; simpl; [now left|].
  simpl in Hd.
  destruct (IHwalk v (rune_string k) ltac:(lia)) as [-> | ->]; [|now right]. simpl.
  destruct (IH ltac:(lia) (S k)) as [-> | ->]; [now left | now right].
Qed.

Lemma walk_fields_nil (fs : list (field value)) :
  depth_fields depth fs < n ->
  untouched fs (walk_fields (walk produced n None) fs).
Proof.
  induction fs as [|fld fs IH]; intros Hd; simpl; [now left|].
  simpl in Hd.
  assert (H : untouched fld
                (match field_kind fld with
                 | Ptr | Struct | Array =>
                     if exported fld
                     then v' <- walk produced n None (fvalue fld) "n/a" ;;
                          Done (mkField (fname fld) (fiface fld) v')
                     else Panic
                 | _ => Done fld
                 end)).
  { destruct (field_kind fld); try (now left);
      (destruct (exported fld); [|now right];
       destruct (IHwalk (fvalue fld) "n/a" ltac:(lia)) as [-> | ->]; [|now right];
       left; now destruct fld). }
  destruct H as [-> | ->]; [|now right]. simpl.
  destruct (IH ltac:(lia)) as [-> | ->]; [now left | now right].
Qed.

End NilWalk.

Lemma walk_nil (produced : string -> bool) :
  forall fuel o parent,
    depth o < fuel -> untouched o (walk produced fuel None o parent).
Proof.
  induction fuel as [|n IH]; intros o parent Hd; [lia|].
  destruct o as [| | | | |m|l|[t|]|fs|l|l|m]; simpl; try (now left).
  - simpl in Hd.
    destruct (range_map_nil produced n IH parent m ltac:(lia) (gomap.keys m))
      as [-> | ->]; [now left | now right].
  - simpl in Hd.
    destruct (range_slice_nil produced n IH l ltac:(lia) 0) as [-> | ->];
      [now left | now right].
  - destruct t as [| | | | | | | |fs| | |]; try (now left).
    simpl in Hd. unfold walk_struct. rewrite set_URI_nil. simpl.
    destruct (walk_fields_nil produced n IH fs ltac:(lia)) as [-> | ->];
      [now left | now right].
  - simpl in Hd. unfold walk_struct. rewrite set_URI_nil. simpl.
    destruct (walk_fields_nil produced n IH fs ltac:(lia)) as [-> | ->];
      [now left | now right].
Qed.

(** X16.  Without a rewrite function the walk changes nothing: for every
    payload and in every run, [WalkURIFields] with a nil [update] returns
    with the payload as it was, or panics. *)
Theorem WalkURIFields_nil_update_changes_nothing :
  forall (produced : string -> bool) (o : value),
    WalkURIFields produced o None = Done o
    \/ WalkURIFields produced o None = Panic.
Proof.
  intros produced o. exact (walk_nil produced (S (depth o)) o "top" (le_n _)).
Qed.

Section NilJsonWalk.
Variable produced : string -> bool.
Variable n : nat.
Hypothesis IHwalk :
  forall v parent,
    json v = true -> changes_free v = true -> depth v < n ->
    String.eqb parent "changes" && is_map v = false ->
    walk produced n None v parent = Done v.

Lemma map_pass_nil_json (parent k : string) (o : list (string * value)) :
  List.forallb (fun kv => json (snd kv)) o = true ->
  List.forallb
    (fun kv => negb (String.eqb (fst kv) "changes" && is_map (snd kv))
               && changes_free (snd kv)) o = true ->
  depth_map depth o < n ->
  String.eqb parent "changes" = false ->
  map_pass None (walk produced n None) parent k o = Done (o, None).
Proof.
  intros Hj Hc Hd Hp. unfold map_pass.
  destruct (gomap.lookup k o) as [v|] eqn:Hl; [|reflexivity].
  destruct (if uri_key k then as_string v else None); [reflexivity|].
  rewrite Hp.
  pose proof (lookup_In _ _ _ Hl) as Hin.
  pose proof (depth_map_In _ _ _ Hin) as Hv.
  rewrite forallb_forall in Hj, Hc.
  pose proof (Hj _ Hin) as Hjv. pose proof (Hc _ Hin) as Hcv. simpl in Hjv, Hcv.
  apply andb_true_iff in Hcv as [Hk Hcv]. apply negb_true_iff in Hk.
  rewrite (IHwalk v k Hjv Hcv ltac:(lia) Hk). simpl.
  now rewrite (insert_lookup_same _ _ _ Hl).
Qed.

Lemma range_map_nil_json (parent : string) (o : list (string * value)) :
  List.forallb (fun kv => json (snd kv)) o = true ->
  List.forallb
    (fun kv => negb (String.eqb (fst kv) "changes" && is_map (snd kv))
               && changes_free (snd kv)) o = true ->
  depth_map depth o < n ->
  String.eqb parent "changes" = false ->
  forall todo,
    range_map None produced (walk produced n None) parent todo o = Done o.
Proof.
  intros Hj Hc Hd Hp. induction todo as [|k todo IH]; simpl; [reflexivity|].
  rewrite (map_pass_nil_json parent k o Hj Hc Hd Hp). simpl. exact IH.
Qed.

Lemma range_slice_nil_json (l : list value) :
  List.forallb json l = true ->
  List.forallb changes_free l = true ->
  depth_list depth l < n ->
  forall k, range_slice (walk produced n None) k l = Done l.
Proof.
  induction l as [|v l IH]; intros Hj Hc Hd k; simpl; [reflexivity|].
  simpl in Hj, Hc, Hd.
  apply andb_true_iff in Hj as [Hjv Hj]. apply andb_true_iff in Hc as [Hcv Hc].
  rewrite (IHwalk v (rune_string k) Hjv Hcv ltac:(lia)).
  - simpl. now rewrite (IH Hj Hc ltac:(lia) (S k)).
  - now rewrite rune_string_not_changes.
Qed.

End NilJsonWalk.

Lemma walk_nil_json (produced : string -> bool) :
  forall fuel o parent,
    json o = true -> changes_free o = true -> depth o < fuel ->
    String.eqb parent "changes" && is_map o = false ->
    walk produced fuel None o parent = Done o.
Proof.
  induction fuel as [|n IH]; intros o parent Hj Hc Hd Hp; [lia|].
  destruct o as [| | | | |m|l|t|fs|l|l|m]; try discriminate Hj; try reflexivity.
  - simpl in Hj, Hc, Hd, Hp. rewrite andb_true_r in Hp. simpl.
    now rewrite (range_map_nil_json produced n IH parent m Hj Hc ltac:(lia) Hp).
  - simpl in Hj, Hc, Hd. simpl.
    now rewrite (range_slice_nil_json produced n IH l Hj Hc ltac:(lia)).
Qed.

(** X17.  Without a rewrite function, a decoded JSON payload in which no
    [changes] key holds a mapping is walked to the end and returned as it
    was, in every run. *)
Theorem WalkURIFields_nil_update_json :
  forall (produced : string -> bool) (o : value),
    json o = true ->
    changes_free o = true ->
    WalkURIFields produced o None = Done o.
Proof.
  intros produced o Hj Hc.
  exact (walk_nil_json produced (S (depth o)) o "top" Hj Hc (le_n _) eq_refl).
Qed.

Lemma WalkURIFields_nil_update_json_witness :
  WalkURIFields skip_inserted
    (VMap [("textDocument", VMap [("uri", VString "file:///a.json")]);
           ("contentChanges", VSlice [VMap [("text", VString "{}")]])]) None
  = Done (VMap [("textDocument", VMap [("uri", VString "file:///a.json")]);
                ("contentChanges", VSlice [VMap [("text", VString "{}")]])]).
Proof.
  exact (WalkURIFields_nil_update_json skip_inserted
           (VMap [("textDocument", VMap [("uri", VString "file:///a.json")]);
                  ("contentChanges", VSlice [VMap [("text", VString "{}")]])])
           eq_refl eq_refl).
Defined.

(** ** The walker on decoded payloads *)

Lemma lookup_middle (k : string) (v : value) (pre rest : list (string * value)) :
  ~ In k (gomap.keys pre) ->
  gomap.lookup k (pre ++ (k, v) :: rest)%list = Some v.
Proof.
  induction pre as [|[k' v'] pre IH]; simpl; intros H.
  - now rewrite String.eqb_refl.
  - destruct (String.eqb k k') eqn:E.
    + apply String.eqb_eq in E. subst k'. exfalso. apply H. now left.
    + apply IH. intros Hin. apply H. now right.
Qed.

Lemma insert_middle (k : string) (v v' : value) (pre rest : list (string * value)) :
  ~ In k (gomap.keys pre) ->
  gomap.insert k v' (pre ++ (k, v) :: rest)%list = (pre ++ (k, v') :: rest)%list.
Proof.
  induction pre as [|[k0 v0] pre IH]; simpl; intros H.
  - now rewrite String.eqb_refl.
  - destruct (String.eqb k k0) eqn:E.
    + apply String.eqb_eq in E. subst k0. exfalso. apply H. now left.
    + f_equal. apply IH. intros Hin. apply H. now right.
Qed.

Lemma translate_entry_key (f : DocumentURI -> DocumentURI) (kv : string * value) :
  fst (translate_entry f kv) = fst kv.
Proof. unfold translate_entry. now destruct (identifier kv). Qed.

Section TranslateWalk.
Variable f : DocumentURI -> DocumentURI.
Variable produced : string -> bool.
Variable n : nat.
Hypothesis IHwalk :
  forall v parent,
    json v = true -> changes_free v = true -> keyed v = true -> depth v < n ->
    String.eqb parent "changes" && is_map v = false ->
    walk produced n (Some f) v parent = Done (translate f v).

Lemma map_pass_translate (parent k : string) (v : value)
    (pre rest : list (string * value)) :
  ~ In k (gomap.keys pre) ->
  json v = true ->
  negb (String.eqb k "changes" && is_map v) && changes_free v = true ->
  keyed v = true ->
  depth v < n ->
  String.eqb parent "changes" = false ->
  map_pass (Some f) (walk produced n (Some f)) parent k (pre ++ (k, v) :: rest)%list
  = Done ((pre ++ translate_entry f (k, v) :: rest)%list, None).
Proof.
  intros Hk Hj Hc Hkd Hd Hp. unfold map_pass.
  rewrite (lookup_middle k v pre rest Hk).
  unfold translate_entry, identifier. simpl fst; simpl snd.
  destruct (if uri_key k then as_string v else None) as [s|].
  - now rewrite (insert_middle k v _ pre rest Hk).
  - rewrite Hp. apply andb_true_iff in Hc as [Hc1 Hc2]. apply negb_true_iff in Hc1.
    rewrite (IHwalk v k Hj Hc2 Hkd Hd Hc1). simpl.
    now rewrite (insert_middle k v _ pre rest Hk).
Qed.

Lemma range_map_translate (parent : string) :
  String.eqb parent "changes" = false ->
  forall rest pre,
    NoDup (gomap.keys rest) ->
    (forall k, In k (gomap.keys rest) -> ~ In k (gomap.keys pre)) ->
    List.forallb (fun kv => json (snd kv)) rest = true ->
    List.forallb
      (fun kv => negb (String.eqb (fst kv) "changes" && is_map (snd kv))
                 && changes_free (snd kv)) rest = true ->
    List.forallb (fun kv => keyed (snd kv)) rest = true ->
    depth_map depth rest < n ->
    range_map (Some f) produced (walk produced n (Some f)) parent
      (gomap.keys rest) (pre ++ rest)%list
    = Done (pre ++ List.map (translate_entry f) rest)%list.
Proof.
  intros Hp. induction rest as [|[k v] rest IH]; intros pre Hnd Hpre Hj Hc Hkd Hd.
  - reflexivity.
  - simpl in Hj, Hc, Hkd, Hd.
    apply andb_true_iff in Hj as [Hjv Hj]. apply andb_true_iff in Hc as [Hcv Hc].
    apply andb_true_iff in Hkd as [Hkv Hkd].
    simpl gomap.keys in *. inversion Hnd as [|k0 l0 Hnotin Hnd']; subst.
    simpl range_map.
    rewrite (map_pass_translate parent k v pre rest
               (Hpre k (or_introl eq_refl)) Hjv Hcv Hkv ltac:(lia) Hp).
    simpl bind.
    replace (pre ++ translate_entry f (k, v) :: rest)%list
      with ((pre ++ [translate_entry f (k, v)]) ++ rest)%list
      by (now rewrite <- List.app_assoc).
    rewrite IH; try assumption; try lia.
    + now rewrite <- List.app_assoc.
    + intros k' Hin Hin'. rewrite keys_app in Hin'. apply in_app_or in Hin' as [Hin' | Hin'].
      * exact (Hpre k' (or_intror Hin) Hin').
      * simpl in Hin'. rewrite translate_entry_key in Hin'. simpl in Hin'.
        destruct Hin' as [<- | []]. contradiction.
Qed.

Lemma range_slice_translate (l : list value) :
  List.forallb json l = true ->
  List.forallb changes_free l = true ->
  List.forallb keyed l = true ->
  depth_list depth l < n ->
  forall k, range_slice (walk produced n (Some f)) k l = Done (List.map (translate f) l).
Proof.
  induction l as [|v l IH]; intros Hj Hc Hk Hd k; simpl; [reflexivity|].
  simpl in Hj, Hc, Hk, Hd.
  apply andb_true_iff in Hj as [Hjv Hj]. apply andb_true_iff in Hc as [Hcv Hc].
  apply andb_true_iff in Hk as [Hkv Hk].
  rewrite (IHwalk v (rune_string k) Hjv Hcv Hkv ltac:(lia)).
  - simpl. now rewrite (IH Hj Hc Hk ltac:(lia) (S k)).
  - now rewrite rune_string_not_changes.
Qed.

End TranslateWalk.

Lemma walk_translate (f : DocumentURI -> DocumentURI) (produced : string -> bool) :
  forall fuel o parent,
    json o = true -> changes_free o = true -> keyed o = true -> depth o < fuel ->
    String.eqb parent "changes" && is_map o = false ->
    walk produced fuel (Some f) o parent = Done (translate f o).
Proof.
  induction fuel as [|n IH]; intros o parent Hj Hc Hk Hd Hp; [lia|].
  destruct o as [| | | | |m|l|t|fs|l|l|m]; try discriminate Hj; try reflexivity.
  - simpl in Hj, Hc, Hk, Hd, Hp. rewrite andb_true_r in Hp.
    apply andb_true_iff in Hk as [Hdist Hk].
    simpl walk.
    pose proof (range_map_translate f produced n IH parent Hp m []
                  (distinct_NoDup _ Hdist) (fun _ _ H => H) Hj Hc Hk ltac:(lia)) as E.
    simpl List.app in E. rewrite E. reflexivity.
  - simpl in Hj, Hc, Hk, Hd. simpl walk.
    now rewrite (range_slice_translate f produced n IH l Hj Hc Hk ltac:(lia)).
Qed.

(** X18.  With a rewrite function [f], the walk of a decoded JSON payload
    in which no [changes] key holds a mapping replaces the string under
    every key [uri], [rootPath], [rootUri] and [url], at any depth of
    mappings and sequences, by [f] of it, and leaves everything else as it
    was; the outcome is the same in every run. *)
Theorem WalkURIFields_translates :
  forall (f : DocumentURI -> DocumentURI) (produced : string -> bool) (o : value),
    json o = true ->
    changes_free o = true ->
    keyed o = true ->
    WalkURIFields produced o (Some f) = Done (translate f o).
Proof.
  intros f produced o Hj Hc Hk.
  exact (walk_translate f produced (S (depth o)) o "top" Hj Hc Hk (le_n _) eq_refl).
Qed.

Lemma WalkURIFields_translates_witness :
  WalkURIFields produce_inserted
    (VMap [("textDocument", VMap [("uri", VString "file:///a.json");
                                   ("version", VNumber 2)]);
           ("locations", VSlice [VMap [("uri", VString "file:///b.json")]])])
    (Some (toServer "/cache/S1"))
  = Done (translate (toServer "/cache/S1")
            (VMap [("textDocument", VMap [("uri", VString "file:///a.json");
                                           ("version", VNumber 2)]);
                   ("locations", VSlice [VMap [("uri", VString "file:///b.json")]])])).
Proof.
  exact (WalkURIFields_translates (toServer "/cache/S1") produce_inserted
           (VMap [("textDocument", VMap [("uri", VString "file:///a.json");
                                          ("version", VNumber 2)]);
                  ("locations", VSlice [VMap [("uri", VString "file:///b.json")]])])
           eq_refl eq_refl eq_refl).
Defined.

(** *** What a rewritten payload looks like *)

Lemma translate_entry_twice (f g : DocumentURI -> DocumentURI) (k : string) (v : value) :
  translate g (translate f v) = translate (fun s => g (f s)) v ->
  translate_entry g (translate_entry f (k, v))
  = translate_entry (fun s => g (f s)) (k, v).
Proof.
  intros H. unfold translate_entry, identifier. simpl fst; simpl snd.
  destruct (uri_key k) eqn:Ek.
  - destruct (as_string v) as [s|] eqn:Ev; simpl fst; simpl snd; rewrite Ek.
    + reflexivity.
    + assert (E : as_string (translate f v) = None)
        by (destruct v; try discriminate; reflexivity).
      now rewrite E, H.
  - simpl fst; simpl snd. now rewrite Ek, H.
Qed.

Lemma is_map_translate (f : DocumentURI -> DocumentURI) (o : value) :
  is_map (translate f o) = is_map o.
Proof. now destruct o. Qed.

Lemma keys_translate (f : DocumentURI -> DocumentURI) (m : list (string * value)) :
  gomap.keys (List.map (translate_entry f) m) = gomap.keys m.
Proof.
  unfold gomap.keys. rewrite List.map_map. apply List.map_ext.
  intros kv. apply translate_entry_key.
Qed.

(** The rewritten payload is again a decoded payload without a [changes]
    mapping and with distinct keys, and rewriting it once more is
    rewriting with the composed function. *)
Lemma translate_facts (f g : DocumentURI -> DocumentURI) :
  forall n o,
    depth o < n -> json o = true -> changes_free o = true -> keyed o = true ->
    json (translate f o) = true
    /\ changes_free (translate f o) = true
    /\ keyed (translate f o) = true
    /\ translate g (translate f o) = translate (fun s => g (f s)) o.
Proof.
  induction n as [|n IH]; intros o Hd Hj Hc Hk; [lia|].
  destruct o as [| | | | |m|l|t|fs|l|l|m]; try discriminate Hj;
    try (repeat split; reflexivity).
  - simpl in Hd, Hj, Hc, Hk. apply andb_true_iff in Hk as [Hdist Hk].
    change (translate f (VMap m)) with (VMap (List.map (translate_entry f) m)).
    change (translate (fun s => g (f s)) (VMap m))
      with (VMap (List.map (translate_entry (fun s => g (f s))) m)).
    change (translate g (VMap (List.map (translate_entry f) m)))
      with (VMap (List.map (translate_entry g) (List.map (translate_entry f) m))).
    simpl json. simpl changes_free. simpl keyed.
    rewrite keys_translate, Hdist. simpl andb.
    rewrite forallb_forall in Hj, Hc, Hk.
    assert (Hall : forall kv, In kv m ->
              json (snd (translate_entry f kv)) = true
              /\ (negb (String.eqb (fst (translate_entry f kv)) "changes"
                        && is_map (snd (translate_entry f kv)))
                  && changes_free (snd (translate_entry f kv))) = true
              /\ keyed (snd (translate_entry f kv)) = true
              /\ translate_entry g (translate_entry f kv)
                 = translate_entry (fun s => g (f s)) kv).
    { intros [k v] Hin.
      pose proof (Hj _ Hin) as Hjv. pose proof (Hc _ Hin) as Hcv.
      pose proof (Hk _ Hin) as Hkv. simpl in Hjv, Hcv, Hkv.
      apply andb_true_iff in Hcv as [Hc1 Hc2].
      pose proof (depth_map_In _ _ _ Hin) as Hdv.
      destruct (IH v ltac:(lia) Hjv Hc2 Hkv) as (H1 & H2 & H3 & H4).
      split; [|split; [|split]]; [| | |now apply translate_entry_twice].
      - unfold translate_entry. now destruct (identifier (k, v)).
      - unfold translate_entry. destruct (identifier (k, v)); simpl.
        + now rewrite andb_false_r.
        + now rewrite is_map_translate, Hc1, H2.
      - unfold translate_entry. now destruct (identifier (k, v)). }
    repeat split.
    + apply forallb_forall. intros kv' Hin'. apply in_map_iff in Hin' as (kv & <- & Hin).
      now destruct (Hall kv Hin).
    + apply forallb_forall. intros kv' Hin'. apply in_map_iff in Hin' as (kv & <- & Hin).
      now destruct (Hall kv Hin) as (_ & H & _).
    + apply forallb_forall. intros kv' Hin'. apply in_map_iff in Hin' as (kv & <- & Hin).
      now destruct (Hall kv Hin) as (_ & _ & H & _).
    + f_equal. rewrite List.map_map. apply List.map_ext_in. intros kv Hin.
      now destruct (Hall kv Hin) as (_ & _ & _ & H).
  - simpl in Hd, Hj, Hc, Hk. simpl.
    rewrite forallb_forall in Hj, Hc, Hk.
    assert (Hall : forall v, In v l ->
              json (translate f v) = true /\ changes_free (translate f v) = true
              /\ keyed (translate f v) = true
              /\ translate g (translate f v) = translate (fun s => g (f s)) v).
    { intros v Hin. pose proof (depth_list_In _ _ Hin) as Hdv.
      apply IH; [lia | now apply Hj | now apply Hc | now apply Hk]. }
    repeat split.
    + apply forallb_forall. intros v' Hin'. apply in_map_iff in Hin' as (v & <- & Hin).
      now destruct (Hall v Hin).
    + apply forallb_forall. intros v' Hin'. apply in_map_iff in Hin' as (v & <- & Hin).
      now destruct (Hall v Hin) as (_ & H & _).
    + apply forallb_forall. intros v' Hin'. apply in_map_iff in Hin' as (v & <- & Hin).
      now destruct (Hall v Hin) as (_ & _ & H & _).
    + f_equal. rewrite List.map_map. apply List.map_ext_in. intros v Hin.
      now destruct (Hall v Hin) as (_ & _ & _ & H).
Qed.

(** Rewrite functions that agree on the identifiers of a payload rewrite
    it the same way. *)
Lemma translate_ext (P : string -> bool) (f g : DocumentURI -> DocumentURI) :
  (forall s, P s = true -> f s = g s) ->
  forall n o, depth o < n -> identifiers P o = true -> translate f o = translate g o.
Proof.
  intros Hfg. induction n as [|n IH]; intros o Hd Hi; [lia|].
  destruct o as [| | | | |m|l|t|fs|l|l|m]; try reflexivity.
  - simpl in Hd, Hi. simpl. f_equal. apply List.map_ext_in. intros [k v] Hin.
    rewrite forallb_forall in Hi. pose proof (Hi _ Hin) as Hv.
    pose proof (depth_map_In _ _ _ Hin) as Hdv.
    destruct (identifier (k, v)) as [s|].
    + now rewrite (Hfg s Hv).
    + simpl in Hv |- *. now rewrite (IH v ltac:(lia) Hv).
  - simpl in Hd, Hi. simpl. f_equal. apply List.map_ext_in. intros v Hin.
    rewrite forallb_forall in Hi. pose proof (depth_list_In _ _ Hin) as Hdv.
    apply IH; [lia | now apply Hi].
Qed.

Lemma walk_twice (f g : DocumentURI -> DocumentURI) (produced produced' : string -> bool)
    (o : value) :
  json o = true -> changes_free o = true -> keyed o = true ->
  (o1 <- WalkURIFields produced o (Some f) ;; WalkURIFields produced' o1 (Some g))
  = Done (translate (fun s => g (f s)) o).
Proof.
  intros Hj Hc Hk.
  destruct (translate_facts f g (S (depth o)) o (le_n _) Hj Hc Hk)
    as (Hj' & Hc' & Hk' & Hcomp).
  unfold WalkURIFields at 1.
  rewrite (walk_translate f produced (S (depth o)) o "top" Hj Hc Hk (le_n _) eq_refl).
  unfold bind, WalkURIFields.
  rewrite (walk_translate g produced' _ (translate f o) "top" Hj' Hc' Hk' (le_n _) eq_refl).
  now rewrite Hcomp.
Qed.

(** X19.  Walking a decoded payload with one rewrite function and then
    with another is walking it once with their composition (for a payload
    in which no [changes] key holds a mapping; the runs of the two walks
    need not be the same). *)
Theorem WalkURIFields_composes :
  forall (f g : DocumentURI -> DocumentURI) (produced produced' : string -> bool)
         (o : value),
    json o = true ->
    changes_free o = true ->
    keyed o = true ->
    (o1 <- WalkURIFields produced o (Some f) ;; WalkURIFields produced' o1 (Some g))
    = WalkURIFields produced o (Some (fun s => g (f s))).
Proof.
  intros f g produced produced' o Hj Hc Hk.
  rewrite (walk_twice f g produced produced' o Hj Hc Hk).
  unfold WalkURIFields.
  now rewrite (walk_translate (fun s => g (f s)) produced (S (depth o)) o "top"
                 Hj Hc Hk (le_n _) eq_refl).
Qed.

Lemma WalkURIFields_composes_witness :
  (o1 <- WalkURIFields skip_inserted
           (VMap [("uri", VString "file:///a.json")]) (Some (toServer "/cache/S1")) ;;
   WalkURIFields produce_inserted o1 (Some (toServer "/mnt")))
  = WalkURIFields skip_inserted (VMap [("uri", VString "file:///a.json")])
      (Some (fun s => toServer "/mnt" (toServer "/cache/S1" s))).
Proof.
  exact (WalkURIFields_composes (toServer "/cache/S1") (toServer "/mnt")
           skip_inserted produce_inserted
           (VMap [("uri", VString "file:///a.json")]) eq_refl eq_refl eq_refl).
Defined.

(** X20.  A message sent to the server and back comes out with the
    identifiers it had: when every identifier of a decoded payload is in
    canonical spelling and the cache directory is a rooted path in cleaned
    form, walking the payload with [clientToServerURI] and then with
    [serverToClientURI] leaves each identifier as it was (held as an
    [lsp.DocumentURI]) and everything else untouched. *)
Theorem message_round_trip :
  forall (c : string) (produced produced' : string -> bool) (o : value),
    clean_rooted c = true ->
    json o = true ->
    changes_free o = true ->
    keyed o = true ->
    identifiers canonical_id o = true ->
    (o1 <- WalkURIFields produced o
             (Some (fun id => returned (clientToServerURI id c))) ;;
     WalkURIFields produced' o1
       (Some (fun id => returned (serverToClientURI id c))))
    = Done (translate (fun id => id) o).
Proof.
  intros c produced produced' o Hcl Hj Hc Hk Hid.
  rewrite (walk_twice _ _ produced produced' o Hj Hc Hk). f_equal.
  apply (translate_ext canonical_id _ _) with (n := S (depth o));
    [|apply le_n|exact Hid].
  intros s Hs. exact (toClient_toServer s c Hs Hcl).
Qed.

Lemma message_round_trip_witness :
  (o1 <- WalkURIFields skip_inserted
           (VMap [("textDocument", VMap [("uri", VString "file:///a.json")])])
           (Some (fun id => returned (clientToServerURI id "/cache/S1"))) ;;
   WalkURIFields skip_inserted o1
     (Some (fun id => returned (serverToClientURI id "/cache/S1"))))
  = Done (translate (fun id => id)
            (VMap [("textDocument", VMap [("uri", VString "file:///a.json")])])).
Proof.
  exact (message_round_trip "/cache/S1" skip_inserted skip_inserted
           (VMap [("textDocument", VMap [("uri", VString "file:///a.json")])])
           eq_refl eq_refl eq_refl eq_refl eq_refl).
Defined.

(** ** Records the walk cannot get through *)

Lemma set_URI_unaddressable (f : DocumentURI -> DocumentURI) (fs : list (field value)) :
  has_string_URI fs = true -> set_URI (Some f) false fs = Panic.
Proof.
  induction fs as [|fld fs IH]; simpl; [discriminate|].
  destruct (String.eqb (fname fld) "URI").
  - unfold string_field, field_kind.
    destruct (fiface fld); [discriminate|].
    now destruct (fvalue fld).
  - intros H. now rewrite (IH H).
Qed.

(** [set_URI] leaves the followed fields as they are. *)
Lemma set_URI_keeps (update : update_fn) (addressable : bool) (fld : field value) :
  followed fld = true ->
  forall fs fs',
    set_URI update addressable fs = Done fs' -> In fld fs -> In fld fs'.
Proof.
  intros Hf. induction fs as [|x fs IH]; intros fs' E Hin; [destruct Hin|].
  simpl in E. destruct (String.eqb (fname x) "URI").
  - destruct (Kind_eqb (field_kind x) String_) eqn:Ek;
      [|injection E as <-; exact Hin].
    destruct (as_string (fvalue x)) as [s|]; [|injection E as <-; exact Hin].
    destruct update as [upd|]; [|injection E as <-; exact Hin].
    destruct addressable; [|discriminate].
    injection E as <-. destruct Hin as [-> | Hin]; [|now right].
    exfalso. unfold followed in Hf. now destruct (field_kind fld).
  - destruct (set_URI update addressable fs) as [fs1| |]; try discriminate.
    simpl in E. injection E as <-.
    destruct Hin as [-> | Hin]; [now left | right; now apply IH].
Qed.

Section StuckWalk.
Variable update : update_fn.
Variable produced : string -> bool.
Variable n : nat.

Lemma walk_fields_stops (fld : field value) :
  stops update produced n fld ->
  forall fs,
    depth_fields depth fs < n -> In fld fs ->
    walk_fields (walk produced n update) fs = Panic.
Proof.
  intros [Hf Hstop]. induction fs as [|x fs IH]; intros Hd Hin; [destruct Hin|].
  simpl in Hd. simpl walk_fields.
  destruct Hin as [-> | Hin].
  - unfold followed in Hf.
    destruct (field_kind fld); try discriminate;
      (destruct Hstop as [-> | ->]; [reflexivity | now destruct (exported fld)]).
  - pose proof (walk_bounded update produced n (fvalue x) "n/a" ltac:(lia)) as Hb.
    specialize (IH ltac:(lia) Hin). rewrite IH.
    destruct (field_kind x); try reflexivity;
      (destruct (exported x); [|reflexivity];
       destruct (walk produced n update (fvalue x) "n/a");
       [reflexivity | reflexivity | destruct Hb]).
Qed.

Lemma walk_struct_stops (addressable : bool) (fld : field value)
    (fs : list (field value)) :
  stops update produced n fld -> depth_fields depth fs < n -> In fld fs ->
  walk_struct update (walk produced n update) addressable fs = Panic.
Proof.
  intros Hs Hd Hin. unfold walk_struct.
  pose proof (set_URI_bounded update addressable (depth_fields depth fs) fs (le_n _)) as Hb.
  destruct (set_URI update addressable fs) as [fs'| |] eqn:E;
    [|reflexivity|destruct Hb].
  simpl. apply (walk_fields_stops fld Hs fs'); [lia|].
  exact (set_URI_keeps update addressable fld (proj1 Hs) fs fs' E Hin).
Qed.

End StuckWalk.

Lemma walk_pointer (produced : string -> bool) (n : nat) (update : update_fn)
    (fs : list (field value)) (parent : string) :
  walk produced (S n) update (VPtr (Some (VStruct fs))) parent
  = fields' <- walk_struct update (walk produced n update) true fs ;;
    Done (VPtr (Some (VStruct fields'))).
Proof. reflexivity. Qed.

Lemma walk_value (produced : string -> bool) (n : nat) (update : update_fn)
    (fs : list (field value)) (parent : string) :
  walk produced (S n) update (VStruct fs) parent
  = fields' <- walk_struct update (walk produced n update) false fs ;;
    Done (VStruct fields').
Proof. reflexivity. Qed.

(** X21.  With a rewrite function the walk panics on a record that is
    held by value and has a string [URI] field ([SetString] on a value
    that cannot be addressed): when such a record is the payload, and when
    it sits in an exported field of kind struct of a record the walk
    reaches through a pointer. *)
Theorem WalkURIFields_value_record_panics :
  forall (f : DocumentURI -> DocumentURI) (produced : string -> bool)
         (inner : list (field value)),
    has_string_URI inner = true ->
    WalkURIFields produced (VStruct inner) (Some f) = Panic
    /\ forall (fs : list (field value)) (fld : field value),
         In fld fs ->
         exported fld = true -> fiface fld = false -> fvalue fld = VStruct inner ->
         WalkURIFields produced (VPtr (Some (VStruct fs))) (Some f) = Panic.
Proof.
  intros f produced inner Hi.
  assert (Hw : forall n p, walk produced (S n) (Some f) (VStruct inner) p = Panic).
  { intros n p. simpl. unfold walk_struct. now rewrite (set_URI_unaddressable f inner Hi). }
  split; [apply Hw|].
  intros fs fld Hin He Hif Hv.
  unfold WalkURIFields.
  change (depth (VPtr (Some (VStruct fs)))) with (S (S (depth_fields depth fs))).
  rewrite walk_pointer.
  rewrite (walk_struct_stops (Some f) produced _ true fld fs);
    [reflexivity| |lia|exact Hin].
  split.
  - unfold followed, field_kind. now rewrite Hif, Hv.
  - right. rewrite Hv. apply Hw.
Qed.

Lemma WalkURIFields_value_record_panics_witness :
  WalkURIFields skip_inserted
    (VStruct [mkField "URI" false (VDocumentURI "file:///a.json")])
    (Some (toServer "/cache/S1")) = Panic
  /\ WalkURIFields skip_inserted
       (VPtr (Some (VStruct
          [mkField "TextDocument" false
             (VStruct [mkField "URI" false (VDocumentURI "file:///a.json")]);
           mkField "Position" false
             (VStruct [mkField "Line" false (VNumber 1)])])))
       (Some (toServer "/cache/S1")) = Panic.
Proof.
  destruct (WalkURIFields_value_record_panics (toServer "/cache/S1") skip_inserted
              [mkField "URI" false (VDocumentURI "file:///a.json")] eq_refl)
    as [H1 H2].
  split; [exact H1|].
  apply (H2 _ (mkField "TextDocument" false
                 (VStruct [mkField "URI" false (VDocumentURI "file:///a.json")])));
    [left; reflexivity | reflexivity | reflexivity | reflexivity].
Defined.



(** ** What the translators write to the log *)

(** X23.  The translators write to the log only when the identifier
    does not parse: whenever [url.Parse] accepts it nothing is logged,
    whatever the identifier and the cache directory, and otherwise exactly
    one line is. *)
Theorem translators_log_parse_errors_only :
  forall (uri : DocumentURI) (c : string),
    (logged (clientToServerURI uri c) = [] <-> url.Parse uri <> None)
    /\ (logged (serverToClientURI uri c) = [] <-> url.Parse uri <> None)
    /\ List.length (logged (clientToServerURI uri c)) <= 1
    /\ List.length (logged (serverToClientURI uri c)) <= 1.
Proof.
  intros uri c. unfold clientToServerURI, serverToClientURI.
  destruct (url.Parse uri) as [u|].
  - destruct (negb (probablyFileURI u)); simpl;
      repeat split; try discriminate; try reflexivity; lia.
  - simpl. repeat split;
      try (intros H; first [discriminate H | exfalso; now apply H]); lia.
Qed.

(** ** The walker on payloads with workspace edits *)

Lemma rewritten_entry_key (f : DocumentURI -> DocumentURI) (kv : string * value) :
  fst (rewritten_entry f kv) = fst kv.
Proof. unfold rewritten_entry. now destruct (identifier kv). Qed.

Section EditWalk.
Variable f : DocumentURI -> DocumentURI.
Variable produced : string -> bool.
Variable n : nat.
Hypothesis IHwalk :
  forall v parent,
    workspace_edit f produced (String.eqb parent "changes") v = true ->
    depth v < n ->
    walk produced n (Some f) v parent
    = Done (rewritten f (String.eqb parent "changes") v).

Lemma map_pass_rewritten (parent k : string) (v : value)
    (pre rest : list (string * value)) :
  ~ In k (gomap.keys pre) ->
  match identifier (k, v) with
  | Some _ => true
  | None => workspace_edit f produced (String.eqb k "changes") v
  end = true ->
  depth v < n ->
  String.eqb parent "changes" = false ->
  map_pass (Some f) (walk produced n (Some f)) parent k (pre ++ (k, v) :: rest)%list
  = Done ((pre ++ rewritten_entry f (k, v) :: rest)%list, None).
Proof.
  intros Hk Hok Hd Hp. unfold map_pass.
  rewrite (lookup_middle k v pre rest Hk).
  unfold rewritten_entry, identifier in *. simpl fst in *; simpl snd in *.
  destruct (if uri_key k then as_string v else None) as [s|].
  - now rewrite (insert_middle k v _ pre rest Hk).
  - rewrite Hp, (IHwalk v k Hok Hd). simpl.
    now rewrite (insert_middle k v _ pre rest Hk).
Qed.

Lemma range_map_rewritten (parent : string) :
  String.eqb parent "changes" = false ->
  forall rest pre,
    NoDup (gomap.keys rest) ->
    (forall k, In k (gomap.keys rest) -> ~ In k (gomap.keys pre)) ->
    List.forallb
      (fun kv => match identifier kv with
                 | Some _ => true
                 | None => workspace_edit f produced (String.eqb (fst kv) "changes") (snd kv)
                 end) rest = true ->
    depth_map depth rest < n ->
    range_map (Some f) produced (walk produced n (Some f)) parent
      (gomap.keys rest) (pre ++ rest)%list
    = Done (pre ++ List.map (rewritten_entry f) rest)%list.
Proof.
  intros Hp. induction rest as [|[k v] rest IH]; intros pre Hnd Hpre Hok Hd.
  - reflexivity.
  - simpl in Hok, Hd. apply andb_true_iff in Hok as [Hokv Hok].
    simpl gomap.keys in *. inversion Hnd as [|k0 l0 Hnotin Hnd']; subst.
    simpl range_map.
    rewrite (map_pass_rewritten parent k v pre rest
               (Hpre k (or_introl eq_refl)) Hokv ltac:(lia) Hp).
    simpl bind.
    replace (pre ++ rewritten_entry f (k, v) :: rest)%list
      with ((pre ++ [rewritten_entry f (k, v)]) ++ rest)%list
      by (now rewrite <- List.app_assoc).
    rewrite IH; try assumption; try lia.
    + now rewrite <- List.app_assoc.
    + intros k' Hin Hin'. rewrite keys_app in Hin'. apply in_app_or in Hin' as [Hin' | Hin'].
      * exact (Hpre k' (or_intror Hin) Hin').
      * simpl in Hin'. rewrite rewritten_entry_key in Hin'. simpl in Hin'.
        destruct Hin' as [<- | []]. contradiction.
Qed.

Lemma range_slice_rewritten (l : list value) :
  List.forallb (workspace_edit f produced false) l = true ->
  depth_list depth l < n ->
  forall k,
    range_slice (walk produced n (Some f)) k l = Done (List.map (rewritten f false) l).
Proof.
  induction l as [|v l IH]; intros Hok Hd k; simpl; [reflexivity|].
  simpl in Hok, Hd. apply andb_true_iff in Hok as [Hv Hok].
  pose proof (IHwalk v (rune_string k)) as Hw.
  rewrite rune_string_not_changes in Hw.
  rewrite (Hw Hv ltac:(lia)). simpl.
  now rewrite (IH Hok ltac:(lia) (S k)).
Qed.

End EditWalk.

Lemma walk_rewritten (f : DocumentURI -> DocumentURI) (produced : string -> bool) :
  forall fuel o parent,
    workspace_edit f produced (String.eqb parent "changes") o = true ->
    depth o < fuel ->
    walk produced fuel (Some f) o parent
    = Done (rewritten f (String.eqb parent "changes") o).
Proof.
  induction fuel as [|n IH]; intros o parent Hok Hd; [lia|].
  destruct o as [| | | | |m|l|t|fs|l|l|m]; try discriminate Hok; try reflexivity.
  - simpl in Hd. simpl walk.
    destruct (String.eqb parent "changes") eqn:Hp.
    + apply String.eqb_eq in Hp. subst parent.
      simpl in Hok.
      apply andb_true_iff in Hok as [Hok Hedit]. apply andb_true_iff in Hok as [Hok Hrun].
      apply andb_true_iff in Hok as [Hdist Hcf].
      destruct (collision_free_spec f m Hcf) as [Hinj Hfix].
      rewrite forallb_forall in Hedit, Hrun.
      pose proof (range_map_changes f produced n m []
                    (distinct_NoDup _ Hdist) Hinj Hfix) as H.
      rewrite List.app_nil_r in H. rewrite H; [reflexivity | | | | ].
      * intros k _ [].
      * intros k _ [].
      * intros k Hin. apply negb_true_iff. now apply Hrun.
      * intros k v Hin. split; [exact (Hedit _ Hin)|].
        pose proof (depth_map_In _ _ _ Hin). lia.
    + simpl in Hok. apply andb_true_iff in Hok as [Hdist Hok].
      pose proof (range_map_rewritten f produced n IH parent Hp m []
                    (distinct_NoDup _ Hdist) (fun _ _ H => H) Hok ltac:(lia)) as E.
      simpl List.app in E. rewrite E.
      simpl. reflexivity.
  - simpl in Hok, Hd. simpl walk.
    rewrite (range_slice_rewritten f produced n IH l); [|exact Hok|lia].
    simpl. now destruct (String.eqb parent "changes").
Qed.

(** X24.  With a rewrite function [f], the walk of a decoded JSON payload
    that may hold workspace edits rewrites every identifier and nothing
    else: the string under every key [uri], [rootPath], [rootUri] and
    [url] becomes [f] of it, and in every mapping under a [changes] key
    each key [k] becomes [f k] with its edit list as it was.  This holds
    at any depth, when in each [changes] mapping [f] sends the keys to
    distinct identifiers none of which is another of its keys, in the runs
    that do not produce the entries the loop inserts. *)
Theorem WalkURIFields_rewrites_workspace_edits :
  forall (f : DocumentURI -> DocumentURI) (produced : string -> bool) (o : value),
    workspace_edit f produced false o = true ->
    WalkURIFields produced o (Some f) = Done (rewritten f false o).
Proof.
  intros f produced o Hok.
  exact (walk_rewritten f produced (S (depth o)) o "top" Hok (le_n _)).
Qed.

Lemma WalkURIFields_rewrites_workspace_edits_witness :
  WalkURIFields skip_inserted
    (VMap [("label", VString "rename");
           ("edit",
            VMap [("changes",
                   VMap [("file:///a.json", VSlice [VMap [("newText", VString "x")]]);
                         ("file:///b.json", VSlice [])]);
                  ("documentChanges",
                   VSlice [VMap [("textDocument",
                                  VMap [("uri", VString "file:///a.json")])]])])])
    (Some (toServer "/cache/S1"))
  = Done
      (VMap [("label", VString "rename");
             ("edit",
              VMap [("changes",
                     VMap [("file:///cache/S1/a.json",
                            VSlice [VMap [("newText", VString "x")]]);
                           ("file:///cache/S1/b.json", VSlice [])]);
                    ("documentChanges",
                     VSlice [VMap [("textDocument",
                                    VMap [("uri",
                                           VDocumentURI "file:///cache/S1/a.json")])]])])]).
Proof.
  exact (WalkURIFields_rewrites_workspace_edits (toServer "/cache/S1") skip_inserted
           (VMap [("label", VString "rename");
                  ("edit",
                   VMap [("changes",
                          VMap [("file:///a.json", VSlice [VMap [("newText", VString "x")]]);
                                ("file:///b.json", VSlice [])]);
                         ("documentChanges",
                          VSlice [VMap [("textDocument",
                                         VMap [("uri", VString "file:///a.json")])]])])])
           eq_refl).
Defined.


